(** * Fractional real-estate tokens and rent distribution

    A shallow embedding of the Solidity contracts [FractionalToken] and
    [RentDistribution] (contracts/FractionalToken.sol) together with the part
    of [PropertyNFT] (contracts/PropertyNFT.sol) they call into.  The
    administration of [PropertyNFT] and the entry points and queries of
    [PropertyManager] (contracts/PropertyManager.sol) follow in modules of
    their own.

    Conventions of the embedding:
    - [uint256] and [address] are [N]; Solidity 0.8 arithmetic is checked, so
      every [+], [-], [*], [/] of the source is a function into [result] that
      reverts where the EVM would panic.  OpenZeppelin's [SafeMath] under 0.8
      is a thin wrapper around those same checked operators.
    - a transaction either returns [Ok] with the successor state or [Revert]
      with the reason; a reverted transaction leaves the pre-state in place
      (see [run] in each module).
    - [mapping(K => V)] is a [gmap K V] read with the type's zero value as
      default, as the EVM does.
    - [payable(a).transfer(v)] forwards 2300 gas: the recipient cannot call
      back, and the transfer reverts when the contract holds less than [v] or
      the recipient refuses; the latter is an oracle of the call context.
      [nonReentrant] therefore never fires and is not modelled. *)

From Stdlib Require Import NArith List Lia Bool.
From stdpp Require Import gmap list fin_maps.

Local Open Scope N_scope.

(** ** Machine integers, addresses and transaction results *)

Abbreviation address := N (only parsing).

Definition MAX_UINT256 : N := 2 ^ 256 - 1.

Inductive Error : Set :=
| KYCRequired              (* "KYC verification required" *)
| RecipientNotKYC          (* "Recipient must be KYC verified" *)
| NotPropertyOwner         (* "Not the property owner" *)
| TokenNotActive           (* "Token is not active" *)
| Paused                   (* "Pausable: paused" *)
| NotPaused                (* "Pausable: not paused" *)
| NotOwner                 (* "Ownable: caller is not the owner" *)
| NewOwnerZero             (* "Ownable: new owner is the zero address" *)
| ZeroTokenAmount          (* "Token amount must be greater than 0" *)
| NotEnoughTokens          (* "Not enough tokens available" *)
| InsufficientPayment      (* "Insufficient payment" *)
| InsufficientTokenBalance (* "Insufficient token balance" *)
| InsufficientContractBalance (* "Insufficient contract balance" *)
| ZeroPrice                (* "Price must be greater than 0" *)
| NoBalanceToWithdraw      (* "No balance to withdraw" *)
| ERC20ZeroAddress         (* "ERC20: ... the zero address" *)
| ERC20ExceedsBalance      (* "ERC20: transfer amount exceeds balance" *)
| ERC20InsufficientAllowance (* "ERC20: insufficient allowance" *)
| ERC20AllowanceBelowZero  (* "ERC20: decreased allowance below zero" *)
| PropertyDoesNotExist     (* "Property does not exist" *)
| ZeroTotalValue           (* "Total value must be greater than 0" *)
| ZeroRentAmount           (* "Rent amount must be greater than 0" *)
| TokenNotRegistered       (* "Fractional token not registered" *)
| InvalidTokenAddress      (* "Invalid token address" *)
| AlreadyCompleted         (* "Distribution already completed" *)
| AlreadyClaimed           (* "Already claimed" *)
| NoAllocation             (* "No distribution available" *)
| PlatformFeeTooHigh       (* "Platform fee too high" *)
| ManagementFeeTooHigh     (* "Management fee too high" *)
| TransferFailed           (* payable(..).transfer reverted *)
| CallFailed               (* external call to an address without the code *)
| PanicOverflow            (* Panic(0x11) *)
| PanicDivZero.            (* Panic(0x12) *)

Inductive result (A : Type) : Type :=
| Ok (a : A)
| Revert (e : Error).
Arguments Ok {A} a.
Arguments Revert {A} e.

#[global] Instance result_bind : MBind result := fun A B k r =>
  match r with
  | Ok a => k a
  | Revert e => Revert e
  end.

(** [require(cond, reason)] *)
Definition require (cond : bool) (e : Error) : result unit :=
  if cond then Ok tt else Revert e.

Definition add (a b : N) : result N :=
  if a + b <=? MAX_UINT256 then Ok (a + b) else Revert PanicOverflow.
Definition sub (a b : N) : result N :=
  if b <=? a then Ok (a - b) else Revert PanicOverflow.
Definition mul (a b : N) : result N :=
  if a * b <=? MAX_UINT256 then Ok (a * b) else Revert PanicOverflow.
Definition div (a b : N) : result N :=
  if b =? 0 then Revert PanicDivZero else Ok (a / b).

(** Reading a [mapping(.. => uint256)] and a [mapping(.. => bool)]. *)
Definition get `{Countable K} (m : gmap K N) (k : K) : N := default 0 (m !! k).
Definition getb `{Countable K} (m : gmap K bool) (k : K) : bool :=
  default false (m !! k).
Arguments get : simpl never.
Arguments getb : simpl never.

(** Sum of all values stored in a [mapping(address => uint256)]. *)
Definition sumMap (m : gmap N N) : N := map_fold (fun _ v acc => v + acc) 0 m.

(** ** PropertyNFT: the collaborator the two contracts call into *)
Module PropertyNFT.

(** [PropertyInfo] without its string fields (name, description,
    propertyType, metadataURI), which no modelled function reads. *)
Record PropertyInfo := mkPropertyInfo {
  totalValue : N;
  totalTokens : N;
  availableTokens : N;
  tokenPrice : N;
  propertyOwner : address;
  isActive : bool;
  createdAt : N
}.

Definition noProperty : PropertyInfo := mkPropertyInfo 0 0 0 0 0 false 0.

Record State := mkState {
  _owner : address;                      (* Ownable *)
  _paused : bool;                        (* Pausable *)
  _owners : gmap N address;              (* ERC721 token owners *)
  properties : gmap N PropertyInfo;
  kycVerified : gmap address bool
}.

Definition _exists (st : State) (tokenId : N) : bool :=
  negb (get (_owners st) tokenId =? 0).

Definition property (st : State) (tokenId : N) : PropertyInfo :=
  default noProperty (properties st !! tokenId).

Definition getProperty (st : State) (tokenId : N) : result PropertyInfo :=
  require (_exists st tokenId) PropertyDoesNotExist ;;
  Ok (property st tokenId).

Definition set_properties (st : State) (ps : gmap N PropertyInfo) : State :=
  mkState (_owner st) (_paused st) (_owners st) ps (kycVerified st).

Definition updateAvailableTokens (sender : address) (st : State)
    (tokenId newAvailableTokens : N) : result State :=
  require (sender =? _owner st) NotOwner ;;
  require (_exists st tokenId) PropertyDoesNotExist ;;
  let p := property st tokenId in
  Ok (set_properties st
        (<[tokenId := mkPropertyInfo (totalValue p) (totalTokens p)
                        newAvailableTokens (tokenPrice p) (propertyOwner p)
                        (isActive p) (createdAt p)]> (properties st))).

Definition updateProperty (sender : address) (st : State)
    (tokenId newTotalValue newTokenPrice : N) : result State :=
  require (propertyOwner (property st tokenId) =? sender) NotPropertyOwner ;;
  require (negb (_paused st)) Paused ;;
  require (_exists st tokenId) PropertyDoesNotExist ;;
  require (0 <? newTotalValue) ZeroTotalValue ;;
  require (0 <? newTokenPrice) ZeroPrice ;;
  let p := property st tokenId in
  Ok (set_properties st
        (<[tokenId := mkPropertyInfo newTotalValue (totalTokens p)
                        (availableTokens p) newTokenPrice (propertyOwner p)
                        (isActive p) (createdAt p)]> (properties st))).

End PropertyNFT.

(** ** Call context *)

(** What a transaction sees of its environment: [msg.sender],
    [block.timestamp], and whether an address accepts a plain ether
    transfer.  [msg.value] is an argument of the payable entry points. *)
Record Ctx := mkCtx {
  msg_sender : address;
  block_timestamp : N;
  accepts : address -> bool
}.

(** ** FractionalToken *)
Module FractionalToken.

Module TokenInfo.
Record t := mk {
  totalSupply : N;
  availableSupply : N;
  pricePerToken : N;
  isActive : bool;
  createdAt : N
}.
End TokenInfo.

Record Investment := mkInvestment {
  investor : address;
  amount : N;
  timestamp : N;
  pricePerToken : N
}.

Record State := mkState {
  self : address;                          (* address(this) *)
  _balances : gmap address N;              (* ERC20 *)
  _allowances : gmap (address * address) N;
  _totalSupply : N;
  _owner : address;                        (* Ownable *)
  _paused : bool;                          (* Pausable *)
  propertyId : N;
  tokenInfo : TokenInfo.t;
  investments : gmap address (list Investment);
  investors : list address;
  isInvestor : gmap address bool;
  totalInvested : N;
  balance : N                              (* address(this).balance *)
}.

Definition set__balances (st : State) (b : gmap address N) : State :=
  mkState (self st) b (_allowances st) (_totalSupply st) (_owner st)
    (_paused st) (propertyId st) (tokenInfo st) (investments st)
    (investors st) (isInvestor st) (totalInvested st) (balance st).
Definition set__allowances (st : State) (a : gmap (address * address) N) : State :=
  mkState (self st) (_balances st) a (_totalSupply st) (_owner st)
    (_paused st) (propertyId st) (tokenInfo st) (investments st)
    (investors st) (isInvestor st) (totalInvested st) (balance st).
Definition set__totalSupply (st : State) (n : N) : State :=
  mkState (self st) (_balances st) (_allowances st) n (_owner st)
    (_paused st) (propertyId st) (tokenInfo st) (investments st)
    (investors st) (isInvestor st) (totalInvested st) (balance st).
Definition set__owner (st : State) (o : address) : State :=
  mkState (self st) (_balances st) (_allowances st) (_totalSupply st) o
    (_paused st) (propertyId st) (tokenInfo st) (investments st)
    (investors st) (isInvestor st) (totalInvested st) (balance st).
Definition set__paused (st : State) (p : bool) : State :=
  mkState (self st) (_balances st) (_allowances st) (_totalSupply st)
    (_owner st) p (propertyId st) (tokenInfo st) (investments st)
    (investors st) (isInvestor st) (totalInvested st) (balance st).
Definition set_tokenInfo (st : State) (ti : TokenInfo.t) : State :=
  mkState (self st) (_balances st) (_allowances st) (_totalSupply st)
    (_owner st) (_paused st) (propertyId st) ti (investments st)
    (investors st) (isInvestor st) (totalInvested st) (balance st).
Definition set_investments (st : State) (i : gmap address (list Investment)) : State :=
  mkState (self st) (_balances st) (_allowances st) (_totalSupply st)
    (_owner st) (_paused st) (propertyId st) (tokenInfo st) i
    (investors st) (isInvestor st) (totalInvested st) (balance st).
Definition set_investors (st : State) (l : list address)
    (f : gmap address bool) : State :=
  mkState (self st) (_balances st) (_allowances st) (_totalSupply st)
    (_owner st) (_paused st) (propertyId st) (tokenInfo st) (investments st)
    l f (totalInvested st) (balance st).
Definition set_totalInvested (st : State) (n : N) : State :=
  mkState (self st) (_balances st) (_allowances st) (_totalSupply st)
    (_owner st) (_paused st) (propertyId st) (tokenInfo st) (investments st)
    (investors st) (isInvestor st) n (balance st).
Definition set_balance (st : State) (n : N) : State :=
  mkState (self st) (_balances st) (_allowances st) (_totalSupply st)
    (_owner st) (_paused st) (propertyId st) (tokenInfo st) (investments st)
    (investors st) (isInvestor st) (totalInvested st) n.

Definition set_availableSupply (st : State) (n : N) : State :=
  let ti := tokenInfo st in
  set_tokenInfo st
    (TokenInfo.mk (TokenInfo.totalSupply ti) n (TokenInfo.pricePerToken ti)
       (TokenInfo.isActive ti) (TokenInfo.createdAt ti)).
Definition set_pricePerToken (st : State) (n : N) : State :=
  let ti := tokenInfo st in
  set_tokenInfo st
    (TokenInfo.mk (TokenInfo.totalSupply ti) (TokenInfo.availableSupply ti) n
       (TokenInfo.isActive ti) (TokenInfo.createdAt ti)).
Definition set_isActive (st : State) (b : bool) : State :=
  let ti := tokenInfo st in
  set_tokenInfo st
    (TokenInfo.mk (TokenInfo.totalSupply ti) (TokenInfo.availableSupply ti)
       (TokenInfo.pricePerToken ti) b (TokenInfo.createdAt ti)).

(** *** ERC20 (OpenZeppelin 4.x), the inherited part

    Recent 4.x releases credit the recipient inside [unchecked]; the sum of
    all balances is [_totalSupply], which [_mint] bounds with a checked
    addition, so the checked credit written here reverts in no reachable
    state.  The token's events are not modelled: nothing reads them. *)

Definition totalSupply (st : State) : N := _totalSupply st.
Definition balanceOf (st : State) (a : address) : N := get (_balances st) a.
Definition allowance (st : State) (owner spender : address) : N :=
  get (_allowances st) (owner, spender).

Definition _transfer (st : State) (from to amount : N) : result State :=
  require (negb (from =? 0)) ERC20ZeroAddress ;;
  require (negb (to =? 0)) ERC20ZeroAddress ;;
  let fromBalance := balanceOf st from in
  require (amount <=? fromBalance) ERC20ExceedsBalance ;;
  let b := <[from := fromBalance - amount]> (_balances st) in
  toBalance ← add (get b to) amount ;
  Ok (set__balances st (<[to := toBalance]> b)).

Definition _mint (st : State) (account amount : N) : result State :=
  require (negb (account =? 0)) ERC20ZeroAddress ;;
  supply ← add (_totalSupply st) amount ;
  accountBalance ← add (balanceOf st account) amount ;
  Ok (set__balances (set__totalSupply st supply)
        (<[account := accountBalance]> (_balances st))).

Definition _approve (st : State) (owner spender amount : N) : result State :=
  require (negb (owner =? 0)) ERC20ZeroAddress ;;
  require (negb (spender =? 0)) ERC20ZeroAddress ;;
  Ok (set__allowances st (<[(owner, spender) := amount]> (_allowances st))).

Definition _spendAllowance (st : State) (owner spender amount : N)
    : result State :=
  let currentAllowance := allowance st owner spender in
  if currentAllowance =? MAX_UINT256 then Ok st
  else
    require (amount <=? currentAllowance) ERC20InsufficientAllowance ;;
    _approve st owner spender (currentAllowance - amount).

(** [payable(to).transfer(amount)] *)
Definition send (ctx : Ctx) (st : State) (to amount : N) : result State :=
  require (amount <=? balance st) TransferFailed ;;
  require (accepts ctx to) TransferFailed ;;
  Ok (if to =? self st then st else set_balance st (balance st - amount)).

(** *** Modifiers *)

Definition onlyKYCVerified (ctx : Ctx) (nft : PropertyNFT.State) : result unit :=
  require (getb (PropertyNFT.kycVerified nft) (msg_sender ctx)) KYCRequired.

Definition onlyPropertyOwner (ctx : Ctx) (nft : PropertyNFT.State) (st : State)
    : result unit :=
  property ← PropertyNFT.getProperty nft (propertyId st) ;
  require (PropertyNFT.propertyOwner property =? msg_sender ctx) NotPropertyOwner.

Definition onlyActiveToken (st : State) : result unit :=
  require (TokenInfo.isActive (tokenInfo st)) TokenNotActive.

Definition whenNotPaused (st : State) : result unit :=
  require (negb (_paused st)) Paused.

Definition whenPaused (st : State) : result unit :=
  require (_paused st) NotPaused.

Definition onlyOwner (ctx : Ctx) (st : State) : result unit :=
  require (_owner st =? msg_sender ctx) NotOwner.

(** *** Constructor and entry points *)

Definition constructor (ctx : Ctx) (this _propertyId _totalSupply _pricePerToken : N)
    : result State :=
  let st :=
    mkState this ∅ ∅ 0 (msg_sender ctx) false _propertyId
      (TokenInfo.mk _totalSupply _totalSupply _pricePerToken true
         (block_timestamp ctx))
      ∅ [] ∅ 0 0 in
  _mint st this _totalSupply.

Definition purchaseTokens (ctx : Ctx) (nft : PropertyNFT.State) (st : State)
    (value tokenAmount : N) : result (PropertyNFT.State * State) :=
  let st := set_balance st (balance st + value) in
  onlyKYCVerified ctx nft ;;
  onlyActiveToken st ;;
  whenNotPaused st ;;
  require (0 <? tokenAmount) ZeroTokenAmount ;;
  require (tokenAmount <=? TokenInfo.availableSupply (tokenInfo st))
    NotEnoughTokens ;;
  totalCost ← mul tokenAmount (TokenInfo.pricePerToken (tokenInfo st)) ;
  require (totalCost <=? value) InsufficientPayment ;;
  available ← sub (TokenInfo.availableSupply (tokenInfo st)) tokenAmount ;
  let st := set_availableSupply st available in
  st ← _transfer st (self st) (msg_sender ctx) tokenAmount ;
  let st :=
    set_investments st
      (<[msg_sender ctx :=
           default [] (investments st !! msg_sender ctx) ++
           [mkInvestment (msg_sender ctx) tokenAmount (block_timestamp ctx)
              (TokenInfo.pricePerToken (tokenInfo st))]]> (investments st)) in
  let st :=
    if negb (getb (isInvestor st) (msg_sender ctx))
    then set_investors st (investors st ++ [msg_sender ctx])
           (<[msg_sender ctx := true]> (isInvestor st))
    else st in
  invested ← add (totalInvested st) totalCost ;
  let st := set_totalInvested st invested in
  nft ← PropertyNFT.updateAvailableTokens (self st) nft (propertyId st)
          (TokenInfo.availableSupply (tokenInfo st)) ;
  st ← (if totalCost <? value
        then refund ← sub value totalCost ; send ctx st (msg_sender ctx) refund
        else Ok st) ;
  Ok (nft, st).

Definition sellTokens (ctx : Ctx) (nft : PropertyNFT.State) (st : State)
    (tokenAmount : N) : result (PropertyNFT.State * State) :=
  onlyKYCVerified ctx nft ;;
  whenNotPaused st ;;
  require (0 <? tokenAmount) ZeroTokenAmount ;;
  require (tokenAmount <=? balanceOf st (msg_sender ctx))
    InsufficientTokenBalance ;;
  totalReceived ← mul tokenAmount (TokenInfo.pricePerToken (tokenInfo st)) ;
  require (totalReceived <=? balance st) InsufficientContractBalance ;;
  st ← _transfer st (msg_sender ctx) (self st) tokenAmount ;
  available ← add (TokenInfo.availableSupply (tokenInfo st)) tokenAmount ;
  let st := set_availableSupply st available in
  st ← send ctx st (msg_sender ctx) totalReceived ;
  nft ← PropertyNFT.updateAvailableTokens (self st) nft (propertyId st)
          (TokenInfo.availableSupply (tokenInfo st)) ;
  Ok (nft, st).

Definition updatePrice (ctx : Ctx) (nft : PropertyNFT.State) (st : State)
    (newPrice : N) : result (PropertyNFT.State * State) :=
  onlyPropertyOwner ctx nft st ;;
  require (0 <? newPrice) ZeroPrice ;;
  let st := set_pricePerToken st newPrice in
  property ← PropertyNFT.getProperty nft (propertyId st) ;
  nft ← PropertyNFT.updateProperty (self st) nft (propertyId st)
          (PropertyNFT.totalValue property) newPrice ;
  Ok (nft, st).

Definition setTokenStatus (ctx : Ctx) (nft : PropertyNFT.State) (st : State)
    (isActive : bool) : result State :=
  onlyPropertyOwner ctx nft st ;;
  Ok (set_isActive st isActive).

Definition withdrawBalance (ctx : Ctx) (nft : PropertyNFT.State) (st : State)
    : result State :=
  onlyPropertyOwner ctx nft st ;;
  require (0 <? balance st) NoBalanceToWithdraw ;;
  send ctx st (msg_sender ctx) (balance st).

Definition emergencyWithdraw (ctx : Ctx) (st : State) : result State :=
  onlyOwner ctx st ;;
  require (0 <? balance st) NoBalanceToWithdraw ;;
  send ctx st (_owner st) (balance st).

Definition transfer (ctx : Ctx) (nft : PropertyNFT.State) (st : State)
    (to amount : N) : result State :=
  onlyKYCVerified ctx nft ;;
  require (getb (PropertyNFT.kycVerified nft) to) RecipientNotKYC ;;
  _transfer st (msg_sender ctx) to amount.

Definition transferFrom (ctx : Ctx) (nft : PropertyNFT.State) (st : State)
    (from to amount : N) : result State :=
  onlyKYCVerified ctx nft ;;
  require (getb (PropertyNFT.kycVerified nft) to) RecipientNotKYC ;;
  st ← _spendAllowance st from (msg_sender ctx) amount ;
  _transfer st from to amount.

Definition approve (ctx : Ctx) (st : State) (spender amount : N) : result State :=
  _approve st (msg_sender ctx) spender amount.

Definition increaseAllowance (ctx : Ctx) (st : State) (spender addedValue : N)
    : result State :=
  a ← add (allowance st (msg_sender ctx) spender) addedValue ;
  _approve st (msg_sender ctx) spender a.

Definition decreaseAllowance (ctx : Ctx) (st : State)
    (spender subtractedValue : N) : result State :=
  let currentAllowance := allowance st (msg_sender ctx) spender in
  require (subtractedValue <=? currentAllowance) ERC20AllowanceBelowZero ;;
  _approve st (msg_sender ctx) spender (currentAllowance - subtractedValue).

Definition pause (ctx : Ctx) (st : State) : result State :=
  onlyOwner ctx st ;;
  whenNotPaused st ;;
  Ok (set__paused st true).

Definition unpause (ctx : Ctx) (st : State) : result State :=
  onlyOwner ctx st ;;
  whenPaused st ;;
  Ok (set__paused st false).

Definition transferOwnership (ctx : Ctx) (st : State) (newOwner : address)
    : result State :=
  onlyOwner ctx st ;;
  require (negb (newOwner =? 0)) NewOwnerZero ;;
  Ok (set__owner st newOwner).

Definition renounceOwnership (ctx : Ctx) (st : State) : result State :=
  onlyOwner ctx st ;;
  Ok (set__owner st 0).

(** [receive()] and [fallback()], both payable with an empty body. *)
Definition receive (st : State) (value : N) : result State :=
  Ok (set_balance st (balance st + value)).

(** *** Read-only queries *)

Definition getInvestorCount (st : State) : N := N.of_nat (length (investors st)).
Definition getInvestors (st : State) : list address := investors st.
Definition getInvestmentHistory (st : State) (a : address) : list Investment :=
  default [] (investments st !! a).

Definition getOwnershipPercentage (st : State) (a : address) : result N :=
  let investorBalance := balanceOf st a in
  if (investorBalance =? 0) || (TokenInfo.totalSupply (tokenInfo st) =? 0)
  then Ok 0
  else
    scaled ← mul investorBalance 10000 ;
    div scaled (TokenInfo.totalSupply (tokenInfo st)).

(** *** Transactions *)

Inductive Call :=
| call_purchaseTokens (value tokenAmount : N)
| call_sellTokens (tokenAmount : N)
| call_updatePrice (newPrice : N)
| call_setTokenStatus (isActive : bool)
| call_withdrawBalance
| call_emergencyWithdraw
| call_transfer (to amount : N)
| call_transferFrom (from to amount : N)
| call_approve (spender amount : N)
| call_increaseAllowance (spender addedValue : N)
| call_decreaseAllowance (spender subtractedValue : N)
| call_pause
| call_unpause
| call_transferOwnership (newOwner : address)
| call_renounceOwnership
| call_receive (value : N).

Definition keep (nft : PropertyNFT.State) (r : result State)
    : result (PropertyNFT.State * State) :=
  st ← r ; Ok (nft, st).

Definition exec (ctx : Ctx) (nft : PropertyNFT.State) (st : State) (c : Call)
    : result (PropertyNFT.State * State) :=
  match c with
  | call_purchaseTokens value tokenAmount =>
      purchaseTokens ctx nft st value tokenAmount
  | call_sellTokens tokenAmount => sellTokens ctx nft st tokenAmount
  | call_updatePrice newPrice => updatePrice ctx nft st newPrice
  | call_setTokenStatus b => keep nft (setTokenStatus ctx nft st b)
  | call_withdrawBalance => keep nft (withdrawBalance ctx nft st)
  | call_emergencyWithdraw => keep nft (emergencyWithdraw ctx st)
  | call_transfer to amount => keep nft (transfer ctx nft st to amount)
  | call_transferFrom from to amount =>
      keep nft (transferFrom ctx nft st from to amount)
  | call_approve spender amount => keep nft (approve ctx st spender amount)
  | call_increaseAllowance spender v =>
      keep nft (increaseAllowance ctx st spender v)
  | call_decreaseAllowance spender v =>
      keep nft (decreaseAllowance ctx st spender v)
  | call_pause => keep nft (pause ctx st)
  | call_unpause => keep nft (unpause ctx st)
  | call_transferOwnership newOwner =>
      keep nft (transferOwnership ctx st newOwner)
  | call_renounceOwnership => keep nft (renounceOwnership ctx st)
  | call_receive value => keep nft (receive st value)
  end.

(** The state after a transaction: a revert rolls everything back. *)
Definition run (ctx : Ctx) (nft : PropertyNFT.State) (st : State) (c : Call)
    : State :=
  match exec ctx nft st c with
  | Ok (_, st') => st'
  | Revert _ => st
  end.

(** States the contract can be in.  The contract makes no external call to
    itself, so [msg.sender] is never [address(this)]; the collaborator's
    state is arbitrary at every call, subject to [admissible]. *)
Inductive reachable (admissible : PropertyNFT.State -> address -> Prop)
    : State -> Prop :=
| reachable_init ctx this pid supply price st :
    constructor ctx this pid supply price = Ok st ->
    reachable admissible st
| reachable_step ctx nft st c nft' st' :
    reachable admissible st ->
    msg_sender ctx <> self st ->
    admissible nft (self st) ->
    exec ctx nft st c = Ok (nft', st') ->
    reachable admissible st'.

(** Shares held by investors: every balance but the contract's own. *)
Definition holderShares (st : State) : N :=
  sumMap (delete (self st) (_balances st)).

(** What every reachable token state satisfies. *)
Record Inv (st : State) : Prop := mkInv {
  inv_self : self st <> 0;
  inv_sum : sumMap (_balances st) = _totalSupply st;
  inv_total : TokenInfo.totalSupply (tokenInfo st) = _totalSupply st;
  inv_avail : TokenInfo.availableSupply (tokenInfo st) <= balanceOf st (self st);
  inv_allowance : forall spender, allowance st (self st) spender = 0;
  inv_nodup : NoDup (investors st);
  inv_registry : forall a, getb (isInvestor st) a = true <-> a ∈ investors st
}.

(** The treasury is in step: the contract holds exactly the unsold shares. *)
Definition InStep (st : State) : Prop :=
  balanceOf st (self st) = TokenInfo.availableSupply (tokenInfo st).

(** The compliance gate keeps the contract's own address out: it is not a
    KYC-verified party, so no transfer can name it as recipient. *)
Definition treasuryNotApproved (nft : PropertyNFT.State) (this : address) : Prop :=
  getb (PropertyNFT.kycVerified nft) this = false.

(** Conservation of share supply, as the ledger states it. *)
Definition Conserved (st : State) : Prop :=
  holderShares st + TokenInfo.availableSupply (tokenInfo st)
  = TokenInfo.totalSupply (tokenInfo st).

End FractionalToken.

(** ** RentDistribution *)
Module RentDistribution.

Module Distribution.
Record t := mk {
  propertyId : N;
  fractionalTokenAddress : address;
  totalRentCollected : N;
  distributionDate : N;
  totalTokensAtDistribution : N;
  isCompleted : bool;
  investorDistributions : gmap address N;
  claimed : gmap address bool;
  investors : list address;
  totalDistributed : N;
  platformFee : N;
  propertyOwnerFee : N
}.

(** An untouched slot of [mapping(uint256 => Distribution)]. *)
Definition empty : t := mk 0 0 0 0 0 false ∅ ∅ [] 0 0 0.

Definition set_isCompleted (d : t) (b : bool) : t :=
  mk (propertyId d) (fractionalTokenAddress d) (totalRentCollected d)
    (distributionDate d) (totalTokensAtDistribution d) b
    (investorDistributions d) (claimed d) (investors d)
    (totalDistributed d) (platformFee d) (propertyOwnerFee d).

(** [claimed[a] = true; totalDistributed = n] *)
Definition set_claimed (d : t) (a : address) (n : N) : t :=
  mk (propertyId d) (fractionalTokenAddress d) (totalRentCollected d)
    (distributionDate d) (totalTokensAtDistribution d) (isCompleted d)
    (investorDistributions d) (<[a := true]> (claimed d)) (investors d)
    n (platformFee d) (propertyOwnerFee d).
End Distribution.

Inductive Event :=
| RentDeposited (propertyId amount : N) (depositor : address)
| DistributionCreated (distributionId propertyId totalAmount investorCount : N)
| RentDistributed (distributionId : N) (investor : address) (amount : N)
| DistributionCompleted (distributionId totalDistributed : N)
| FeesUpdated (platformFeePercentage managementFeePercentage : N).

Record State := mkState {
  self : address;                          (* address(this) *)
  _owner : address;                        (* Ownable *)
  _paused : bool;                          (* Pausable *)
  distributions : gmap N Distribution.t;
  distributionCounter : N;
  platformFeePercentage : N;
  managementFeePercentage : N;
  propertyToToken : gmap N address;
  totalRentCollected : gmap N N;
  balance : N;                             (* address(this).balance *)
  events : list Event                      (* emitted so far, oldest first *)
}.

Definition set__owner (st : State) (o : address) : State :=
  mkState (self st) o (_paused st) (distributions st) (distributionCounter st)
    (platformFeePercentage st) (managementFeePercentage st)
    (propertyToToken st) (totalRentCollected st) (balance st) (events st).
Definition set__paused (st : State) (p : bool) : State :=
  mkState (self st) (_owner st) p (distributions st) (distributionCounter st)
    (platformFeePercentage st) (managementFeePercentage st)
    (propertyToToken st) (totalRentCollected st) (balance st) (events st).
Definition set_distributions (st : State) (ds : gmap N Distribution.t) : State :=
  mkState (self st) (_owner st) (_paused st) ds (distributionCounter st)
    (platformFeePercentage st) (managementFeePercentage st)
    (propertyToToken st) (totalRentCollected st) (balance st) (events st).
Definition set_distributionCounter (st : State) (n : N) : State :=
  mkState (self st) (_owner st) (_paused st) (distributions st) n
    (platformFeePercentage st) (managementFeePercentage st)
    (propertyToToken st) (totalRentCollected st) (balance st) (events st).
Definition set_fees (st : State) (p m : N) : State :=
  mkState (self st) (_owner st) (_paused st) (distributions st)
    (distributionCounter st) p m
    (propertyToToken st) (totalRentCollected st) (balance st) (events st).
Definition set_propertyToToken (st : State) (m : gmap N address) : State :=
  mkState (self st) (_owner st) (_paused st) (distributions st)
    (distributionCounter st) (platformFeePercentage st)
    (managementFeePercentage st) m (totalRentCollected st) (balance st)
    (events st).
Definition set_totalRentCollected (st : State) (m : gmap N N) : State :=
  mkState (self st) (_owner st) (_paused st) (distributions st)
    (distributionCounter st) (platformFeePercentage st)
    (managementFeePercentage st) (propertyToToken st) m (balance st)
    (events st).
Definition set_balance (st : State) (n : N) : State :=
  mkState (self st) (_owner st) (_paused st) (distributions st)
    (distributionCounter st) (platformFeePercentage st)
    (managementFeePercentage st) (propertyToToken st) (totalRentCollected st)
    n (events st).
Definition emit (st : State) (e : Event) : State :=
  mkState (self st) (_owner st) (_paused st) (distributions st)
    (distributionCounter st) (platformFeePercentage st)
    (managementFeePercentage st) (propertyToToken st) (totalRentCollected st)
    (balance st) (events st ++ [e]).

(** [distributions[distributionId]] *)
Definition distribution (st : State) (distributionId : N) : Distribution.t :=
  default Distribution.empty (distributions st !! distributionId).

Definition set_distribution (st : State) (distributionId : N)
    (d : Distribution.t) : State :=
  set_distributions st (<[distributionId := d]> (distributions st)).

(** The other contracts as a transaction of this one sees them: the
    PropertyNFT, and the FractionalToken deployed at an address, if any. *)
Record World := mkWorld {
  nft : PropertyNFT.State;
  tokenAt : address -> option FractionalToken.State
}.

(** [payable(to).transfer(amount)] *)
Definition send (ctx : Ctx) (st : State) (to amount : N) : result State :=
  require (amount <=? balance st) TransferFailed ;;
  require (accepts ctx to) TransferFailed ;;
  Ok (if to =? self st then st else set_balance st (balance st - amount)).

(** *** Modifiers *)

Definition onlyPropertyOwner (ctx : Ctx) (w : World) (propertyId : N)
    : result unit :=
  property ← PropertyNFT.getProperty (nft w) propertyId ;
  require (PropertyNFT.propertyOwner property =? msg_sender ctx) NotPropertyOwner.

Definition whenNotPaused (st : State) : result unit :=
  require (negb (_paused st)) Paused.

Definition whenPaused (st : State) : result unit :=
  require (_paused st) NotPaused.

Definition onlyOwner (ctx : Ctx) (st : State) : result unit :=
  require (_owner st =? msg_sender ctx) NotOwner.

(** *** Constructor and entry points *)

Definition constructor (ctx : Ctx) (this : address) : State :=
  mkState this (msg_sender ctx) false ∅ 0 250 500 ∅ ∅ 0 [].

Definition registerFractionalToken (ctx : Ctx) (st : State)
    (propertyId : N) (tokenAddress : address) : result State :=
  onlyOwner ctx st ;;
  require (negb (tokenAddress =? 0)) InvalidTokenAddress ;;
  Ok (set_propertyToToken st (<[propertyId := tokenAddress]> (propertyToToken st))).

Definition depositRent (ctx : Ctx) (w : World) (st : State)
    (value propertyId : N) : result State :=
  let st := set_balance st (balance st + value) in
  onlyPropertyOwner ctx w propertyId ;;
  whenNotPaused st ;;
  require (0 <? value) ZeroRentAmount ;;
  require (negb (get (propertyToToken st) propertyId =? 0)) TokenNotRegistered ;;
  collected ← add (get (totalRentCollected st) propertyId) value ;
  let st := set_totalRentCollected st
              (<[propertyId := collected]> (totalRentCollected st)) in
  Ok (emit st (RentDeposited propertyId value (msg_sender ctx))).

(** The allocation loop of [createDistribution]: one pass over the
    investor array, writing [investorDistributions[investor]] for every
    investor with a positive balance. *)
Fixpoint allocate (token : FractionalToken.State)
    (distributionAmount totalTokens : N) (investors : list address)
    (investorDistributions : gmap address N) : result (gmap address N) :=
  match investors with
  | [] => Ok investorDistributions
  | investor :: rest =>
      let investorBalance := FractionalToken.balanceOf token investor in
      if 0 <? investorBalance then
        scaled ← mul distributionAmount investorBalance ;
        investorShare ← div scaled totalTokens ;
        allocate token distributionAmount totalTokens rest
          (<[investor := investorShare]> investorDistributions)
      else
        allocate token distributionAmount totalTokens rest investorDistributions
  end.

Definition createDistribution (ctx : Ctx) (w : World) (st : State)
    (propertyId rentAmount : N) : result State :=
  onlyPropertyOwner ctx w propertyId ;;
  whenNotPaused st ;;
  require (0 <? rentAmount) ZeroRentAmount ;;
  require (rentAmount <=? balance st) InsufficientContractBalance ;;
  require (negb (get (propertyToToken st) propertyId =? 0)) TokenNotRegistered ;;
  let tokenAddress := get (propertyToToken st) propertyId in
  scaledPlatform ← mul rentAmount (platformFeePercentage st) ;
  platformFee ← div scaledPlatform 10000 ;
  scaledManagement ← mul rentAmount (managementFeePercentage st) ;
  managementFee ← div scaledManagement 10000 ;
  afterPlatform ← sub rentAmount platformFee ;
  distributionAmount ← sub afterPlatform managementFee ;
  let distributionId := distributionCounter st in
  counter ← add (distributionCounter st) 1 ;
  let st := set_distributionCounter st counter in
  let d := distribution st distributionId in
  fractionalToken ← (match tokenAt w tokenAddress with
                     | Some token => Ok token
                     | None => Revert CallFailed
                     end) ;
  let totalTokens := FractionalToken.totalSupply fractionalToken in
  let investors := FractionalToken.getInvestors fractionalToken in
  allocations ← allocate fractionalToken distributionAmount totalTokens
                  investors (Distribution.investorDistributions d) ;
  let d :=
    Distribution.mk propertyId tokenAddress rentAmount (block_timestamp ctx)
      totalTokens false allocations (Distribution.claimed d) investors
      (Distribution.totalDistributed d) platformFee managementFee in
  let st := set_distribution st distributionId d in
  st ← (if 0 <? platformFee then send ctx st (_owner st) platformFee
        else Ok st) ;
  property ← PropertyNFT.getProperty (nft w) propertyId ;
  st ← (if 0 <? managementFee
        then send ctx st (PropertyNFT.propertyOwner property) managementFee
        else Ok st) ;
  Ok (emit st (DistributionCreated distributionId propertyId
                 distributionAmount (N.of_nat (length investors)))).

(** The scan of [_checkDistributionCompletion], with its [break]. *)
Fixpoint allClaimed (d : Distribution.t) (investors : list address) : bool :=
  match investors with
  | [] => true
  | investor :: rest =>
      if (0 <? get (Distribution.investorDistributions d) investor)
         && negb (getb (Distribution.claimed d) investor)
      then false
      else allClaimed d rest
  end.

Definition _checkDistributionCompletion (st : State) (distributionId : N)
    : State :=
  let d := distribution st distributionId in
  if allClaimed d (Distribution.investors d)
     && negb (Distribution.isCompleted d)
  then
    emit (set_distribution st distributionId
            (Distribution.set_isCompleted d true))
      (DistributionCompleted distributionId (Distribution.totalDistributed d))
  else st.

Definition claimDistribution (ctx : Ctx) (st : State) (distributionId : N)
    : result State :=
  whenNotPaused st ;;
  let d := distribution st distributionId in
  require (negb (Distribution.isCompleted d)) AlreadyCompleted ;;
  require (negb (getb (Distribution.claimed d) (msg_sender ctx))) AlreadyClaimed ;;
  let amount := get (Distribution.investorDistributions d) (msg_sender ctx) in
  require (0 <? amount) NoAllocation ;;
  distributed ← add (Distribution.totalDistributed d) amount ;
  let st := set_distribution st distributionId
              (Distribution.set_claimed d (msg_sender ctx) distributed) in
  st ← send ctx st (msg_sender ctx) amount ;
  let st := emit st (RentDistributed distributionId (msg_sender ctx) amount) in
  Ok (_checkDistributionCompletion st distributionId).

(** The payout loop of [batchDistribute] over the stored investor array. *)
Fixpoint batchLoop (ctx : Ctx) (distributionId : N) (investors : list address)
    (st : State) : result State :=
  match investors with
  | [] => Ok st
  | investor :: rest =>
      let d := distribution st distributionId in
      if negb (getb (Distribution.claimed d) investor) then
        let amount := get (Distribution.investorDistributions d) investor in
        if 0 <? amount then
          distributed ← add (Distribution.totalDistributed d) amount ;
          let st := set_distribution st distributionId
                      (Distribution.set_claimed d investor distributed) in
          st ← send ctx st investor amount ;
          let st := emit st (RentDistributed distributionId investor amount) in
          batchLoop ctx distributionId rest st
        else batchLoop ctx distributionId rest st
      else batchLoop ctx distributionId rest st
  end.

Definition batchDistribute (ctx : Ctx) (st : State) (distributionId : N)
    : result State :=
  onlyOwner ctx st ;;
  whenNotPaused st ;;
  let d := distribution st distributionId in
  require (negb (Distribution.isCompleted d)) AlreadyCompleted ;;
  st ← batchLoop ctx distributionId (Distribution.investors d) st ;
  Ok (_checkDistributionCompletion st distributionId).

Definition updateFees (ctx : Ctx) (st : State)
    (_platformFeePercentage _managementFeePercentage : N) : result State :=
  onlyOwner ctx st ;;
  require (_platformFeePercentage <=? 1000) PlatformFeeTooHigh ;;
  require (_managementFeePercentage <=? 2000) ManagementFeeTooHigh ;;
  Ok (emit (set_fees st _platformFeePercentage _managementFeePercentage)
        (FeesUpdated _platformFeePercentage _managementFeePercentage)).

Definition emergencyWithdraw (ctx : Ctx) (st : State) : result State :=
  onlyOwner ctx st ;;
  require (0 <? balance st) NoBalanceToWithdraw ;;
  send ctx st (_owner st) (balance st).

Definition pause (ctx : Ctx) (st : State) : result State :=
  onlyOwner ctx st ;;
  whenNotPaused st ;;
  Ok (set__paused st true).

Definition unpause (ctx : Ctx) (st : State) : result State :=
  onlyOwner ctx st ;;
  whenPaused st ;;
  Ok (set__paused st false).

Definition transferOwnership (ctx : Ctx) (st : State) (newOwner : address)
    : result State :=
  onlyOwner ctx st ;;
  require (negb (newOwner =? 0)) NewOwnerZero ;;
  Ok (set__owner st newOwner).

Definition renounceOwnership (ctx : Ctx) (st : State) : result State :=
  onlyOwner ctx st ;;
  Ok (set__owner st 0).

(** [receive()], payable with an empty body. *)
Definition receive (st : State) (value : N) : result State :=
  Ok (set_balance st (balance st + value)).

(** *** Read-only queries *)

Definition getInvestorDistribution (st : State) (distributionId : N)
    (investor : address) : N * bool :=
  let d := distribution st distributionId in
  (get (Distribution.investorDistributions d) investor,
   getb (Distribution.claimed d) investor).

Definition getDistributionInvestors (st : State) (distributionId : N)
    : list address :=
  Distribution.investors (distribution st distributionId).

(** *** Transactions *)

Inductive Call :=
| call_registerFractionalToken (propertyId : N) (tokenAddress : address)
| call_depositRent (value propertyId : N)
| call_createDistribution (propertyId rentAmount : N)
| call_claimDistribution (distributionId : N)
| call_batchDistribute (distributionId : N)
| call_updateFees (_platformFeePercentage _managementFeePercentage : N)
| call_emergencyWithdraw
| call_pause
| call_unpause
| call_transferOwnership (newOwner : address)
| call_renounceOwnership
| call_receive (value : N).

Definition exec (ctx : Ctx) (w : World) (st : State) (c : Call) : result State :=
  match c with
  | call_registerFractionalToken propertyId tokenAddress =>
      registerFractionalToken ctx st propertyId tokenAddress
  | call_depositRent value propertyId => depositRent ctx w st value propertyId
  | call_createDistribution propertyId rentAmount =>
      createDistribution ctx w st propertyId rentAmount
  | call_claimDistribution distributionId =>
      claimDistribution ctx st distributionId
  | call_batchDistribute distributionId =>
      batchDistribute ctx st distributionId
  | call_updateFees p m => updateFees ctx st p m
  | call_emergencyWithdraw => emergencyWithdraw ctx st
  | call_pause => pause ctx st
  | call_unpause => unpause ctx st
  | call_transferOwnership newOwner => transferOwnership ctx st newOwner
  | call_renounceOwnership => renounceOwnership ctx st
  | call_receive value => receive st value
  end.

(** The state after a transaction: a revert rolls everything back. *)
Definition run (ctx : Ctx) (w : World) (st : State) (c : Call) : State :=
  match exec ctx w st c with
  | Ok st' => st'
  | Revert _ => st
  end.

(** A world is sound when every FractionalToken deployed in it is in a
    state that contract can reach. *)
Definition sound (w : World) : Prop :=
  forall a token, tokenAt w a = Some token ->
    FractionalToken.reachable (fun _ _ => True) token.

Inductive reachable : State -> Prop :=
| reachable_init ctx this : reachable (constructor ctx this)
| reachable_step ctx w st c st' :
    reachable st ->
    sound w ->
    exec ctx w st c = Ok st' ->
    reachable st'.

(** Any number of later transactions. *)
Inductive steps : State -> State -> Prop :=
| steps_refl st : steps st st
| steps_step ctx w st st' c st'' :
    steps st st' -> exec ctx w st' c = Ok st'' -> steps st st''.

(** *** Quantities the specification talks about *)

(** [netAmount]: the [distributionAmount] of [createDistribution], which the
    contract does not store but which the stored fields determine. *)
Definition netAmount (d : Distribution.t) : N :=
  Distribution.totalRentCollected d - Distribution.platformFee d
  - Distribution.propertyOwnerFee d.

(** [sum(perHolderAllocation)] *)
Definition allocated (d : Distribution.t) : N :=
  sumMap (Distribution.investorDistributions d).

Definition dust (d : Distribution.t) : N := netAmount d - allocated d.

(** Number of holders with allocation > 0. *)
Definition nonzeroAllocations (d : Distribution.t) : N :=
  map_fold (fun _ v acc => if 0 <? v then 1 + acc else acc) 0
    (Distribution.investorDistributions d).

(** Number of holders [createDistribution] wrote an allocation for, zero or
    not: the registered investors with a positive balance. *)
Definition allocationEntries (d : Distribution.t) : N :=
  N.of_nat (size (Distribution.investorDistributions d)).

(** Every share is in the hands of a registered investor: nothing is unsold
    and nothing was transferred to an address outside the investor list. *)
Definition fullySubscribed (token : FractionalToken.State) : Prop :=
  0 < FractionalToken.totalSupply token /\
  forall a, 0 < FractionalToken.balanceOf token a ->
    a ∈ FractionalToken.investors token.

(** How many times [investor] was paid out of [distributionId]: every
    payout is announced by one [RentDistributed]. *)
Definition isPayout (distributionId : N) (investor : address) (e : Event) : bool :=
  match e with
  | RentDistributed i a _ => (i =? distributionId) && (a =? investor)
  | _ => false
  end.

Fixpoint countPayouts (distributionId : N) (investor : address)
    (log : list Event) : N :=
  match log with
  | [] => 0
  | e :: rest =>
      (if isPayout distributionId investor e then 1 else 0)
      + countPayouts distributionId investor rest
  end.

Definition paidCount (st : State) (distributionId : N) (investor : address) : N :=
  countPayouts distributionId investor (events st).

Definition hasClaimed (st : State) (distributionId : N) (investor : address) : bool :=
  getb (Distribution.claimed (distribution st distributionId)) investor.

Definition allocationOf (st : State) (distributionId : N) (investor : address) : N :=
  get (Distribution.investorDistributions (distribution st distributionId)) investor.

Definition isCompleted (st : State) (distributionId : N) : bool :=
  Distribution.isCompleted (distribution st distributionId).

(** [batchDistribute] as the specification words it: a bounded slice
    [offset, offset + limit) of the investor list, then the completion
    check.  The contract has no such parameters; this definition exists to
    be compared with [batchDistribute]. *)
Definition spec_batchDistribute (ctx : Ctx) (st : State)
    (distributionId offset limit : N) : result State :=
  onlyOwner ctx st ;;
  whenNotPaused st ;;
  let d := distribution st distributionId in
  require (negb (Distribution.isCompleted d)) AlreadyCompleted ;;
  st ← batchLoop ctx distributionId
         (take (N.to_nat limit) (drop (N.to_nat offset) (Distribution.investors d)))
         st ;
  Ok (_checkDistributionCompletion st distributionId).

(** What every reachable state satisfies. *)
Record Inv (st : State) : Prop := mkInv {
  inv_fresh : forall id, distributionCounter st <= id ->
    Distribution.investorDistributions (distribution st id) = ∅ /\
    Distribution.claimed (distribution st id) = ∅ /\
    netAmount (distribution st id) = 0;
  inv_listed : forall id h, 0 < allocationOf st id h ->
    h ∈ Distribution.investors (distribution st id);
  inv_allocated : forall id,
    allocated (distribution st id) <= netAmount (distribution st id);
  inv_paid : forall id h,
    paidCount st id h = if hasClaimed st id h then 1 else 0
}.

(** Two states that agree on what the invariant reads. *)
Definition sameLedger (st st' : State) : Prop :=
  distributionCounter st' = distributionCounter st /\
  (forall id h, paidCount st' id h = paidCount st id h) /\
  forall id,
    let d := distribution st id in
    let d' := distribution st' id in
    Distribution.investorDistributions d' = Distribution.investorDistributions d /\
    Distribution.claimed d' = Distribution.claimed d /\
    Distribution.investors d' = Distribution.investors d /\
    netAmount d' = netAmount d.

(** One payout, as [claimDistribution] and the body of the loop of
    [batchDistribute] perform it. *)
Definition paid (st : State) (id : N) (h : address) (bal : N) : State :=
  let d := distribution st id in
  let amount := get (Distribution.investorDistributions d) h in
  emit (set_balance
          (set_distribution st id
             (Distribution.set_claimed d h (Distribution.totalDistributed d + amount)))
          bal)
    (RentDistributed id h amount).

(** [d'] is [d] up to the claim bookkeeping. *)
Definition sameTerms (d d' : Distribution.t) : Prop :=
  Distribution.propertyId d' = Distribution.propertyId d /\
  Distribution.fractionalTokenAddress d' = Distribution.fractionalTokenAddress d /\
  Distribution.totalRentCollected d' = Distribution.totalRentCollected d /\
  Distribution.distributionDate d' = Distribution.distributionDate d /\
  Distribution.totalTokensAtDistribution d' = Distribution.totalTokensAtDistribution d /\
  Distribution.investorDistributions d' = Distribution.investorDistributions d /\
  Distribution.investors d' = Distribution.investors d /\
  Distribution.platformFee d' = Distribution.platformFee d /\
  Distribution.propertyOwnerFee d' = Distribution.propertyOwnerFee d.

End RentDistribution.

(** ** Concrete deployments used by the worked scenarios *)
Module Scenario.

Definition alice : address := 1.
Definition bob : address := 2.
Definition carol : address := 3.
Definition operator : address := 9.       (* owner of RentDistribution *)
Definition manager : address := 50.       (* propertyOwner of property 7 *)
Definition tokenAddress : address := 100. (* the FractionalToken *)
Definition rentAddress : address := 200.  (* the RentDistribution *)

Definition asUser (a : address) : Ctx := mkCtx a 0 (fun _ => true).

(** Property 7 is minted to [manager]; [alice] and [bob] are KYC-verified;
    the token contract owns the PropertyNFT, as [updateAvailableTokens]
    demands of its caller. *)
Definition registry (kyc : gmap address bool) : PropertyNFT.State :=
  PropertyNFT.mkState tokenAddress false {[7 := manager]}
    {[7 := PropertyNFT.mkPropertyInfo 1000 1000 1000 1 manager true 0]} kyc.

Definition nft : PropertyNFT.State :=
  registry {[alice := true; bob := true]}.

(** The same registry after the operator also KYC-verified the token
    contract's own address. *)
Definition nftTreasuryApproved : PropertyNFT.State :=
  registry {[alice := true; bob := true; tokenAddress := true]}.

(** 1000 shares at price 1, freshly deployed by [manager]. *)
Definition tokenDeployed : FractionalToken.State :=
  FractionalToken.mkState tokenAddress {[tokenAddress := 1000]} ∅ 1000 manager
    false 7 (FractionalToken.TokenInfo.mk 1000 1000 1 true 0) ∅ [] ∅ 0 0.

(** [alice] buys 600 shares, then [bob] buys 400. *)
Definition tokenAlice : FractionalToken.State :=
  FractionalToken.run (asUser alice) nft tokenDeployed
    (FractionalToken.call_purchaseTokens 600 600).
Definition tokenSold : FractionalToken.State :=
  FractionalToken.run (asUser bob) nft tokenAlice
    (FractionalToken.call_purchaseTokens 400 400).

(** [alice] sends 100 of her shares to the token contract itself. *)
Definition tokenStranded : FractionalToken.State :=
  FractionalToken.run (asUser alice) nftTreasuryApproved tokenAlice
    (FractionalToken.call_transfer tokenAddress 100).

(** The rent contract sees the registry and the fully sold token. *)
Definition world : RentDistribution.World :=
  RentDistribution.mkWorld nft
    (fun a => if a =? tokenAddress then Some tokenSold else None).

(** Deployment by [operator], registration of the token for property 7, a
    deposit of 1000 by [manager], the distribution of those 1000, and the two
    claims. *)
Definition rentDeployed : RentDistribution.State :=
  RentDistribution.constructor (asUser operator) rentAddress.
Definition rentRegistered : RentDistribution.State :=
  RentDistribution.run (asUser operator) world rentDeployed
    (RentDistribution.call_registerFractionalToken 7 tokenAddress).
Definition rentDeposited : RentDistribution.State :=
  RentDistribution.run (asUser manager) world rentRegistered
    (RentDistribution.call_depositRent 1000 7).
Definition rentCreated : RentDistribution.State :=
  RentDistribution.run (asUser manager) world rentDeposited
    (RentDistribution.call_createDistribution 7 1000).
Definition rentAliceClaimed : RentDistribution.State :=
  RentDistribution.run (asUser alice) world rentCreated
    (RentDistribution.call_claimDistribution 0).
Definition rentCompleted : RentDistribution.State :=
  RentDistribution.run (asUser bob) world rentAliceClaimed
    (RentDistribution.call_claimDistribution 0).

Definition tokenInactive : FractionalToken.State :=
  FractionalToken.run (asUser manager) nft tokenAlice
    (FractionalToken.call_setTokenStatus false).

Definition rentBatched : RentDistribution.State :=
  RentDistribution.run (asUser operator) world rentCreated
    (RentDistribution.call_batchDistribute 0).

(** The same deposit distributed while only [alice]'s 600 shares are sold. *)
Definition worldPartlySold : RentDistribution.World :=
  RentDistribution.mkWorld nft
    (fun a => if a =? tokenAddress then Some tokenAlice else None).
Definition rentPartlySold : RentDistribution.State :=
  RentDistribution.run (asUser manager) worldPartlySold rentDeposited
    (RentDistribution.call_createDistribution 7 1000).

(** A distribution of a single unit over the fully sold token. *)
Definition rentTiny : RentDistribution.State :=
  RentDistribution.run (asUser manager) world rentDeposited
    (RentDistribution.call_createDistribution 7 1).

(** A second property, 8, owned by [manager2], with its own token of 500
    unsold shares; no rent is ever deposited for it. *)
Definition manager2 : address := 51.
Definition tokenAddress2 : address := 101.

Definition nftTwo : PropertyNFT.State :=
  PropertyNFT.mkState tokenAddress false {[7 := manager; 8 := manager2]}
    {[7 := PropertyNFT.mkPropertyInfo 1000 1000 1000 1 manager true 0;
      8 := PropertyNFT.mkPropertyInfo 500 500 500 1 manager2 true 0]}
    {[alice := true; bob := true]}.

Definition tokenOther : FractionalToken.State :=
  FractionalToken.mkState tokenAddress2 {[tokenAddress2 := 500]} ∅ 500 manager2
    false 8 (FractionalToken.TokenInfo.mk 500 500 1 true 0) ∅ [] ∅ 0 0.

Definition worldTwo : RentDistribution.World :=
  RentDistribution.mkWorld nftTwo
    (fun a => if a =? tokenAddress then Some tokenSold
              else if a =? tokenAddress2 then Some tokenOther else None).

Definition rentTwoRegistered : RentDistribution.State :=
  RentDistribution.run (asUser operator) worldTwo rentRegistered
    (RentDistribution.call_registerFractionalToken 8 tokenAddress2).
Definition rentTwoDeposited : RentDistribution.State :=
  RentDistribution.run (asUser manager) worldTwo rentTwoRegistered
    (RentDistribution.call_depositRent 1000 7).
Definition rentOverdrawn : RentDistribution.State :=
  RentDistribution.run (asUser manager2) worldTwo rentTwoDeposited
    (RentDistribution.call_createDistribution 8 1000).

End Scenario.

(** The values a loop counter [for (i = 0; i < n; i++)] takes. *)
Definition indices (n : N) : list N := N.of_nat <$> seq 0 (N.to_nat n).

(** ** What the token's bookkeeping is checked against *)
Module FractionalTokenAudit.
Import FractionalToken.

(** What the purchase log and the investor registry satisfy together. *)
Definition HistoryOk (st : State) : Prop :=
  (forall a, getb (isInvestor st) a = true <-> getInvestmentHistory st a <> []) /\
  (forall a r, r ∈ getInvestmentHistory st a -> investor r = a /\ 0 < amount r).

End FractionalTokenAudit.

(** ** What the rent ledger is checked against *)
Module RentDistributionAudit.
Import RentDistribution.

(** Sum of the allocations of the holders marked claimed. *)
Definition claimedSum (claimed : gmap address bool) (allocations : gmap address N) : N :=
  map_fold (fun h v acc => if getb claimed h then v + acc else acc) 0 allocations.

Definition claimedTotal (d : Distribution.t) : N :=
  claimedSum (Distribution.claimed d) (Distribution.investorDistributions d).

(** Ids announced by [DistributionCreated], oldest first. *)
Fixpoint createdIds (log : list Event) : list N :=
  match log with
  | [] => []
  | DistributionCreated id _ _ _ :: rest => id :: createdIds rest
  | _ :: rest => createdIds rest
  end.

(** Total announced by [RentDeposited] for one property. *)
Fixpoint depositedFor (propertyId : N) (log : list Event) : N :=
  match log with
  | [] => 0
  | RentDeposited p amount _ :: rest =>
      (if p =? propertyId then amount else 0) + depositedFor propertyId rest
  | _ :: rest => depositedFor propertyId rest
  end.

(** What the slots of [distributions] satisfy in every reachable state. *)
Record Slots (st : State) : Prop := mkSlots {
  slots_fresh : forall id, distributionCounter st <= id ->
    sameTerms Distribution.empty (distribution st id) /\
    Distribution.claimed (distribution st id) = ∅ /\
    Distribution.totalDistributed (distribution st id) = 0;
  slots_total : forall id,
    Distribution.totalDistributed (distribution st id)
    = claimedTotal (distribution st id);
  slots_rates : platformFeePercentage st <= 1000 /\ managementFeePercentage st <= 2000;
  slots_fees : forall id,
    10 * Distribution.platformFee (distribution st id)
      <= Distribution.totalRentCollected (distribution st id) /\
    5 * Distribution.propertyOwnerFee (distribution st id)
      <= Distribution.totalRentCollected (distribution st id)
}.

(** What the event log and the counters satisfy in every reachable state. *)
Record Journal (st : State) : Prop := mkJournal {
  journal_ids : createdIds (events st) = indices (distributionCounter st);
  journal_rent : forall pid,
    get (totalRentCollected st) pid = depositedFor pid (events st)
}.

(** Two states with the same slots up to the completed flags. *)
Definition sameSlots (st st' : State) : Prop :=
  distributionCounter st' = distributionCounter st /\
  platformFeePercentage st' = platformFeePercentage st /\
  managementFeePercentage st' = managementFeePercentage st /\
  forall id,
    sameTerms (distribution st id) (distribution st' id) /\
    Distribution.claimed (distribution st' id) = Distribution.claimed (distribution st id) /\
    Distribution.totalDistributed (distribution st' id)
    = Distribution.totalDistributed (distribution st id).

(** Two states between which nothing was created or deposited. *)
Definition sameJournal (st st' : State) : Prop :=
  distributionCounter st' = distributionCounter st /\
  totalRentCollected st' = totalRentCollected st /\
  createdIds (events st') = createdIds (events st) /\
  forall pid, depositedFor pid (events st') = depositedFor pid (events st).

(** Sum of the entries of a [mapping(address => uint256)] whose key
    satisfies [P]. *)
Definition sumWhere (P : address -> bool) (m : gmap address N) : N :=
  map_fold (fun h v acc => if P h then v + acc else acc) 0 m.

(** What the holders in [l] who have not claimed are still owed. *)
Definition owedTo (l : list address) (d : Distribution.t) : N :=
  sumWhere (fun h => negb (getb (Distribution.claimed d) h) && bool_decide (h ∈ l))
    (Distribution.investorDistributions d).

(** What a distribution still owes to its listed holders. *)
Definition outstanding (d : Distribution.t) : N :=
  owedTo (Distribution.investors d) d.

End RentDistributionAudit.

(** ** PropertyNFT: the entry points of its owner and of the property owners

    The events of PropertyNFT are not recorded: no contract reads them. *)
Module PropertyNFTAdmin.
Import PropertyNFT.

Definition set_kycVerified (st : State) (k : gmap address bool) : State :=
  mkState (_owner st) (_paused st) (_owners st) (properties st) k.
Definition set__paused (st : State) (p : bool) : State :=
  mkState (_owner st) p (_owners st) (properties st) (kycVerified st).

Definition setPropertyStatus (sender : address) (st : State)
    (tokenId : N) (isActive : bool) : result State :=
  require (propertyOwner (property st tokenId) =? sender) NotPropertyOwner ;;
  require (_exists st tokenId) PropertyDoesNotExist ;;
  let p := property st tokenId in
  Ok (set_properties st
        (<[tokenId := mkPropertyInfo (totalValue p) (totalTokens p)
                        (availableTokens p) (tokenPrice p) (propertyOwner p)
                        isActive (createdAt p)]> (properties st))).

Definition setKYCStatus (sender : address) (st : State)
    (user : address) (verified : bool) : result State :=
  require (sender =? _owner st) NotOwner ;;
  Ok (set_kycVerified st (<[user := verified]> (kycVerified st))).

(** The loop of [batchSetKYCStatus]. *)
Fixpoint kycLoop (users : list address) (verified : bool) (st : State) : State :=
  match users with
  | [] => st
  | user :: rest =>
      kycLoop rest verified
        (set_kycVerified st (<[user := verified]> (kycVerified st)))
  end.

Definition batchSetKYCStatus (sender : address) (st : State)
    (users : list address) (verified : bool) : result State :=
  require (sender =? _owner st) NotOwner ;;
  Ok (kycLoop users verified st).

Definition pause (sender : address) (st : State) : result State :=
  require (sender =? _owner st) NotOwner ;;
  require (negb (_paused st)) Paused ;;
  Ok (set__paused st true).

Definition unpause (sender : address) (st : State) : result State :=
  require (sender =? _owner st) NotOwner ;;
  require (_paused st) NotPaused ;;
  Ok (set__paused st false).

(** What FractionalToken reads of the registry: the KYC list, and the owner
    and the minted ids that [updateAvailableTokens] checks. *)
Definition sameGate (st st' : State) : Prop :=
  kycVerified st' = kycVerified st /\ _owner st' = _owner st /\
  _owners st' = _owners st.

End PropertyNFTAdmin.

(** ** PropertyNFT: transfers of the NFT (ERC721 of OpenZeppelin 4.x under
    the contract's KYC gate)

    Who besides the holder may move a token, through [approve] or
    [setApprovalForAll], is a parameter: [approved spender tokenId].  The
    ERC721 balances are not modelled: nothing reads them. *)
Module PropertyNFTTransfer.
Import PropertyNFT PropertyNFTAdmin.

Inductive Refusal :=
| Gate (e : Error)         (* a reason of PropertyNFT's own *)
| ERC721InvalidTokenId     (* "ERC721: invalid token ID" *)
| ERC721NotApproved        (* "ERC721: caller is not token owner or approved" *)
| ERC721IncorrectOwner     (* "ERC721: transfer from incorrect owner" *)
| ERC721ZeroAddress.       (* "ERC721: transfer to the zero address" *)

Definition set__owners (st : State) (o : gmap N address) : State :=
  mkState (_owner st) (_paused st) o (properties st) (kycVerified st).

Definition ownerOf (st : State) (tokenId : N) : address := get (_owners st) tokenId.

Definition transferFrom (approved : address -> N -> bool) (sender : address)
    (st : State) (from to : address) (tokenId : N) : Refusal + State :=
  if negb (getb (kycVerified st) sender) then inl (Gate KYCRequired)
  else if negb (getb (kycVerified st) to) then inl (Gate RecipientNotKYC)
  else if negb (_exists st tokenId) then inl ERC721InvalidTokenId
  else if negb ((sender =? ownerOf st tokenId) || approved sender tokenId)
  then inl ERC721NotApproved
  else if negb (ownerOf st tokenId =? from) then inl ERC721IncorrectOwner
  else if to =? 0 then inl ERC721ZeroAddress
  else inr (set__owners st (<[tokenId := to]> (_owners st))).

End PropertyNFTTransfer.

(** The token's half of the outcome of a call into FractionalToken. *)
Definition tokenOf (r : result (PropertyNFT.State * FractionalToken.State))
    : result FractionalToken.State :=
  p ← r ; Ok p.2.

(** ** PropertyManager (contracts/PropertyManager.sol)

    [createProperty] deploys a contract and mints through ERC721 and is not
    modelled, nor are the views that only copy fields. *)
Module PropertyManager.

(** The reasons of PropertyManager's own [require]s, the out-of-bounds panic
    of an array write, and the reasons it shares with or receives from the
    contracts it calls. *)
Inductive Reason :=
| InvalidPropertyId        (* "Invalid property ID" *)
| OffsetOutOfBounds        (* "Offset out of bounds" *)
| FractionalTokenNotFound  (* "Fractional token not found" *)
| PanicIndex               (* Panic(0x32) *)
| Reverted (e : Error).

Inductive outcome (A : Type) : Type :=
| Done (a : A)
| Failed (r : Reason).
Arguments Done {A} a.
Arguments Failed {A} r.

#[global] Instance outcome_bind : MBind outcome := fun A B k r =>
  match r with
  | Done a => k a
  | Failed e => Failed e
  end.

Definition demand (cond : bool) (r : Reason) : outcome unit :=
  if cond then Done tt else Failed r.

(** A revert of a callee, or of checked arithmetic, bubbles up. *)
Definition lift {A} (r : result A) : outcome A :=
  match r with
  | Ok a => Done a
  | Revert e => Failed (Reverted e)
  end.

Inductive Event :=
| InvestmentMade (propertyId : N) (investor : address)
    (tokenAmount investmentAmount : N)
| PropertyCreationFeeUpdated (newFee : N).

Record State := mkState {
  self : address;                          (* address(this) *)
  _owner : address;                        (* Ownable *)
  _paused : bool;                          (* Pausable *)
  propertyToFractionalToken : gmap N address;
  isValidFractionalToken : gmap address bool;
  propertyCreationFee : N;
  totalProperties : N;
  totalInvestments : N;
  totalValueLocked : N;
  balance : N;                             (* address(this).balance *)
  events : list Event                      (* emitted so far, oldest first *)
}.

Definition set__paused (st : State) (p : bool) : State :=
  mkState (self st) (_owner st) p (propertyToFractionalToken st)
    (isValidFractionalToken st) (propertyCreationFee st) (totalProperties st)
    (totalInvestments st) (totalValueLocked st) (balance st) (events st).
Definition set_totalInvestments (st : State) (n : N) : State :=
  mkState (self st) (_owner st) (_paused st) (propertyToFractionalToken st)
    (isValidFractionalToken st) (propertyCreationFee st) (totalProperties st)
    n (totalValueLocked st) (balance st) (events st).
Definition set_balance (st : State) (n : N) : State :=
  mkState (self st) (_owner st) (_paused st) (propertyToFractionalToken st)
    (isValidFractionalToken st) (propertyCreationFee st) (totalProperties st)
    (totalInvestments st) (totalValueLocked st) n (events st).
Definition emit (st : State) (e : Event) : State :=
  mkState (self st) (_owner st) (_paused st) (propertyToFractionalToken st)
    (isValidFractionalToken st) (propertyCreationFee st) (totalProperties st)
    (totalInvestments st) (totalValueLocked st) (balance st) (events st ++ [e]).

(** The contracts PropertyManager calls: the PropertyNFT and the
    RentDistribution it was constructed with, and the FractionalToken
    deployed at an address, if any. *)
Record World := mkWorld {
  propertyNFT : PropertyNFT.State;
  rentDistribution : RentDistribution.State;
  tokenAt : address -> option FractionalToken.State
}.

Definition set_propertyNFT (w : World) (nft : PropertyNFT.State) : World :=
  mkWorld nft (rentDistribution w) (tokenAt w).
Definition set_rentDistribution (w : World) (rent : RentDistribution.State) : World :=
  mkWorld (propertyNFT w) rent (tokenAt w).
Definition set_tokenAt (w : World) (a : address) (token : FractionalToken.State)
    : World :=
  mkWorld (propertyNFT w) (rentDistribution w)
    (fun a' => if a' =? a then Some token else tokenAt w a').

(** [FractionalToken(a)], for a call: calling an address without code reverts. *)
Definition fractionalTokenAt (w : World) (a : address)
    : outcome FractionalToken.State :=
  match tokenAt w a with
  | Some token => Done token
  | None => Failed (Reverted CallFailed)
  end.

(** The context of a call PropertyManager makes: inside it [msg.sender] is
    PropertyManager, whose [receive()] takes any plain transfer. *)
Definition calling (ctx : Ctx) (st : State) : Ctx :=
  mkCtx (self st) (block_timestamp ctx)
    (fun a => if a =? self st then true else accepts ctx a).

(** *** Modifiers *)

Definition onlyValidProperty (st : State) (propertyId : N) : outcome unit :=
  demand (propertyId <? totalProperties st) InvalidPropertyId.

Definition whenNotPaused (st : State) : outcome unit :=
  demand (negb (_paused st)) (Reverted Paused).

Definition whenPaused (st : State) : outcome unit :=
  demand (_paused st) (Reverted NotPaused).

Definition onlyOwner (ctx : Ctx) (st : State) : outcome unit :=
  demand (_owner st =? msg_sender ctx) (Reverted NotOwner).

(** *** Entry points *)

Definition investInProperty (ctx : Ctx) (w : World) (st : State)
    (value propertyId tokenAmount : N) : outcome (State * World) :=
  let st := set_balance st (balance st + value) in
  onlyValidProperty st propertyId ;;
  whenNotPaused st ;;
  demand (getb (PropertyNFT.kycVerified (propertyNFT w)) (msg_sender ctx))
    (Reverted KYCRequired) ;;
  demand (0 <? tokenAmount) (Reverted ZeroTokenAmount) ;;
  let fractionalTokenAddress := get (propertyToFractionalToken st) propertyId in
  demand (negb (fractionalTokenAddress =? 0)) FractionalTokenNotFound ;;
  fractionalToken ← fractionalTokenAt w fractionalTokenAddress ;
  (* fractionalToken.purchaseTokens{value: msg.value}(tokenAmount) *)
  let st := set_balance st (balance st - value) in
  '(nft, token) ← lift (FractionalToken.purchaseTokens (calling ctx st)
                          (propertyNFT w) fractionalToken value tokenAmount) ;
  (* what the token sent back arrives through receive() *)
  let refund := FractionalToken.balance fractionalToken + value
                - FractionalToken.balance token in
  let st := set_balance st (balance st + refund) in
  let w := set_tokenAt (set_propertyNFT w nft) fractionalTokenAddress token in
  investments ← lift (add (totalInvestments st) 1) ;
  let st := set_totalInvestments st investments in
  Done (emit st (InvestmentMade propertyId (msg_sender ctx) tokenAmount value), w).

(** An array write [a[i] = v]. *)
Definition store {A} (a : list A) (i : N) (v : A) : outcome (list A) :=
  if i <? N.of_nat (length a) then Done (<[N.to_nat i := v]> a)
  else Failed PanicIndex.

(** The loop of [getProperties]. *)
Fixpoint pageLoop (st : State) (offset : N) (counter : list N)
    (propertyIds : list N) (fractionalTokens : list address)
    : outcome (list N * list address) :=
  match counter with
  | [] => Done (propertyIds, fractionalTokens)
  | i :: rest =>
      propertyId ← lift (add offset i) ;
      propertyIds ← store propertyIds i propertyId ;
      fractionalTokens ← store fractionalTokens i
                           (get (propertyToFractionalToken st) propertyId) ;
      pageLoop st offset rest propertyIds fractionalTokens
  end.

Definition getProperties (st : State) (offset limit : N)
    : outcome (list N * list address) :=
  demand (offset <? totalProperties st) OffsetOutOfBounds ;;
  end_ ← lift (add offset limit) ;
  let end_ := if totalProperties st <? end_ then totalProperties st else end_ in
  length ← lift (sub end_ offset) ;
  pageLoop st offset (indices length)
    (replicate (N.to_nat length) 0) (replicate (N.to_nat length) 0).

(** The two loops of [getInvestorPortfolio]. *)
Fixpoint countLoop (w : World) (st : State) (investor : address)
    (counter : list N) (count : N) : outcome N :=
  match counter with
  | [] => Done count
  | i :: rest =>
      let fractionalTokenAddress := get (propertyToFractionalToken st) i in
      if negb (fractionalTokenAddress =? 0) then
        fractionalToken ← fractionalTokenAt w fractionalTokenAddress ;
        if 0 <? FractionalToken.balanceOf fractionalToken investor then
          count ← lift (add count 1) ;
          countLoop w st investor rest count
        else countLoop w st investor rest count
      else countLoop w st investor rest count
  end.

Fixpoint fillLoop (w : World) (st : State) (investor : address)
    (counter : list N) (index : N)
    (propertyIds tokenBalances ownershipPercentages : list N)
    : outcome (list N * list N * list N) :=
  match counter with
  | [] => Done (propertyIds, tokenBalances, ownershipPercentages)
  | i :: rest =>
      let fractionalTokenAddress := get (propertyToFractionalToken st) i in
      if negb (fractionalTokenAddress =? 0) then
        fractionalToken ← fractionalTokenAt w fractionalTokenAddress ;
        let balance := FractionalToken.balanceOf fractionalToken investor in
        if 0 <? balance then
          propertyIds ← store propertyIds index i ;
          tokenBalances ← store tokenBalances index balance ;
          percentage ← lift (FractionalToken.getOwnershipPercentage
                               fractionalToken investor) ;
          ownershipPercentages ← store ownershipPercentages index percentage ;
          index ← lift (add index 1) ;
          fillLoop w st investor rest index
            propertyIds tokenBalances ownershipPercentages
        else
          fillLoop w st investor rest index
            propertyIds tokenBalances ownershipPercentages
      else
        fillLoop w st investor rest index
          propertyIds tokenBalances ownershipPercentages
  end.

Definition getInvestorPortfolio (w : World) (st : State) (investor : address)
    : outcome (list N * list N * list N) :=
  count ← countLoop w st investor (indices (totalProperties st)) 0 ;
  let blank := replicate (N.to_nat count) 0 in
  fillLoop w st investor (indices (totalProperties st)) 0 blank blank blank.

Definition batchSetKYCStatus (ctx : Ctx) (w : World) (st : State)
    (users : list address) (verified : bool) : outcome World :=
  onlyOwner ctx st ;;
  nft ← lift (PropertyNFTAdmin.batchSetKYCStatus (self st) (propertyNFT w)
                users verified) ;
  Done (set_propertyNFT w nft).

Definition emergencyPause (ctx : Ctx) (w : World) (st : State)
    : outcome (State * World) :=
  onlyOwner ctx st ;;
  whenNotPaused st ;;
  let st := set__paused st true in
  nft ← lift (PropertyNFTAdmin.pause (self st) (propertyNFT w)) ;
  rent ← lift (RentDistribution.pause (calling ctx st) (rentDistribution w)) ;
  Done (st, set_rentDistribution (set_propertyNFT w nft) rent).

Definition emergencyUnpause (ctx : Ctx) (w : World) (st : State)
    : outcome (State * World) :=
  onlyOwner ctx st ;;
  whenPaused st ;;
  let st := set__paused st false in
  nft ← lift (PropertyNFTAdmin.unpause (self st) (propertyNFT w)) ;
  rent ← lift (RentDistribution.unpause (calling ctx st) (rentDistribution w)) ;
  Done (st, set_rentDistribution (set_propertyNFT w nft) rent).

Definition pause (ctx : Ctx) (st : State) : outcome State :=
  onlyOwner ctx st ;;
  whenNotPaused st ;;
  Done (set__paused st true).

Definition unpause (ctx : Ctx) (st : State) : outcome State :=
  onlyOwner ctx st ;;
  whenPaused st ;;
  Done (set__paused st false).

(** *** What the queries are expected to return *)

(** The page of [n] properties from [offset] on. *)
Definition page (st : State) (offset n : N) : list N * list address :=
  let ids := (fun i => offset + i) <$> indices n in
  (ids, (fun id => get (propertyToFractionalToken st) id) <$> ids).

(** Whether [investor] holds shares of property [i], how many, and which
    percentage the token reports for them. *)
Definition holds (w : World) (st : State) (investor : address) (i : N) : bool :=
  let a := get (propertyToFractionalToken st) i in
  negb (a =? 0) &&
  match tokenAt w a with
  | Some token => 0 <? FractionalToken.balanceOf token investor
  | None => false
  end.

Definition balanceAt (w : World) (st : State) (investor : address) (i : N) : N :=
  match tokenAt w (get (propertyToFractionalToken st) i) with
  | Some token => FractionalToken.balanceOf token investor
  | None => 0
  end.

Definition percentageAt (w : World) (st : State) (investor : address) (i : N) : N :=
  match tokenAt w (get (propertyToFractionalToken st) i) with
  | Some token =>
      match FractionalToken.getOwnershipPercentage token investor with
      | Ok p => p
      | Revert _ => 0
      end
  | None => 0
  end.

(** The portfolio of [investor]: the properties they hold shares of, in
    increasing order, with the balances and the percentages. *)
Definition portfolio (w : World) (st : State) (investor : address)
    : list N * list N * list N :=
  let ids := List.filter (holds w st investor) (indices (totalProperties st)) in
  (ids, balanceAt w st investor <$> ids, percentageAt w st investor <$> ids).

(** What makes the calls of [getInvestorPortfolio] succeed: every registered
    token is deployed, and the investor's percentage is computable. *)
Definition answerable (w : World) (st : State) (investor : address) (i : N)
    : Prop :=
  get (propertyToFractionalToken st) i <> 0 ->
  exists token,
    tokenAt w (get (propertyToFractionalToken st) i) = Some token /\
    FractionalToken.balanceOf token investor * 10000 <= MAX_UINT256.

End PropertyManager.

(** ** Further deployments, used by the properties beyond the worked scenarios *)
Module Cases.
Import Scenario.

(** The registry's half of the outcome of a token transaction. *)
Definition registryAfter (ctx : Ctx) (nft : PropertyNFT.State)
    (st : FractionalToken.State) (c : FractionalToken.Call) : PropertyNFT.State :=
  match FractionalToken.exec ctx nft st c with
  | Ok (nft', _) => nft'
  | Revert _ => nft
  end.

(** The registry after [alice]'s purchase of 600; then [alice] sells the 600
    back. *)
Definition nftAlice : PropertyNFT.State :=
  registryAfter (asUser alice) nft tokenDeployed
    (FractionalToken.call_purchaseTokens 600 600).
Definition tokenReturned : FractionalToken.State :=
  FractionalToken.run (asUser alice) nftAlice tokenAlice
    (FractionalToken.call_sellTokens 600).
Definition nftReturned : PropertyNFT.State :=
  registryAfter (asUser alice) nftAlice tokenAlice
    (FractionalToken.call_sellTokens 600).

(** [manager] withdraws the proceeds of [alice]'s purchase. *)
Definition tokenDrained : FractionalToken.State :=
  FractionalToken.run (asUser manager) nft tokenAlice
    FractionalToken.call_withdrawBalance.

(** [alice] gives [bob] 100 shares; [bob] never purchased any. *)
Definition tokenGifted : FractionalToken.State :=
  FractionalToken.run (asUser alice) nft tokenAlice
    (FractionalToken.call_transfer bob 100).
Definition worldGifted : RentDistribution.World :=
  RentDistribution.mkWorld nft
    (fun a => if a =? tokenAddress then Some tokenGifted else None).
Definition rentGifted : RentDistribution.State :=
  RentDistribution.run (asUser manager) worldGifted rentDeposited
    (RentDistribution.call_createDistribution 7 1000).

(** [operator] sending a batch while [bob]'s address refuses transfers. *)
Definition bobRefuses : Ctx := mkCtx operator 0 (fun a => negb (a =? bob)).

(** A further deposit after the distribution was completed, and an
    emergency withdrawal right after it was created. *)
Definition rentLater : RentDistribution.State :=
  RentDistribution.run (asUser manager) world rentCompleted
    (RentDistribution.call_depositRent 500 7).
Definition rentDrained : RentDistribution.State :=
  RentDistribution.run (asUser operator) world rentCreated
    RentDistribution.call_emergencyWithdraw.

(** The registry with property 7 switched inactive by [manager], and with
    [alice]'s KYC status revoked by the registry's owner. *)
Definition nftInactive : PropertyNFT.State :=
  match PropertyNFTAdmin.setPropertyStatus manager nft 7 false with
  | Ok nft' => nft'
  | Revert _ => nft
  end.
Definition nftRevoked : PropertyNFT.State :=
  match PropertyNFTAdmin.setKYCStatus tokenAddress nft alice false with
  | Ok nft' => nft'
  | Revert _ => nft
  end.

(** PropertyManager at [managerAddress], owned by [platformOwner]. *)
Definition platformOwner : address := 10.
Definition managerAddress : address := 300.

(** The registry as scripts/deploy.js leaves it, owned by PropertyManager. *)
Definition nftManaged : PropertyNFT.State :=
  PropertyNFT.mkState managerAddress false {[7 := manager]}
    {[7 := PropertyNFT.mkPropertyInfo 1000 1000 1000 1 manager true 0]}
    {[alice := true; bob := true]}.

(** PropertyManager knowing property 7 and its token. *)
Definition platform : PropertyManager.State :=
  PropertyManager.mkState managerAddress platformOwner false
    {[7 := tokenAddress]} {[tokenAddress := true]} (10 ^ 16) 8 0 1000 0 [].

Definition platformWorld (nft : PropertyNFT.State) : PropertyManager.World :=
  PropertyManager.mkWorld nft rentDeployed
    (fun a => if a =? tokenAddress then Some tokenDeployed else None).

(** [platformOwner] verifies [carol] and [bob] in one batch. *)
Definition worldVerified : PropertyManager.World :=
  match PropertyManager.batchSetKYCStatus (asUser platformOwner)
          (platformWorld nftManaged) platform [carol; bob] true with
  | PropertyManager.Done w => w
  | PropertyManager.Failed _ => platformWorld nftManaged
  end.

(** PropertyManager with three properties and their tokens. *)
Definition catalogue : PropertyManager.State :=
  PropertyManager.mkState managerAddress platformOwner false
    {[0 := 100; 1 := 101; 2 := 102]} {[100 := true; 101 := true; 102 := true]}
    (10 ^ 16) 3 0 3000 0 [].

(** [manager], KYC-verified, hands the NFT of property 7 to [alice]. *)
Definition nftOwnerVerified : PropertyNFT.State :=
  registry {[alice := true; bob := true; manager := true]}.
Definition nftMoved : PropertyNFT.State :=
  match PropertyNFTTransfer.transferFrom (fun _ _ => false) manager
          nftOwnerVerified manager alice 7 with
  | inr nft' => nft'
  | inl _ => nftOwnerVerified
  end.

(** A deployment as scripts/deploy.js and one [createProperty] leave it:
    PropertyManager owns the registry and the rent contract, property 0 is
    minted to [manager], its token of 1000 shares at price 1 was deployed by
    PropertyManager at [tokenAddress] and registered with the rent contract,
    and PropertyManager holds the creation fee.  [alice], [manager] and
    PropertyManager itself are KYC-verified. *)
Definition nftLive : PropertyNFT.State :=
  PropertyNFT.mkState managerAddress false {[0 := manager]}
    {[0 := PropertyNFT.mkPropertyInfo 1000 1000 1000 1 manager true 0]}
    {[alice := true; manager := true; managerAddress := true]}.
Definition tokenLive : FractionalToken.State :=
  match FractionalToken.constructor (asUser managerAddress) tokenAddress 0 1000 1 with
  | Ok token => token
  | Revert _ => tokenDeployed
  end.
Definition rentLive : RentDistribution.State :=
  RentDistribution.run (asUser managerAddress) world
    (RentDistribution.run (asUser operator) world rentDeployed
       (RentDistribution.call_transferOwnership managerAddress))
    (RentDistribution.call_registerFractionalToken 0 tokenAddress).
Definition platformLive : PropertyManager.State :=
  PropertyManager.mkState managerAddress platformOwner false
    {[0 := tokenAddress]} {[tokenAddress := true]} (10 ^ 16) 1 0 1000 (10 ^ 16) [].
Definition worldLive : PropertyManager.World :=
  PropertyManager.mkWorld nftLive rentLive
    (fun a => if a =? tokenAddress then Some tokenLive else None).

End Cases.

(** * Properties *)

(** ** Reasoning about [result] *)

Lemma bind_Ok {A B} (r : result A) (k : A -> result B) (b : B) :
  (r ≫= k) = Ok b -> exists a, r = Ok a /\ k a = Ok b.
Proof. destruct r as [a|e]; simpl; [eauto | discriminate]. Qed.

Lemma bind_Revert_l {A B} (k : A -> result B) (e : Error) :
  (Revert e ≫= k) = Revert e.
Proof. reflexivity. Qed.

Lemma require_Ok (c : bool) (e : Error) (u : unit) :
  require c e = Ok u -> c = true.
Proof. destruct c; simpl; [reflexivity | discriminate]. Qed.

Lemma require_true (e : Error) : require true e = Ok tt.
Proof. reflexivity. Qed.

Lemma add_Ok (a b c : N) : add a b = Ok c -> c = a + b /\ a + b <= MAX_UINT256.
Proof.
  unfold add. destruct (N.leb_spec (a + b) MAX_UINT256); [|discriminate].
  intros [= <-]. auto.
Qed.

Lemma sub_Ok (a b c : N) : sub a b = Ok c -> c = a - b /\ b <= a.
Proof.
  unfold sub. destruct (N.leb_spec b a); [|discriminate].
  intros [= <-]. auto.
Qed.

Lemma mul_Ok (a b c : N) : mul a b = Ok c -> c = a * b /\ a * b <= MAX_UINT256.
Proof.
  unfold mul. destruct (N.leb_spec (a * b) MAX_UINT256); [|discriminate].
  intros [= <-]. auto.
Qed.

Lemma div_Ok (a b c : N) : div a b = Ok c -> c = a / b /\ b <> 0.
Proof.
  unfold div. destruct (N.eqb_spec b 0); [discriminate|].
  intros [= <-]. auto.
Qed.

(** Peels the leading binds of a successful computation [H : _ = Ok _]. *)
Ltac ok_step H :=
  match type of H with
  | (require _ _ ≫= _) = Ok _ =>
      let u := fresh "u" in let Hc := fresh "Hreq" in
      apply bind_Ok in H as (u & Hc & H); apply require_Ok in Hc
  | (add _ _ ≫= _) = Ok _ =>
      let x := fresh "x" in let Hx := fresh "Hadd" in let Hb := fresh "Hbound" in
      apply bind_Ok in H as (x & Hx & H); apply add_Ok in Hx as [Hx Hb]
  | (sub _ _ ≫= _) = Ok _ =>
      let x := fresh "x" in let Hx := fresh "Hsub" in let Hb := fresh "Hbound" in
      apply bind_Ok in H as (x & Hx & H); apply sub_Ok in Hx as [Hx Hb]
  | (mul _ _ ≫= _) = Ok _ =>
      let x := fresh "x" in let Hx := fresh "Hmul" in let Hb := fresh "Hbound" in
      apply bind_Ok in H as (x & Hx & H); apply mul_Ok in Hx as [Hx Hb]
  | (div _ _ ≫= _) = Ok _ =>
      let x := fresh "x" in let Hx := fresh "Hdiv" in let Hb := fresh "Hnz" in
      apply bind_Ok in H as (x & Hx & H); apply div_Ok in Hx as [Hx Hb]
  | (_ ≫= _) = Ok _ =>
      let x := fresh "x" in let Hx := fresh "Hstep" in
      apply bind_Ok in H as (x & Hx & H)
  end.

Ltac ok_inv H := repeat ok_step H.

(** ** Sums over balance maps *)

Lemma sumMap_empty : sumMap ∅ = 0.
Proof. reflexivity. Qed.

Lemma sumMap_insert_fresh (m : gmap N N) (k v : N) :
  m !! k = None -> sumMap (<[k := v]> m) = v + sumMap m.
Proof.
  intros Hk. unfold sumMap.
  apply (map_fold_insert_L (fun _ v acc => v + acc)); [|exact Hk].
  intros. lia.
Qed.

Lemma sumMap_delete (m : gmap N N) (k : N) :
  sumMap m = get m k + sumMap (delete k m).
Proof.
  unfold get. destruct (m !! k) as [v|] eqn:Hk; simpl.
  - rewrite <- (insert_delete_id m k v Hk) at 1.
    apply sumMap_insert_fresh, lookup_delete_eq.
  - by rewrite delete_id.
Qed.

Lemma sumMap_insert (m : gmap N N) (k v : N) :
  sumMap (<[k := v]> m) + get m k = sumMap m + v.
Proof.
  rewrite (sumMap_delete m k).
  rewrite <- (insert_delete_eq m k v).
  rewrite sumMap_insert_fresh by apply lookup_delete_eq. lia.
Qed.

Lemma get_insert_eq `{Countable K} (m : gmap K N) (k : K) (v : N) :
  get (<[k := v]> m) k = v.
Proof. unfold get. by rewrite lookup_insert_eq. Qed.

Lemma get_insert_ne `{Countable K} (m : gmap K N) (k k' : K) (v : N) :
  k <> k' -> get (<[k := v]> m) k' = get m k'.
Proof. intros. unfold get. by rewrite lookup_insert_ne. Qed.

Lemma get_le_sumMap (m : gmap N N) (k : N) : get m k <= sumMap m.
Proof. rewrite (sumMap_delete m k). lia. Qed.

Lemma getb_insert_eq `{Countable K} (m : gmap K bool) (k : K) (v : bool) :
  getb (<[k := v]> m) k = v.
Proof. unfold getb. by rewrite lookup_insert_eq. Qed.

Lemma getb_insert_ne `{Countable K} (m : gmap K bool) (k k' : K) (v : bool) :
  k <> k' -> getb (<[k := v]> m) k' = getb m k'.
Proof. intros. unfold getb. by rewrite lookup_insert_ne. Qed.

(** ** The ownership ledger *)
Module FractionalTokenFacts.
Import FractionalToken.

Lemma _transfer_Ok st from to amount st' :
  _transfer st from to amount = Ok st' ->
  exists b',
    st' = set__balances st b' /\
    from <> 0 /\ to <> 0 /\ amount <= balanceOf st from /\
    sumMap b' = sumMap (_balances st) /\
    forall k, get b' k + (if decide (k = from) then amount else 0)
              = get (_balances st) k + (if decide (k = to) then amount else 0).
Proof.
  unfold _transfer. intros H. ok_inv H. injection H as <-.
  apply negb_true_iff, N.eqb_neq in Hreq, Hreq0. apply N.leb_le in Hreq1.
  eexists. split; [reflexivity|]. repeat split; try assumption.
  - pose proof (sumMap_insert (_balances st) from (balanceOf st from - amount)) as H1.
    pose proof (sumMap_insert (<[from := balanceOf st from - amount]> (_balances st))
                  to x) as H2.
    unfold balanceOf in *. lia.
  - intros k. unfold balanceOf in *.
    destruct (decide (k = to)) as [->|Hto].
    + rewrite get_insert_eq. subst x.
      destruct (decide (to = from)) as [->|Hne].
      * rewrite get_insert_eq. lia.
      * rewrite get_insert_ne by congruence. lia.
    + rewrite get_insert_ne by congruence.
      destruct (decide (k = from)) as [->|Hfrom].
      * rewrite get_insert_eq. lia.
      * rewrite get_insert_ne by congruence. lia.
Qed.

Lemma _approve_Ok st owner spender amount st' :
  _approve st owner spender amount = Ok st' ->
  st' = set__allowances st (<[(owner, spender) := amount]> (_allowances st)).
Proof. unfold _approve. intros H. ok_inv H. by injection H as <-. Qed.

Lemma token_constructor_Inv ctx this pid supply price st :
  constructor ctx this pid supply price = Ok st -> Inv st /\ InStep st.
Proof.
  unfold constructor, _mint. intros H. ok_inv H. injection H as <-.
  apply negb_true_iff, N.eqb_neq in Hreq. simpl in *.
  unfold balanceOf, get in Hadd0. simpl in *. rewrite lookup_empty in Hadd0.
  simpl in *. subst.
  split; [constructor|]; unfold InStep, balanceOf, allowance; simpl.
  - assumption.
  - rewrite sumMap_insert_fresh by apply lookup_empty. rewrite sumMap_empty. lia.
  - lia.
  - rewrite get_insert_eq. lia.
  - intros. reflexivity.
  - constructor.
  - intros a. unfold getb. rewrite lookup_empty. simpl. split; [discriminate|].
    intros Hin. inversion Hin.
  - rewrite get_insert_eq. lia.
Qed.

Lemma token_send_Ok ctx st to amount st' :
  send ctx st to amount = Ok st' ->
  exists n, st' = set_balance st n.
Proof.
  unfold send. intros H. ok_inv H. injection H as <-.
  destruct (to =? self st); [exists (balance st); by destruct st | eauto].
Qed.

Ltac token_norm :=
  repeat match goal with
  | H : Ok _ = Ok _ |- _ => injection H as H
  | H : (if ?c then _ else _) = Ok _ |- _ => destruct c eqn:?
  | H : _ = Ok _ |- _ => progress ok_inv H
  | H : _transfer _ _ _ _ = Ok _ |- _ =>
      let b := fresh "b" in let Hsum := fresh "Hsum" in let Hget := fresh "Hget" in
      apply _transfer_Ok in H as (b & -> & ? & ? & ? & Hsum & Hget)
  | H : send _ _ _ _ = Ok _ |- _ => apply token_send_Ok in H as [? ->]
  | H : _approve _ _ _ _ = Ok _ |- _ => apply _approve_Ok in H as ->
  | H : onlyKYCVerified _ _ = Ok _ |- _ => apply require_Ok in H
  | H : onlyActiveToken _ = Ok _ |- _ => apply require_Ok in H
  | H : whenNotPaused _ = Ok _ |- _ => apply require_Ok in H
  | H : whenPaused _ = Ok _ |- _ => apply require_Ok in H
  | H : onlyOwner _ _ = Ok _ |- _ => apply require_Ok in H
  | H : require _ _ = Ok _ |- _ => apply require_Ok in H
  | H : (_ <? _) = true |- _ => apply N.ltb_lt in H
  | H : (_ <? _) = false |- _ => apply N.ltb_ge in H
  | H : (_ <=? _) = true |- _ => apply N.leb_le in H
  | H : negb _ = true |- _ => apply negb_true_iff in H
  | H : negb _ = false |- _ => apply negb_false_iff in H
  | H : (_ =? _) = true |- _ => apply N.eqb_eq in H
  | H : (_ =? _) = false |- _ => apply N.eqb_neq in H
  end.

Ltac self_key Hget st :=
  let K := fresh "Hself_bal" in
  pose proof (Hget (self st)) as K;
  repeat (destruct (decide _) in K; try congruence).

Lemma registry_push_nodup (l : list N) (f : gmap N bool) (a : N) :
  NoDup l -> (forall x, getb f x = true <-> x ∈ l) -> getb f a = false ->
  NoDup (l ++ [a]).
Proof.
  intros Hnd Hreg Ha. apply NoDup_app. split; [assumption|]. split.
  - intros x Hx Hx'. apply list_elem_of_singleton in Hx' as ->.
    apply Hreg in Hx. congruence.
  - apply NoDup_singleton.
Qed.

Lemma registry_push_iff (l : list N) (f : gmap N bool) (a : N) :
  (forall x, getb f x = true <-> x ∈ l) ->
  forall x, getb (<[a := true]> f) x = true <-> x ∈ l ++ [a].
Proof.
  intros Hreg x. rewrite elem_of_app, list_elem_of_singleton, <- Hreg.
  destruct (decide (a = x)) as [->|Hne].
  - rewrite getb_insert_eq. tauto.
  - rewrite getb_insert_ne by assumption. split; [tauto|].
    intros [?|?]; [assumption|congruence].
Qed.

Lemma allowance_insert_self (al : gmap (N * N) N) (this k sp v : N) :
  (forall s, get al (this, s) = 0) -> (k = this -> v = 0) ->
  forall s, get (<[(k, sp) := v]> al) (this, s) = 0.
Proof.
  intros Hal Hv s. destruct (decide ((k, sp) = (this, s))) as [Heq|Hne].
  - rewrite Heq, get_insert_eq. injection Heq as -> ->. auto.
  - rewrite get_insert_ne by assumption. apply Hal.
Qed.

Lemma MAX_UINT256_nonzero : 0 <> MAX_UINT256.
Proof. vm_compute. discriminate. Qed.

Lemma token_exec_Inv ctx nft st c nft' st' :
  Inv st -> msg_sender ctx <> self st ->
  exec ctx nft st c = Ok (nft', st') -> Inv st' /\ self st' = self st.
Proof.
  intros [Hself Hsum Htot Hav Hal Hnd Hreg] Hsender H.
  pose proof (Hal (msg_sender ctx)) as Hal_sender.
  destruct c; simpl in H;
    unfold purchaseTokens, sellTokens, updatePrice, setTokenStatus,
      withdrawBalance, emergencyWithdraw, transfer, transferFrom, approve,
      increaseAllowance, decreaseAllowance, pause, unpause, transferOwnership,
      renounceOwnership, receive, keep, _spendAllowance in H.
  1: destruct (getb (isInvestor st) (msg_sender ctx)) eqn:Hinv.
  all: token_norm; subst; simpl in *; rewrite ?Hinv in *; simpl in *;
      unfold balanceOf, allowance in *; simpl in *;
      try self_key Hget st.
  all: (split; [constructor|]); simpl; unfold balanceOf, allowance; simpl;
      try assumption; try reflexivity; try lia;
      eauto using registry_push_nodup, registry_push_iff.
  all: try (apply allowance_insert_self;
            [assumption | intros Hk; try congruence; subst; rewrite ?Hal_sender; lia]).
  all: match goal with |- _ <= get _ (self ?s) =>
      pose proof (Hget (self s)) as K;
      destruct (decide (self s = from)) as [<-|Hne] in K;
      destruct (decide (self s = to)) as [<-|Hne'] in K;
      rewrite ?Hal_sender in *; try discriminate; lia
    end.
Qed.

Lemma exec_InStep ctx nft st c nft' st' :
  Inv st -> InStep st -> msg_sender ctx <> self st ->
  treasuryNotApproved nft (self st) ->
  exec ctx nft st c = Ok (nft', st') -> InStep st'.
Proof.
  intros [Hself Hsum Htot Hav Hal Hnd Hreg] Hin Hsender Hkyc H.
  pose proof (Hal (msg_sender ctx)) as Hal_sender.
  unfold InStep, treasuryNotApproved in *.
  destruct c; simpl in H;
    unfold purchaseTokens, sellTokens, updatePrice, setTokenStatus,
      withdrawBalance, emergencyWithdraw, transfer, transferFrom, approve,
      increaseAllowance, decreaseAllowance, pause, unpause, transferOwnership,
      renounceOwnership, receive, keep, _spendAllowance in H.
  1: destruct (getb (isInvestor st) (msg_sender ctx)) eqn:Hinv.
  all: token_norm; subst; simpl in *; rewrite ?Hinv in *; simpl in *;
      unfold balanceOf, allowance in *; simpl in *;
      try assumption; try lia.
  all: match goal with |- get _ (self ?s) = _ =>
      pose proof (Hget (self s)) as K; repeat case_decide; subst;
      rewrite ?Hal_sender in *; try congruence; try lia;
      exfalso; apply MAX_UINT256_nonzero; congruence
    end.
Qed.

Lemma token_reachable_Inv adm st : reachable adm st -> Inv st.
Proof.
  induction 1 as [ctx this pid supply price st Hc|ctx nft st c nft' st' _ IH Hs _ He].
  - eapply token_constructor_Inv, Hc.
  - eapply token_exec_Inv; eassumption.
Qed.

Lemma reachable_InStep st : reachable treasuryNotApproved st -> InStep st.
Proof.
  induction 1 as [ctx this pid supply price st Hc|ctx nft st c nft' st' Hr IH Hs Ha He].
  - eapply token_constructor_Inv, Hc.
  - eapply exec_InStep; try eassumption. eapply token_reachable_Inv, Hr.
Qed.

Lemma holderShares_eq st :
  holderShares st + balanceOf st (self st) = sumMap (_balances st).
Proof. unfold holderShares, balanceOf. rewrite (sumMap_delete (_balances st) (self st)). lia. Qed.

Lemma exec_totalSupply ctx nft st c nft' st' :
  exec ctx nft st c = Ok (nft', st') ->
  TokenInfo.totalSupply (tokenInfo st') = TokenInfo.totalSupply (tokenInfo st).
Proof.
  intros H.
  destruct c; simpl in H;
    unfold purchaseTokens, sellTokens, updatePrice, setTokenStatus,
      withdrawBalance, emergencyWithdraw, transfer, transferFrom, approve,
      increaseAllowance, decreaseAllowance, pause, unpause, transferOwnership,
      renounceOwnership, receive, keep, _spendAllowance in H.
  1: destruct (getb (isInvestor st) (msg_sender ctx)) eqn:Hinv.
  all: token_norm; subst; simpl in *; rewrite ?Hinv in *; reflexivity.
Qed.

(** C1 (as amended).  Conservation of share supply: in every state the
    token can reach while its own address is not a KYC-verified party, the
    shares held by investors plus [availableSupply] equal [totalSupply], and
    the contract itself holds exactly the unsold shares.  The constructor
    establishes this (it is the first reachable state), every entry point,
    among them [purchaseTokens], [sellTokens], [transfer] and [transferFrom],
    preserves it, and none changes [totalSupply]. *)
Theorem conservation_of_share_supply st :
  reachable treasuryNotApproved st ->
  Conserved st /\
  balanceOf st (self st) = TokenInfo.availableSupply (tokenInfo st) /\
  forall ctx nft c nft' st',
    msg_sender ctx <> self st -> treasuryNotApproved nft (self st) ->
    exec ctx nft st c = Ok (nft', st') ->
    Conserved st' /\
    TokenInfo.totalSupply (tokenInfo st') = TokenInfo.totalSupply (tokenInfo st).
Proof.
  assert (Hcons : forall s, reachable treasuryNotApproved s -> Conserved s).
  { intros s Hr. unfold Conserved.
    pose proof (reachable_InStep s Hr) as Hin.
    pose proof (token_reachable_Inv _ s Hr) as [].
    pose proof (holderShares_eq s). unfold InStep in Hin. lia. }
  intros Hr. split; [by apply Hcons|]. split; [by apply reachable_InStep|].
  intros ctx nft c nft' st' Hs Hk He. split.
  - apply Hcons. eapply reachable_step; eassumption.
  - eapply exec_totalSupply, He.
Qed.

Import Scenario.

Lemma tokenDeployed_reachable adm : reachable adm tokenDeployed.
Proof.
  apply (reachable_init adm (asUser manager) tokenAddress 7 1000 1).
  vm_compute. reflexivity.
Defined.

Lemma tokenAlice_reachable adm :
  adm nft tokenAddress -> reachable adm tokenAlice.
Proof.
  intros Hadm.
  eapply (reachable_step adm (asUser alice) nft tokenDeployed
            (call_purchaseTokens 600 600)).
  - apply tokenDeployed_reachable.
  - discriminate.
  - exact Hadm.
  - vm_compute. reflexivity.
Defined.

Lemma tokenSold_reachable adm :
  adm nft tokenAddress -> reachable adm tokenSold.
Proof.
  intros Hadm.
  eapply (reachable_step adm (asUser bob) nft tokenAlice
            (call_purchaseTokens 400 400)).
  - by apply tokenAlice_reachable.
  - discriminate.
  - exact Hadm.
  - vm_compute. reflexivity.
Defined.

Lemma tokenOther_reachable adm : reachable adm tokenOther.
Proof.
  apply (reachable_init adm (asUser manager2) tokenAddress2 8 500 1).
  vm_compute. reflexivity.
Defined.

Lemma conservation_of_share_supply_witness :
  reachable treasuryNotApproved tokenAlice /\ Conserved tokenAlice.
Proof.
  assert (Hr : reachable treasuryNotApproved tokenAlice)
    by (apply tokenAlice_reachable; reflexivity).
  split; [exact Hr | exact (proj1 (conservation_of_share_supply tokenAlice Hr))].
Defined.

(** C1 as stated fails: once the token contract's own address is
    KYC-verified, a holder's [transfer] to it moves shares out of investor
    hands without adding them to [availableSupply]. *)
Lemma conservation_counterexample :
  reachable (fun _ _ => True) tokenStranded /\ ~ Conserved tokenStranded.
Proof.
  split.
  - eapply (reachable_step _ (asUser alice) nftTreasuryApproved tokenAlice
              (call_transfer tokenAddress 100)).
    + apply tokenAlice_reachable. exact I.
    + discriminate.
    + exact I.
    + vm_compute. reflexivity.
  - vm_compute. discriminate.
Qed.

Lemma _transfer_active_blind st b from to amount :
  _transfer (set_isActive st b) from to amount
  = st' ← _transfer st from to amount ; Ok (set_isActive st' b).
Proof.
  unfold _transfer, balanceOf. simpl.
  repeat match goal with
  | |- context [mbind _ ?c] =>
      lazymatch c with
      | context [mbind] => fail
      | _ => destruct c; simpl; try reflexivity
      end
  end.
Qed.

Lemma send_active_blind ctx st b to amount :
  send ctx (set_isActive st b) to amount
  = st' ← send ctx st to amount ; Ok (set_isActive st' b).
Proof.
  unfold send. simpl.
  destruct (amount <=? balance st); simpl; [|reflexivity].
  destruct (accepts ctx to); simpl; [|reflexivity].
  by destruct (to =? self st).
Qed.

(** [sellTokens] never reads [tokenInfo.isActive]. *)
Lemma sellTokens_active_blind ctx nft st b n :
  sellTokens ctx nft (set_isActive st b) n
  = r ← sellTokens ctx nft st n ; Ok (r.1, set_isActive r.2 b).
Proof.
  unfold sellTokens, whenNotPaused, balanceOf. simpl.
  destruct (onlyKYCVerified ctx nft); simpl; [|reflexivity].
  destruct (require (negb (_paused st)) Paused); simpl; [|reflexivity].
  destruct (require (0 <? n) ZeroTokenAmount); simpl; [|reflexivity].
  destruct (require _ InsufficientTokenBalance); simpl; [|reflexivity].
  destruct (mul _ _) as [totalReceived|]; simpl; [|reflexivity].
  destruct (require _ InsufficientContractBalance); simpl; [|reflexivity].
  rewrite _transfer_active_blind.
  destruct (_transfer st _ _ _) as [st1|]; simpl; [|reflexivity].
  destruct (add _ _) as [available|]; simpl; [|reflexivity].
  change (set_availableSupply (set_isActive st1 b) available)
    with (set_isActive (set_availableSupply st1 available) b).
  rewrite send_active_blind.
  destruct (send ctx _ _ _) as [st2|]; simpl; [|reflexivity].
  destruct (PropertyNFT.updateAvailableTokens _ _ _ _); reflexivity.
Qed.

(** C9 (as amended).  Sale preconditions: [sellTokens] rejects when the
    holder's balance is below the amount or when the contract's ether balance
    is below amount x price; a rejected sale changes nothing.  The active
    flag is not among the preconditions: the outcome of a sale on a token
    whose flag is set either way is the outcome on the original token. *)
Theorem sale_preconditions ctx nft st n :
  balanceOf st (msg_sender ctx) < n \/
  balance st < n * TokenInfo.pricePerToken (tokenInfo st) ->
  (exists e, sellTokens ctx nft st n = Revert e) /\
  run ctx nft st (call_sellTokens n) = st /\
  (forall st0 b,
     sellTokens ctx nft (set_isActive st0 b) n
     = r ← sellTokens ctx nft st0 n ; Ok (r.1, set_isActive r.2 b)).
Proof.
  intros Hpre.
  assert (He : exists e, sellTokens ctx nft st n = Revert e).
  { destruct (sellTokens ctx nft st n) as [[nft' st']|e] eqn:H; [exfalso|eauto].
    unfold sellTokens in H. ok_inv H.
    apply N.leb_le in Hreq0, Hreq1. subst. lia. }
  split; [exact He|]. split.
  - destruct He as [e He]. unfold run. simpl. by rewrite He.
  - intros st0 b. apply sellTokens_active_blind.
Qed.

Lemma sale_preconditions_witness :
  (balanceOf tokenAlice (msg_sender (asUser alice)) < 700 \/
   balance tokenAlice < 700 * TokenInfo.pricePerToken (tokenInfo tokenAlice)) /\
  (exists e, sellTokens (asUser alice) nft tokenAlice 700 = Revert e) /\
  run (asUser alice) nft tokenAlice (call_sellTokens 700) = tokenAlice.
Proof.
  assert (Hpre : balanceOf tokenAlice (msg_sender (asUser alice)) < 700 \/
                 balance tokenAlice
                 < 700 * TokenInfo.pricePerToken (tokenInfo tokenAlice))
    by (left; reflexivity).
  destruct (sale_preconditions (asUser alice) nft tokenAlice 700 Hpre) as (He & Hrun & _).
  split; [exact Hpre|]. split; [exact He | exact Hrun].
Defined.

(** C9 as stated fails: a sale on an inactive token goes through. *)
Lemma sale_counterexample :
  TokenInfo.isActive (tokenInfo tokenInactive) = false /\
  exists nft' st',
    sellTokens (asUser alice) nft tokenInactive 100 = Ok (nft', st') /\
    balanceOf st' alice = 500 /\
    TokenInfo.availableSupply (tokenInfo st') = 500 /\
    balance st' = 500.
Proof.
  split; [reflexivity|]. eexists _, _. split; [vm_compute; reflexivity|].
  split_and!; reflexivity.
Qed.

End FractionalTokenFacts.

(** ** The distribution engine *)
Module RentDistributionFacts.
Import RentDistribution.

Lemma rent_send_Ok ctx st to amount st' :
  send ctx st to amount = Ok st' -> exists n, st' = set_balance st n.
Proof.
  unfold send. intros H. ok_inv H. injection H as <-.
  destruct (to =? self st); [exists (balance st); by destruct st | eauto].
Qed.

Lemma distribution_set_eq st id d :
  distribution (set_distribution st id d) id = d.
Proof. unfold distribution. simpl. by rewrite lookup_insert_eq. Qed.

Lemma distribution_set_ne st id id' d :
  id <> id' -> distribution (set_distribution st id d) id' = distribution st id'.
Proof. intros. unfold distribution. simpl. by rewrite lookup_insert_ne. Qed.

Lemma countPayouts_snoc id h log e :
  countPayouts id h (log ++ [e])
  = countPayouts id h log + (if isPayout id h e then 1 else 0).
Proof. induction log as [|e' log IH]; simpl; [lia|]. rewrite IH. lia. Qed.

Lemma sameLedger_Inv st st' : sameLedger st st' -> Inv st -> Inv st'.
Proof.
  intros (Hc & Hp & Hd) [Hfresh Hlisted Halloc Hpaid].
  constructor; unfold allocationOf, hasClaimed, allocated in *.
  - intros id Hid. destruct (Hd id) as (-> & -> & _ & ->). apply Hfresh. lia.
  - intros id h. destruct (Hd id) as (-> & _ & -> & _). apply Hlisted.
  - intros id. destruct (Hd id) as (-> & _ & _ & ->). apply Halloc.
  - intros id h. rewrite Hp. destruct (Hd id) as (_ & -> & _ & _). apply Hpaid.
Qed.

Lemma distribution_emit st e id : distribution (emit st e) id = distribution st id.
Proof. reflexivity. Qed.

Lemma distribution_set_balance st n id :
  distribution (set_balance st n) id = distribution st id.
Proof. reflexivity. Qed.

Lemma check_distribution st id id' :
  distribution (_checkDistributionCompletion st id) id'
  = if decide (id' = id)
    then Distribution.set_isCompleted (distribution st id)
           (allClaimed (distribution st id)
              (Distribution.investors (distribution st id))
            || Distribution.isCompleted (distribution st id))
    else distribution st id'.
Proof.
  unfold _checkDistributionCompletion.
  destruct (allClaimed _ _) eqn:Hall; destruct (Distribution.isCompleted _) eqn:Hc;
    simpl; case_decide; subst; try reflexivity;
    rewrite ?distribution_emit, ?distribution_set_eq, ?distribution_set_ne by congruence;
    try reflexivity; by rewrite <- Hc; destruct (distribution st id).
Qed.

Lemma check_paidCount st id i h :
  paidCount (_checkDistributionCompletion st id) i h = paidCount st i h.
Proof.
  unfold _checkDistributionCompletion, paidCount.
  destruct (_ && _); [|reflexivity]. simpl.
  rewrite countPayouts_snoc. simpl. lia.
Qed.

Lemma check_counter st id :
  distributionCounter (_checkDistributionCompletion st id) = distributionCounter st.
Proof. unfold _checkDistributionCompletion. by destruct (_ && _). Qed.

Lemma check_sameLedger st id : sameLedger st (_checkDistributionCompletion st id).
Proof.
  split; [apply check_counter|]. split; [intros; apply check_paidCount|].
  intros i. simpl. rewrite check_distribution. case_decide; subst; auto.
Qed.

Lemma paid_distribution st id h bal id' :
  distribution (paid st id h bal) id'
  = if decide (id' = id)
    then Distribution.set_claimed (distribution st id) h
           (Distribution.totalDistributed (distribution st id)
            + allocationOf st id h)
    else distribution st id'.
Proof.
  unfold paid. rewrite distribution_emit, distribution_set_balance.
  case_decide; subst.
  - by rewrite distribution_set_eq.
  - by rewrite distribution_set_ne.
Qed.

Lemma paid_paidCount st id h bal i a :
  paidCount (paid st id h bal) i a
  = paidCount st i a + (if decide (i = id /\ a = h) then 1 else 0).
Proof.
  unfold paid, paidCount. simpl. rewrite countPayouts_snoc. simpl.
  f_equal. case_decide as Hd.
  - destruct Hd as [-> ->]. by rewrite !N.eqb_refl.
  - destruct (N.eqb_spec id i), (N.eqb_spec h a); simpl; try reflexivity.
    subst. tauto.
Qed.

Lemma paid_Inv st id h bal :
  hasClaimed st id h = false -> 0 < allocationOf st id h ->
  Inv st -> Inv (paid st id h bal).
Proof.
  intros Hnot Hpos [Hfresh Hlisted Halloc Hpaid].
  constructor; unfold allocationOf, hasClaimed, allocated in *.
  - intros i Hi. rewrite paid_distribution. case_decide; subst; [|by apply Hfresh].
    destruct (Hfresh id Hi) as (He & _). rewrite He in Hpos.
    unfold get in Hpos. rewrite lookup_empty in Hpos. simpl in Hpos. lia.
  - intros i a. rewrite paid_distribution. case_decide; subst; simpl; apply Hlisted.
  - intros i. rewrite paid_distribution. case_decide; subst; simpl; apply Halloc.
  - intros i a. rewrite paid_paidCount, paid_distribution, Hpaid.
    destruct (decide (i = id)) as [->|Hi]; simpl.
    + destruct (decide (a = h)) as [->|Hne].
      * rewrite getb_insert_eq, Hnot. rewrite decide_True by done. lia.
      * rewrite getb_insert_ne by congruence. rewrite decide_False by tauto. lia.
    + rewrite decide_False by tauto. lia.
Qed.

Lemma sameTerms_refl d : sameTerms d d.
Proof. repeat split. Qed.

Lemma sameTerms_trans d1 d2 d3 : sameTerms d1 d2 -> sameTerms d2 d3 -> sameTerms d1 d3.
Proof. unfold sameTerms. intuition congruence. Qed.

Lemma sameTerms_set_claimed d h n : sameTerms d (Distribution.set_claimed d h n).
Proof. repeat split. Qed.

Lemma sameTerms_set_isCompleted d b : sameTerms d (Distribution.set_isCompleted d b).
Proof. repeat split. Qed.

Lemma batchLoop_Ok ctx id l : forall st st',
  batchLoop ctx id l st = Ok st' ->
  distributionCounter st' = distributionCounter st /\
  _paused st' = _paused st /\
  (forall i, i <> id -> distribution st' i = distribution st i) /\
  sameTerms (distribution st id) (distribution st' id) /\
  isCompleted st' id = isCompleted st id /\
  (forall h, hasClaimed st' id h = true <->
     hasClaimed st id h = true \/ (h ∈ l /\ 0 < allocationOf st id h)) /\
  (forall h, hasClaimed st id h = true -> paidCount st' id h = paidCount st id h).
Proof.
  induction l as [|a l IH]; intros st st' H; simpl in H.
  - injection H as <-. split_and!; auto using sameTerms_refl.
    intros h. split; [by left|]. intros [?|[Hin _]]; [assumption|]. inversion Hin.
  - destruct (getb (Distribution.claimed (distribution st id)) a) eqn:Hcl; simpl in H;
      [|destruct (0 <? get (Distribution.investorDistributions (distribution st id)) a)
          eqn:Hpos].
    + destruct (IH _ _ H) as (Hc & Hp & Hne & Hst & Hco & Hcl' & Hpd).
      split_and!; auto.
      intros h. split.
      * intros Hh. apply Hcl' in Hh as [?|[? ?]]; [by left|right].
        split; [apply elem_of_cons; by right|assumption].
      * intros [?|[Hin ?]]; apply Hcl'; [by left|].
        apply elem_of_cons in Hin as [->|?]; [by left|by right].
    + ok_inv H. apply rent_send_Ok in Hstep as [bal ->].
      apply N.ltb_lt in Hpos. subst x.
      change (batchLoop ctx id l (paid st id a bal) = Ok st') in H.
      destruct (IH _ _ H) as (Hc & Hp & Hne & Hst & Hco & Hcl' & Hpd).
      unfold isCompleted, hasClaimed, allocationOf in *.
      rewrite paid_distribution, decide_True in Hst, Hco, Hcl', Hpd by done.
      simpl in *.
      split_and!; auto.
      * intros i Hi. rewrite Hne, paid_distribution, decide_False by done. done.
      * intros h. split.
        -- intros Hh. apply Hcl' in Hh as [Hh|[? ?]].
           ++ destruct (decide (h = a)) as [->|Hha].
              ** right. split; [by left|assumption].
              ** rewrite getb_insert_ne in Hh by done. by left.
           ++ right. split; [apply elem_of_cons; by right|assumption].
        -- intros [Hh|[Hin ?]]; apply Hcl'.
           ++ left. destruct (decide (h = a)) as [->|Hha];
                [apply getb_insert_eq|by rewrite getb_insert_ne].
           ++ apply elem_of_cons in Hin as [->|?]; [left; apply getb_insert_eq|by right].
      * intros h Hh. rewrite Hpd.
        -- rewrite paid_paidCount. rewrite decide_False; [lia|].
           intros [_ ->]. congruence.
        -- destruct (decide (h = a)) as [->|Hha];
             [apply getb_insert_eq|by rewrite getb_insert_ne].
    + apply N.ltb_ge in Hpos.
      destruct (IH _ _ H) as (Hc & Hp & Hne & Hst & Hco & Hcl' & Hpd).
      split_and!; auto.
      intros h. split.
      * intros Hh. apply Hcl' in Hh as [?|[? ?]]; [by left|right].
        split; [apply elem_of_cons; by right|assumption].
      * intros [?|[Hin ?]]; apply Hcl'; [by left|].
        apply elem_of_cons in Hin as [->|?]; [|by right].
        unfold allocationOf in *. lia.
Qed.

Lemma batchLoop_Inv ctx id l : forall st st',
  Inv st -> batchLoop ctx id l st = Ok st' -> Inv st'.
Proof.
  induction l as [|a l IH]; intros st st' HI H; simpl in H.
  - by injection H as <-.
  - destruct (getb (Distribution.claimed (distribution st id)) a) eqn:Hcl; simpl in H;
      [|destruct (0 <? get (Distribution.investorDistributions (distribution st id)) a)
          eqn:Hpos]; [by eapply IH| |by eapply IH].
    ok_inv H. apply rent_send_Ok in Hstep as [bal ->].
    apply N.ltb_lt in Hpos. subst x.
    change (batchLoop ctx id l (paid st id a bal) = Ok st') in H.
    eapply IH; [|exact H]. by apply paid_Inv.
Qed.

(** *** The allocation loop *)

Lemma allocate_lookup token net D l : forall acc m,
  allocate token net D l acc = Ok m ->
  forall h,
    (h ∈ l /\ 0 < FractionalToken.balanceOf token h /\ D <> 0 /\
     m !! h = Some (net * FractionalToken.balanceOf token h / D))
    \/ (m !! h = acc !! h /\
        ~ (h ∈ l /\ 0 < FractionalToken.balanceOf token h)).
Proof.
  induction l as [|a l IH]; intros acc m H h; simpl in H.
  - injection H as <-. right. split; [reflexivity|]. intros [Hin _]. inversion Hin.
  - destruct (0 <? FractionalToken.balanceOf token a) eqn:Hpos.
    + apply N.ltb_lt in Hpos. ok_inv H. subst.
      destruct (IH _ _ H h) as [(Hin & ? & ? & ?)|[Hm Hn]].
      * left. split_and!; auto. apply elem_of_cons. by right.
      * destruct (decide (h = a)) as [->|Hne].
        -- left. rewrite lookup_insert_eq in Hm. split_and!; auto.
           apply elem_of_cons. by left.
        -- right. rewrite lookup_insert_ne in Hm by done. split; [assumption|].
           intros [Hin ?]. apply elem_of_cons in Hin as [?|?]; tauto.
    + apply N.ltb_ge in Hpos.
      destruct (IH _ _ H h) as [(Hin & ? & ? & ?)|[Hm Hn]].
      * left. split_and!; auto. apply elem_of_cons. by right.
      * right. split; [assumption|].
        intros [Hin ?]. apply elem_of_cons in Hin as [->|?]; [lia|tauto].
Qed.

Lemma sumMap_zero (m : gmap N N) : (forall k, get m k = 0) -> sumMap m = 0.
Proof.
  induction m as [|k v m Hk _ IH] using map_first_key_ind; intros Hz.
  - apply sumMap_empty.
  - rewrite sumMap_insert_fresh by assumption.
    pose proof (Hz k) as Hv. rewrite get_insert_eq in Hv. subst v.
    rewrite IH; [reflexivity|]. intros k'. specialize (Hz k').
    destruct (decide (k = k')) as [->|Hne].
    + unfold get. by rewrite Hk.
    + by rewrite get_insert_ne in Hz.
Qed.

Lemma get_delete_ne (m : gmap N N) (k k' : N) :
  k <> k' -> get (delete k m) k' = get m k'.
Proof. intros. unfold get. by rewrite lookup_delete_ne. Qed.

Lemma get_delete_eq (m : gmap N N) (k : N) : get (delete k m) k = 0.
Proof. unfold get. by rewrite lookup_delete_eq. Qed.

(** Floors of proportional parts never add up to more than the whole. *)
Lemma sumMap_scaled_le (net D : N) (m : gmap N N) : forall bals : gmap N N,
  (forall h v, m !! h = Some v -> v * D <= net * get bals h) ->
  sumMap m * D <= net * sumMap bals.
Proof.
  induction m as [|k v m Hk _ IH] using map_first_key_ind; intros bals Hm.
  - rewrite sumMap_empty. lia.
  - rewrite sumMap_insert_fresh by assumption.
    rewrite (sumMap_delete bals k).
    pose proof (Hm k v (lookup_insert_eq _ _ _)) as Hv.
    assert (IH' : sumMap m * D <= net * sumMap (delete k bals)).
    { apply IH. intros h w Hw.
      assert (k <> h) by congruence.
      rewrite get_delete_ne by assumption. apply Hm.
      by rewrite lookup_insert_ne. }
    lia.
Qed.

(** Each floor loses less than one unit, so when the parts cover the whole
    the total loss is below the number of parts. *)
Lemma sumMap_scaled_ge (net D : N) (m : gmap N N) : forall bals : gmap N N,
  (forall h v, m !! h = Some v -> net * get bals h + 1 <= (v + 1) * D) ->
  (forall h, 0 < get bals h -> is_Some (m !! h)) ->
  net * sumMap bals + N.of_nat (size m) <= (sumMap m + N.of_nat (size m)) * D.
Proof.
  induction m as [|k v m Hk _ IH] using map_first_key_ind; intros bals Hm Hcover.
  - rewrite sumMap_empty, map_size_empty. rewrite sumMap_zero; [simpl; lia|].
    intros h. destruct (N.eq_0_gt_0_cases (get bals h)) as [?|Hpos]; [assumption|].
    apply Hcover in Hpos as [? Hx]. by rewrite lookup_empty in Hx.
  - rewrite sumMap_insert_fresh, map_size_insert_None by assumption.
    rewrite (sumMap_delete bals k).
    pose proof (Hm k v (lookup_insert_eq _ _ _)) as Hv.
    assert (IH' : net * sumMap (delete k bals) + N.of_nat (size m)
                  <= (sumMap m + N.of_nat (size m)) * D).
    { apply IH.
      - intros h w Hw. assert (k <> h) by congruence.
        rewrite get_delete_ne by assumption. apply Hm. by rewrite lookup_insert_ne.
      - intros h Hpos. destruct (decide (k = h)) as [->|Hne].
        + rewrite get_delete_eq in Hpos. lia.
        + rewrite get_delete_ne in Hpos by assumption.
          apply Hcover in Hpos. by rewrite lookup_insert_ne in Hpos. }
    lia.
Qed.

Lemma createDistribution_Ok ctx w st pid g st' :
  createDistribution ctx w st pid g = Ok st' ->
  exists token allocs bal,
    let id := distributionCounter st in
    let pf := g * platformFeePercentage st / 10000 in
    let mf := g * managementFeePercentage st / 10000 in
    let net := g - pf - mf in
    let d0 := distribution st id in
    let investors := FractionalToken.getInvestors token in
    _paused st = false /\ 0 < g <= balance st /\ pf + mf <= g /\
    tokenAt w (get (propertyToToken st) pid) = Some token /\
    allocate token net (FractionalToken.totalSupply token) investors
      (Distribution.investorDistributions d0) = Ok allocs /\
    st' = emit
            (set_balance
               (set_distribution (set_distributionCounter st (id + 1)) id
                  (Distribution.mk pid (get (propertyToToken st) pid) g
                     (block_timestamp ctx) (FractionalToken.totalSupply token)
                     false allocs (Distribution.claimed d0) investors
                     (Distribution.totalDistributed d0) pf mf))
               bal)
            (DistributionCreated id pid net (N.of_nat (length investors))).
Proof.
  unfold createDistribution. intros H.
  apply bind_Ok in H as (? & _ & H).
  apply bind_Ok in H as (? & Hp & H). apply require_Ok, negb_true_iff in Hp.
  apply bind_Ok in H as (? & Hg & H). apply require_Ok, N.ltb_lt in Hg.
  apply bind_Ok in H as (? & Hb & H). apply require_Ok, N.leb_le in Hb.
  apply bind_Ok in H as (? & _ & H).
  apply bind_Ok in H as (sp & Hsp & H). apply mul_Ok in Hsp as [-> _].
  apply bind_Ok in H as (pf & Hpf & H). apply div_Ok in Hpf as [-> _].
  apply bind_Ok in H as (sm & Hsm & H). apply mul_Ok in Hsm as [-> _].
  apply bind_Ok in H as (mf & Hmf & H). apply div_Ok in Hmf as [-> _].
  apply bind_Ok in H as (ap & Hap & H). apply sub_Ok in Hap as [-> Hle1].
  apply bind_Ok in H as (net & Hnet & H). apply sub_Ok in Hnet as [-> Hle2].
  apply bind_Ok in H as (counter & Hc & H). apply add_Ok in Hc as [-> _].
  apply bind_Ok in H as (token & Htoken & H).
  apply bind_Ok in H as (allocs & Hallocs & H).
  apply bind_Ok in H as (st1 & Hs1 & H).
  apply bind_Ok in H as (property & _ & H).
  apply bind_Ok in H as (st2 & Hs2 & H).
  injection H as <-.
  destruct (tokenAt w (get (propertyToToken st) pid)) as [token'|];
    [injection Htoken as ->|discriminate].
  exists token, allocs.
  assert (Hsends : exists bal, st2 = set_balance
            (set_distribution (set_distributionCounter st (distributionCounter st + 1))
               (distributionCounter st)
               (Distribution.mk pid (get (propertyToToken st) pid) g
                  (block_timestamp ctx) (FractionalToken.totalSupply token)
                  false allocs (Distribution.claimed (distribution st (distributionCounter st)))
                  (FractionalToken.getInvestors token)
                  (Distribution.totalDistributed (distribution st (distributionCounter st)))
                  (g * platformFeePercentage st / 10000)
                  (g * managementFeePercentage st / 10000))) bal).
  { destruct (0 <? _) in Hs1; destruct (0 <? _) in Hs2;
      repeat match goal with
      | H : send _ _ _ _ = Ok _ |- _ => apply rent_send_Ok in H as [? ->]
      | H : Ok _ = Ok _ |- _ => injection H as <-
      end; eexists; reflexivity. }
  destruct Hsends as [bal ->]. exists bal.
  split_and!; try done; try lia.
Qed.

Lemma allocate_entries token net l m :
  allocate token net (FractionalToken.totalSupply token) l ∅ = Ok m ->
  forall h v, m !! h = Some v ->
    h ∈ l /\ 0 < FractionalToken.balanceOf token h /\
    FractionalToken.totalSupply token <> 0 /\
    v = net * FractionalToken.balanceOf token h / FractionalToken.totalSupply token.
Proof.
  intros H h v Hv.
  destruct (allocate_lookup _ _ _ _ _ _ H h) as [(? & ? & ? & Hm)|[Hm _]].
  - split_and!; auto. congruence.
  - rewrite lookup_empty in Hm. congruence.
Qed.

Lemma allocate_bounds token net l m :
  FractionalToken.Inv token ->
  allocate token net (FractionalToken.totalSupply token) l ∅ = Ok m ->
  sumMap m <= net /\
  (forall h, 0 < get m h -> h ∈ l) /\
  (fullySubscribed token -> l = FractionalToken.investors token ->
   net - sumMap m < N.of_nat (size m)).
Proof.
  intros [_ Hsum _ _ _ _ _] H.
  pose proof (allocate_entries _ _ _ _ H) as Hent.
  set (D := FractionalToken.totalSupply token) in *.
  unfold FractionalToken.totalSupply in D. fold D in Hsum.
  split_and!.
  - destruct (N.eq_dec D 0) as [HD|HD].
    + rewrite sumMap_zero; [lia|]. intros k. unfold get.
      destruct (m !! k) as [v|] eqn:Hk; [|reflexivity].
      apply Hent in Hk. tauto.
    + assert (Hle : sumMap m * D <= net * sumMap (FractionalToken._balances token)).
      { apply sumMap_scaled_le. intros h v Hv.
        apply Hent in Hv as (_ & _ & _ & ->).
        unfold FractionalToken.balanceOf.
        pose proof (N.Div0.mul_div_le (net * get (FractionalToken._balances token) h) D).
        lia. }
      rewrite Hsum in Hle. nia.
  - intros h Hpos. unfold get in Hpos.
    destruct (m !! h) as [v|] eqn:Hk; [|simpl in Hpos; lia].
    apply Hent in Hk. tauto.
  - intros [HD Hcover] ->. change (0 < D) in HD.
    assert (Hge : net * sumMap (FractionalToken._balances token) + N.of_nat (size m)
                  <= (sumMap m + N.of_nat (size m)) * D).
    { apply sumMap_scaled_ge.
      - intros h v Hv. apply Hent in Hv as (_ & _ & HD' & ->).
        unfold FractionalToken.balanceOf.
        pose proof (N.mul_succ_div_gt (net * get (FractionalToken._balances token) h) D HD').
        lia.
      - intros h Hpos.
        destruct (allocate_lookup _ _ _ _ _ _ H h) as [(_ & _ & _ & Hm)|[_ Hn]].
        + rewrite Hm. eauto.
        + exfalso. apply Hn. split; [|exact Hpos]. by apply Hcover. }
    rewrite Hsum in Hge.
    assert (size m <> 0%nat).
    { intros Hz. apply map_size_empty_inv in Hz. subst m.
      assert (sumMap (FractionalToken._balances token) = 0); [|lia].
      apply sumMap_zero. intros k.
      destruct (N.eq_0_gt_0_cases (get (FractionalToken._balances token) k)) as [?|Hpos];
        [assumption|].
      destruct (allocate_lookup _ _ _ _ _ _ H k) as [(_ & _ & _ & Hm)|[_ Hn]].
      - by rewrite lookup_empty in Hm.
      - exfalso. apply Hn. split; [|exact Hpos]. by apply Hcover. }
    nia.
Qed.

Lemma claimDistribution_Ok ctx st id st' :
  claimDistribution ctx st id = Ok st' ->
  _paused st = false /\ isCompleted st id = false /\
  hasClaimed st id (msg_sender ctx) = false /\
  0 < allocationOf st id (msg_sender ctx) /\
  exists bal, st' = _checkDistributionCompletion (paid st id (msg_sender ctx) bal) id.
Proof.
  unfold claimDistribution. intros H.
  apply bind_Ok in H as (? & Hp & H). apply require_Ok, negb_true_iff in Hp.
  apply bind_Ok in H as (? & Hc & H). apply require_Ok, negb_true_iff in Hc.
  apply bind_Ok in H as (? & Hcl & H). apply require_Ok, negb_true_iff in Hcl.
  apply bind_Ok in H as (? & Ha & H). apply require_Ok, N.ltb_lt in Ha.
  apply bind_Ok in H as (td & Htd & H). apply add_Ok in Htd as [-> _].
  apply bind_Ok in H as (st1 & Hs & H). apply rent_send_Ok in Hs as [bal ->].
  injection H as <-. split_and!; try assumption. by exists bal.
Qed.

Lemma batchDistribute_Ok ctx st id st' :
  batchDistribute ctx st id = Ok st' ->
  _owner st = msg_sender ctx /\ _paused st = false /\ isCompleted st id = false /\
  exists st1,
    batchLoop ctx id (Distribution.investors (distribution st id)) st = Ok st1 /\
    st' = _checkDistributionCompletion st1 id.
Proof.
  unfold batchDistribute. intros H.
  apply bind_Ok in H as (? & Ho & H). apply require_Ok, N.eqb_eq in Ho.
  apply bind_Ok in H as (? & Hp & H). apply require_Ok, negb_true_iff in Hp.
  apply bind_Ok in H as (? & Hc & H). apply require_Ok, negb_true_iff in Hc.
  apply bind_Ok in H as (st1 & Hs & H). injection H as <-.
  split_and!; try assumption. by exists st1.
Qed.

Ltac rent_norm :=
  repeat match goal with
  | H : Ok _ = Ok _ |- _ => injection H as H
  | H : (if ?c then _ else _) = Ok _ |- _ => destruct c eqn:?
  | H : _ = Ok _ |- _ => progress ok_inv H
  | H : send _ _ _ _ = Ok _ |- _ => apply rent_send_Ok in H as [? ->]
  | H : onlyPropertyOwner _ _ _ = Ok _ |- _ => clear H
  | H : whenNotPaused _ = Ok _ |- _ => apply require_Ok in H
  | H : whenPaused _ = Ok _ |- _ => apply require_Ok in H
  | H : onlyOwner _ _ = Ok _ |- _ => apply require_Ok in H
  | H : require _ _ = Ok _ |- _ => apply require_Ok in H
  end.

Lemma rent_exec_Inv ctx w st c st' :
  sound w -> Inv st -> exec ctx w st c = Ok st' -> Inv st'.
Proof.
  intros Hw HI H.
  destruct c; simpl in H;
    try (apply (sameLedger_Inv st); [|assumption];
         unfold registerFractionalToken, depositRent, updateFees, emergencyWithdraw,
           pause, unpause, transferOwnership, renounceOwnership, receive in H;
         rent_norm; subst; split_and!; try reflexivity;
         intros; unfold paidCount; simpl; rewrite ?countPayouts_snoc; simpl;
         solve [lia | split_and!; reflexivity]).
  - apply createDistribution_Ok in H
      as (token & allocs & bal & Hp & Hg & Hfee & Htoken & Hallocs & ->).
    destruct HI as [Hfresh Hlisted Halloc Hpaid].
    destruct (Hfresh (distributionCounter st) (N.le_refl _)) as (He & Hcl & _).
    rewrite He in Hallocs.
    destruct (allocate_bounds token _ _ _
                (FractionalTokenFacts.token_reachable_Inv _ _ (Hw _ _ Htoken)) Hallocs)
      as (Hsum & Hin & _).
    constructor; unfold allocationOf, hasClaimed, allocated, paidCount in *.
    + intros id Hid. simpl in Hid.
      rewrite distribution_emit, distribution_set_balance, distribution_set_ne by lia.
      apply Hfresh. lia.
    + intros id h. rewrite distribution_emit, distribution_set_balance.
      destruct (decide (distributionCounter st = id)) as [<-|Hne].
      * rewrite distribution_set_eq. simpl. apply Hin.
      * rewrite distribution_set_ne by assumption. apply Hlisted.
    + intros id. rewrite distribution_emit, distribution_set_balance.
      destruct (decide (distributionCounter st = id)) as [<-|Hne].
      * rewrite distribution_set_eq. unfold netAmount. simpl. exact Hsum.
      * rewrite distribution_set_ne by assumption. apply Halloc.
    + intros id h. simpl. rewrite countPayouts_snoc. simpl. rewrite N.add_0_r.
      change (distribution (emit ?s _) id) with (distribution s id).
      rewrite distribution_set_balance.
      destruct (decide (distributionCounter st = id)) as [<-|Hne].
      * rewrite distribution_set_eq. simpl. apply Hpaid.
      * rewrite distribution_set_ne by assumption. apply Hpaid.
  - apply claimDistribution_Ok in H as (_ & _ & Hcl & Hpos & bal & ->).
    eapply sameLedger_Inv; [apply check_sameLedger|]. by apply paid_Inv.
  - apply batchDistribute_Ok in H as (_ & _ & _ & st1 & Hloop & ->).
    eapply sameLedger_Inv; [apply check_sameLedger|].
    eapply batchLoop_Inv; eassumption.
Qed.

Lemma rent_constructor_Inv ctx this : Inv (constructor ctx this).
Proof.
  constructor; unfold allocationOf, hasClaimed, allocated, paidCount; simpl;
    intros; done.
Qed.

Lemma rent_reachable_Inv st : reachable st -> Inv st.
Proof.
  induction 1; [apply rent_constructor_Inv | eapply rent_exec_Inv; eassumption].
Qed.

Lemma allClaimed_spec d l :
  allClaimed d l = true <->
  forall h, h ∈ l -> 0 < get (Distribution.investorDistributions d) h ->
    getb (Distribution.claimed d) h = true.
Proof.
  induction l as [|a l IH]; simpl.
  - split; [|reflexivity]. intros _ h Hin. inversion Hin.
  - destruct (N.ltb_spec 0 (get (Distribution.investorDistributions d) a)) as [Hpos|Hz];
      destruct (getb (Distribution.claimed d) a) eqn:Hcl; simpl.
    + rewrite IH. split; intros H h Hin.
      * apply elem_of_cons in Hin as [->|?]; auto.
      * apply H, elem_of_cons. by right.
    + split; [discriminate|]. intros H.
      rewrite <- Hcl. apply H; [apply elem_of_cons; by left|assumption].
    + rewrite IH. split; intros H h Hin.
      * apply elem_of_cons in Hin as [->|?]; auto.
      * apply H, elem_of_cons. by right.
    + rewrite IH. split; intros H h Hin.
      * apply elem_of_cons in Hin as [->|?]; [lia|auto].
      * apply H, elem_of_cons. by right.
Qed.

Lemma check_sameTerms st id i :
  sameTerms (distribution st i) (distribution (_checkDistributionCompletion st id) i).
Proof.
  rewrite check_distribution. case_decide; subst;
    [apply sameTerms_set_isCompleted | apply sameTerms_refl].
Qed.

Lemma check_isCompleted_mono st id i :
  isCompleted st i = true -> isCompleted (_checkDistributionCompletion st id) i = true.
Proof.
  unfold isCompleted. rewrite check_distribution. case_decide; subst; [|done].
  simpl. intros ->. apply orb_true_r.
Qed.

Lemma exec_frame ctx w st c st' id :
  exec ctx w st c = Ok st' -> id < distributionCounter st ->
  distributionCounter st <= distributionCounter st' /\
  sameTerms (distribution st id) (distribution st' id) /\
  (isCompleted st id = true -> isCompleted st' id = true).
Proof.
  intros H Hid.
  destruct c; simpl in H;
    try (unfold registerFractionalToken, depositRent, updateFees, emergencyWithdraw,
           pause, unpause, transferOwnership, renounceOwnership, receive in H;
         rent_norm; subst; split_and!; [reflexivity | apply sameTerms_refl | done]).
  - apply createDistribution_Ok in H
      as (token & allocs & bal & Hp & Hg & Hfee & Htoken & Hallocs & ->).
    unfold isCompleted.
    rewrite distribution_emit, distribution_set_balance, distribution_set_ne by lia.
    simpl. split_and!; [lia | apply sameTerms_refl | done].
  - apply claimDistribution_Ok in H as (_ & _ & Hcl & Hpos & bal & ->).
    rewrite check_counter. split_and!.
    + simpl. lia.
    + eapply sameTerms_trans; [|apply check_sameTerms].
      rewrite paid_distribution. case_decide; subst;
        [apply sameTerms_set_claimed | apply sameTerms_refl].
    + intros Hc. apply check_isCompleted_mono. unfold isCompleted in *.
      rewrite paid_distribution. case_decide; subst; assumption.
  - apply batchDistribute_Ok in H as (_ & _ & _ & st1 & Hloop & ->).
    apply batchLoop_Ok in Hloop as (Hc & _ & Hne & Hst & Hco & _ & _).
    rewrite check_counter, Hc. split_and!.
    + lia.
    + eapply sameTerms_trans; [|apply check_sameTerms].
      destruct (decide (id = distributionId)) as [->|Hd];
        [assumption | rewrite Hne by assumption; apply sameTerms_refl].
    + intros Hcomp. apply check_isCompleted_mono.
      destruct (decide (id = distributionId)) as [->|Hd]; [congruence|].
      unfold isCompleted in *. by rewrite Hne.
Qed.

Lemma steps_frame st st' id :
  steps st st' -> id < distributionCounter st ->
  distributionCounter st <= distributionCounter st' /\
  sameTerms (distribution st id) (distribution st' id) /\
  (isCompleted st id = true -> isCompleted st' id = true).
Proof.
  induction 1 as [st|ctx w st st' c st'' _ IH He]; intros Hid.
  - split_and!; [lia | apply sameTerms_refl | done].
  - destruct (IH Hid) as (Hc & Hst & Hm).
    destruct (exec_frame _ _ _ _ _ id He) as (Hc' & Hst' & Hm'); [lia|].
    split_and!; [lia | eapply sameTerms_trans; eassumption | auto].
Qed.


(** C3.  Fee exactness: a distribution created with gross amount [g] stores
    platformFee = floor(g * platformFeeBP / 10000) and
    managerFee = floor(g * managerFeeBP / 10000), announces
    netAmount = g - platformFee - managerFee, and the three add up to [g]
    exactly; no later transaction changes any of them. *)
Theorem fee_exactness ctx w st pid g st' st'' :
  createDistribution ctx w st pid g = Ok st' ->
  steps st' st'' ->
  let id := distributionCounter st in
  let d := distribution st' id in
  let d'' := distribution st'' id in
  Distribution.totalRentCollected d = g /\
  Distribution.platformFee d = g * platformFeePercentage st / 10000 /\
  Distribution.propertyOwnerFee d = g * managementFeePercentage st / 10000 /\
  last (events st')
    = Some (DistributionCreated id pid (netAmount d)
              (N.of_nat (length (Distribution.investors d)))) /\
  Distribution.platformFee d + Distribution.propertyOwnerFee d + netAmount d = g /\
  Distribution.totalRentCollected d'' = Distribution.totalRentCollected d /\
  Distribution.platformFee d'' = Distribution.platformFee d /\
  Distribution.propertyOwnerFee d'' = Distribution.propertyOwnerFee d /\
  netAmount d'' = netAmount d.
Proof.
  intros Hc Hs id d d''.
  assert (Hframe : sameTerms d d'').
  { apply (steps_frame st' st'' id Hs).
    apply createDistribution_Ok in Hc as (? & ? & ? & _ & _ & _ & _ & _ & ->).
    simpl. subst id. lia. }
  apply createDistribution_Ok in Hc
    as (token & allocs & bal & Hp & Hg & Hfee & Htoken & Hallocs & ->).
  subst d d''. revert Hframe.
  rewrite distribution_emit, distribution_set_balance, distribution_set_eq.
  unfold sameTerms, netAmount. simpl.
  intros (_ & _ & -> & _ & _ & _ & _ & -> & ->).
  cbv zeta in Hfee. clear Hallocs Hs.
  generalize dependent (g * platformFeePercentage st / 10000).
  generalize dependent (g * managementFeePercentage st / 10000).
  intros mf pf Hfee. split_and!; try reflexivity.
  - by rewrite last_snoc.
  - lia.
Qed.

(** C5.  Completion: the [isCompleted] flag of an existing distribution, once
    true, stays true; after a successful [claimDistribution] or
    [batchDistribute] it is true exactly when every holder with a positive
    allocation has claimed; and the completion check leaves a completed
    distribution as it is. *)
Theorem completion_monotone_and_exact st id :
  reachable st ->
  (forall st', steps st st' -> id < distributionCounter st ->
     isCompleted st id = true -> isCompleted st' id = true) /\
  (forall ctx w c st',
     sound w ->
     c = call_claimDistribution id \/ c = call_batchDistribute id ->
     exec ctx w st c = Ok st' ->
     (isCompleted st' id = true <->
      forall h, 0 < allocationOf st' id h -> hasClaimed st' id h = true)) /\
  (isCompleted st id = true -> _checkDistributionCompletion st id = st).
Proof.
  intros Hr. split_and!.
  - intros st' Hs Hid. by apply steps_frame.
  - intros ctx w c st' Hw Hc He.
    assert (HI' : Inv st').
    { eapply rent_exec_Inv; [exact Hw | by apply rent_reachable_Inv | exact He]. }
    assert (Hpre : exists st1,
               st' = _checkDistributionCompletion st1 id /\ isCompleted st1 id = false).
    { destruct Hc as [-> | ->]; simpl in He.
      - apply claimDistribution_Ok in He as (_ & Hco & _ & _ & bal & ->).
        eexists. split; [reflexivity|]. unfold isCompleted in *.
        rewrite paid_distribution, decide_True by done. exact Hco.
      - apply batchDistribute_Ok in He as (_ & _ & Hco & st1 & Hloop & ->).
        exists st1. split; [reflexivity|].
        apply batchLoop_Ok in Hloop as (_ & _ & _ & _ & -> & _). exact Hco. }
    destruct Hpre as (st1 & -> & Hco).
    pose proof (inv_listed _ HI' id) as Hlisted. revert Hlisted.
    unfold isCompleted, allocationOf, hasClaimed in *.
    rewrite check_distribution, decide_True by done. simpl.
    rewrite Hco, orb_false_r, allClaimed_spec. intros Hlisted.
    split; intros H h; [intros Hpos; apply H; auto | intros _; apply H].
  - intros Hc. unfold _checkDistributionCompletion. unfold isCompleted in Hc.
    by rewrite Hc, andb_false_r.
Qed.

Lemma claimDistribution_claimed ctx st id :
  hasClaimed st id (msg_sender ctx) = true ->
  claimDistribution ctx st id
  = Revert (if _paused st then Paused
            else if isCompleted st id then AlreadyCompleted else AlreadyClaimed).
Proof.
  unfold claimDistribution, whenNotPaused, hasClaimed, isCompleted. intros Hcl.
  destruct (_paused st); [reflexivity|]. simpl.
  destruct (Distribution.isCompleted _); [reflexivity|]. simpl.
  by rewrite Hcl.
Qed.

(** C6 (as amended).  No double payout: no holder is ever paid more than
    once out of a distribution.  Once a holder is marked claimed, a further
    [claimDistribution] of theirs reverts and changes nothing; the reason is
    the first failing check in source order, [Paused], then
    [AlreadyCompleted], then [AlreadyClaimed].  A [batchDistribute] pass
    skips them: they stay claimed and are not paid again. *)
Theorem no_double_payout st id h :
  reachable st ->
  paidCount st id h <= 1 /\
  (hasClaimed st id h = true ->
   (forall ctx, msg_sender ctx = h ->
      claimDistribution ctx st id
      = Revert (if _paused st then Paused
                else if isCompleted st id then AlreadyCompleted else AlreadyClaimed)
      /\ forall w, run ctx w st (call_claimDistribution id) = st) /\
   (forall ctx st', batchDistribute ctx st id = Ok st' ->
      paidCount st' id h = paidCount st id h /\ hasClaimed st' id h = true)).
Proof.
  intros Hr. split.
  - rewrite (inv_paid _ (rent_reachable_Inv _ Hr)). destruct (hasClaimed st id h); lia.
  - intros Hcl. split.
    + intros ctx <-. pose proof (claimDistribution_claimed ctx st id Hcl) as He.
      split; [exact He|]. intros w. unfold run. simpl. by rewrite He.
    + intros ctx st' Hb.
      apply batchDistribute_Ok in Hb as (_ & _ & _ & st1 & Hloop & ->).
      apply batchLoop_Ok in Hloop as (_ & _ & _ & _ & _ & Hcl' & Hpd).
      rewrite check_paidCount. split; [by apply Hpd|].
      unfold hasClaimed. rewrite check_distribution, decide_True by done. simpl.
      apply Hcl'. by left.
Qed.

Import RentDistributionAudit.

Lemma rent_send_exact ctx st to amount st' :
  send ctx st to amount = Ok st' ->
  amount <= balance st /\ accepts ctx to = true /\
  st' = (if to =? self st then st else set_balance st (balance st - amount)).
Proof.
  unfold send. intros H.
  apply bind_Ok in H as (? & Hb & H). apply require_Ok, N.leb_le in Hb.
  apply bind_Ok in H as (? & Ha & H). apply require_Ok in Ha.
  injection H as <-. auto.
Qed.

Lemma check_balance st id : balance (_checkDistributionCompletion st id) = balance st.
Proof. unfold _checkDistributionCompletion. by destruct (_ && _). Qed.

(** *** The payout loop *)

Lemma sumWhere_insert_fresh P (m : gmap N N) k v :
  m !! k = None ->
  sumWhere P (<[k := v]> m) = (if P k then v else 0) + sumWhere P m.
Proof.
  intros Hk. unfold sumWhere.
  rewrite (map_fold_insert_L (fun h v acc => if P h then v + acc else acc));
    [|intros; repeat case_match; lia|exact Hk].
  destruct (P k); lia.
Qed.

Lemma sumWhere_ext P Q (m : gmap N N) :
  (forall h, 0 < get m h -> P h = Q h) -> sumWhere P m = sumWhere Q m.
Proof.
  induction m as [|k v m Hk _ IH] using map_first_key_ind; intros H; [reflexivity|].
  rewrite !sumWhere_insert_fresh by done. rewrite IH.
  - destruct (N.eq_dec v 0) as [->|Hv]; [by destruct (P k), (Q k)|].
    rewrite (H k); [done|]. rewrite get_insert_eq. lia.
  - intros h Hh. apply H. destruct (decide (k = h)) as [->|Hne].
    + unfold get in Hh. rewrite Hk in Hh. simpl in Hh. lia.
    + by rewrite get_insert_ne.
Qed.

Lemma sumWhere_none P (m : gmap N N) :
  (forall h, 0 < get m h -> P h = false) -> sumWhere P m = 0.
Proof.
  intros H. rewrite (sumWhere_ext P (fun _ => false)) by done.
  clear H. induction m as [|k v m Hk _ IH] using map_first_key_ind; [reflexivity|].
  rewrite sumWhere_insert_fresh by done. rewrite IH. reflexivity.
Qed.

Lemma sumWhere_take P Q (m : gmap N N) a :
  P a = true -> Q a = false -> (forall h, h <> a -> P h = Q h) ->
  sumWhere P m = get m a + sumWhere Q m.
Proof.
  intros Ha Hqa Hne.
  induction m as [|k v m Hk _ IH] using map_first_key_ind; [reflexivity|].
  rewrite !sumWhere_insert_fresh, IH by done.
  destruct (decide (k = a)) as [->|Hd].
  - rewrite Ha, Hqa, get_insert_eq. unfold get. rewrite Hk. simpl. lia.
  - rewrite get_insert_ne, (Hne k) by done. destruct (Q k); lia.
Qed.

Lemma batchLoop_pays ctx id l : forall st st',
  batchLoop ctx id l st = Ok st' ->
  (forall h, h ∈ l -> hasClaimed st id h = false -> 0 < allocationOf st id h ->
     accepts ctx h = true /\
     paidCount st' id h = paidCount st id h + 1 /\
     RentDistributed id h (allocationOf st id h) ∈ events st') /\
  (forall e, e ∈ events st -> e ∈ events st') /\
  Distribution.totalDistributed (distribution st' id)
    = Distribution.totalDistributed (distribution st id)
      + owedTo l (distribution st id) /\
  (self st ∉ l -> balance st' + owedTo l (distribution st id) = balance st).
Proof.
  induction l as [|a l IH]; intros st st' H; simpl in H.
  - injection H as <-. split_and!; try done.
    + intros h Hin. inversion Hin.
    + unfold owedTo. rewrite sumWhere_none; [lia|]. intros h _.
      rewrite bool_decide_eq_false_2 by (by intros ?%elem_of_nil).
      by rewrite andb_false_r.
    + intros _. unfold owedTo. rewrite sumWhere_none; [lia|]. intros h _.
      rewrite bool_decide_eq_false_2 by (by intros ?%elem_of_nil).
      by rewrite andb_false_r.
  - destruct (getb (Distribution.claimed (distribution st id)) a) eqn:Hcl; simpl in H;
      [|destruct (0 <? get (Distribution.investorDistributions (distribution st id)) a)
          eqn:Hpos].
    + (* already claimed *)
      destruct (IH _ _ H) as (Hpay & Hev & Htd & Hbal).
      assert (Hsame : owedTo (a :: l) (distribution st id) = owedTo l (distribution st id)).
      { unfold owedTo. apply sumWhere_ext. intros h _.
        destruct (decide (h = a)) as [->|Hne]; [by rewrite Hcl|].
        f_equal. apply bool_decide_ext. rewrite elem_of_cons.
        split; [intros [?|?]; [congruence|done]|by right]. }
      rewrite Hsame. split_and!; auto.
      * intros h Hin Hn Hp. apply Hpay; auto.
        apply elem_of_cons in Hin as [->|?]; [|done].
        unfold hasClaimed in Hn. congruence.
      * intros Hs. apply Hbal. intros ?. apply Hs, elem_of_cons. by right.
    + (* paid now *)
      apply bind_Ok in H as (td & Htd & H). apply add_Ok in Htd as [-> _].
      apply bind_Ok in H as (st1 & Hs & H).
      apply rent_send_exact in Hs as (Hle & Hacc & ->).
      apply N.ltb_lt in Hpos. simpl in Hle.
      set (bal := if a =? self st then balance st
                  else balance st - get (Distribution.investorDistributions
                                           (distribution st id)) a).
      assert (Heq : batchLoop ctx id l (paid st id a bal) = Ok st').
      { rewrite <- H. unfold paid, bal. f_equal. simpl.
        destruct (a =? self st); [|reflexivity].
        unfold set_distribution, set_distributions, emit, set_balance. by destruct st. }
      clear H. destruct (IH _ _ Heq) as (Hpay & Hev & Htd & Hbal).
      assert (Hsplit : owedTo (a :: l) (distribution st id)
                       = allocationOf st id a
                         + owedTo l (distribution (paid st id a bal) id)).
      { unfold owedTo, allocationOf. rewrite paid_distribution, decide_True by done.
        simpl. apply sumWhere_take.
        - rewrite Hcl. simpl. apply bool_decide_eq_true_2, elem_of_cons. by left.
        - by rewrite getb_insert_eq.
        - intros h Hne. rewrite getb_insert_ne by done. f_equal.
          apply bool_decide_ext. rewrite elem_of_cons.
          split; [intros [?|?]; [congruence|done]|by right]. }
      assert (Hclaimed : hasClaimed (paid st id a bal) id a = true).
      { unfold hasClaimed. rewrite paid_distribution, decide_True by done.
        simpl. by rewrite getb_insert_eq. }
      assert (Hev1 : forall e, e ∈ events st -> e ∈ events (paid st id a bal)).
      { intros e He. unfold paid. simpl. apply elem_of_app. by left. }
      split_and!.
      * intros h Hin Hn Hp. destruct (decide (h = a)) as [->|Hne].
        -- split; [exact Hacc|]. split.
           ++ apply batchLoop_Ok in Heq as (_ & _ & _ & _ & _ & _ & Hkeep).
              rewrite (Hkeep a Hclaimed), paid_paidCount, decide_True by done. done.
           ++ apply Hev. unfold paid. simpl. apply elem_of_app. right.
              by apply list_elem_of_singleton.
        -- apply elem_of_cons in Hin as [?|Hin]; [done|].
           assert (Ha : allocationOf (paid st id a bal) id h = allocationOf st id h).
           { unfold allocationOf. by rewrite paid_distribution, decide_True. }
           destruct (Hpay h Hin) as (? & Hpc & Hin').
           { unfold hasClaimed in *. rewrite paid_distribution, decide_True by done.
             simpl. by rewrite getb_insert_ne. }
           { by rewrite Ha. }
           rewrite Ha in Hin'. split_and!; [done| |done].
           rewrite Hpc, paid_paidCount, decide_False by (intros [_ ?]; congruence).
           lia.
      * intros e He. by apply Hev, Hev1.
      * rewrite Htd, Hsplit, paid_distribution, decide_True by done.
        unfold allocationOf. simpl. lia.
      * intros Hs. rewrite Hsplit.
        assert (Hns : a <> self st) by (intros ->; apply Hs, elem_of_cons; by left).
        assert (Hl : self (paid st id a bal) ∉ l)
          by (intros ?; apply Hs, elem_of_cons; by right).
        specialize (Hbal Hl).
        assert (Hb1 : balance (paid st id a bal) = bal) by reflexivity.
        rewrite Hb1, paid_distribution in Hbal. rewrite paid_distribution.
        unfold bal in Hbal. rewrite (proj2 (N.eqb_neq _ _) Hns) in Hbal.
        unfold allocationOf in *. lia.
    + (* nothing allocated *)
      destruct (IH _ _ H) as (Hpay & Hev & Htd & Hbal).
      apply N.ltb_ge in Hpos.
      assert (Hsame : owedTo (a :: l) (distribution st id) = owedTo l (distribution st id)).
      { unfold owedTo. apply sumWhere_ext. intros h Hh.
        destruct (decide (h = a)) as [->|Hne]; [lia|].
        f_equal. apply bool_decide_ext. rewrite elem_of_cons.
        split; [intros [?|?]; [congruence|done]|by right]. }
      rewrite Hsame. split_and!; auto.
      * intros h Hin Hn Hp. apply Hpay; auto.
        apply elem_of_cons in Hin as [->|?]; [|done].
        unfold allocationOf in Hp. lia.
      * intros Hs. apply Hbal. intros ?. apply Hs, elem_of_cons. by right.
Qed.

Lemma check_events st id e :
  e ∈ events st -> e ∈ events (_checkDistributionCompletion st id).
Proof.
  intros He. unfold _checkDistributionCompletion.
  destruct (_ && _); simpl; [|done]. apply elem_of_app. by left.
Qed.

(** C8 (as amended).  Batch settlement: [batchDistribute] takes the
    distribution id alone and walks the whole investor list in one call (it
    is the specification's slice taken from offset 0 over the full length).
    It claims and pays every unclaimed positive allocation: each such holder
    accepts the transfer, is paid exactly once and announced by
    [RentDistributed] with the allocation as amount; [totalDistributed] rises
    by the sum of those allocations, the contract's balance falls by it, and
    nothing is left outstanding.  Then the completion check runs, which
    completes the distribution. *)
Theorem batchDistribute_settles_whole_list ctx st id st' :
  batchDistribute ctx st id = Ok st' ->
  batchDistribute ctx st id
  = spec_batchDistribute ctx st id 0
      (N.of_nat (length (Distribution.investors (distribution st id)))) /\
  (forall h, h ∈ Distribution.investors (distribution st id) ->
     0 < allocationOf st id h -> hasClaimed st' id h = true) /\
  isCompleted st' id = true /\
  (forall h, h ∈ Distribution.investors (distribution st id) ->
     hasClaimed st id h = false -> 0 < allocationOf st id h ->
     accepts ctx h = true /\
     paidCount st' id h = paidCount st id h + 1 /\
     RentDistributed id h (allocationOf st id h) ∈ events st') /\
  Distribution.totalDistributed (distribution st' id)
    = Distribution.totalDistributed (distribution st id)
      + outstanding (distribution st id) /\
  (self st ∉ Distribution.investors (distribution st id) ->
   balance st' + outstanding (distribution st id) = balance st) /\
  outstanding (distribution st' id) = 0.
Proof.
  intros Hb. split_and!.
  - unfold spec_batchDistribute, batchDistribute.
    by rewrite Nat2N.id, firstn_all.
  - apply batchDistribute_Ok in Hb as (_ & _ & _ & st1 & Hloop & ->).
    apply batchLoop_Ok in Hloop as (_ & _ & _ & _ & _ & Hcl' & _).
    intros h Hin Hpos. unfold hasClaimed.
    rewrite check_distribution, decide_True by done. simpl. apply Hcl'. by right.
  - apply batchDistribute_Ok in Hb as (_ & _ & _ & st1 & Hloop & ->).
    apply batchLoop_Ok in Hloop as (_ & _ & _ & Hst & _ & Hcl' & _).
    unfold isCompleted. rewrite check_distribution, decide_True by done. simpl.
    apply orb_true_iff. left. apply allClaimed_spec.
    destruct Hst as (_ & _ & _ & _ & _ & Ha & Hi & _).
    rewrite Ha, Hi. intros h Hin Hpos. apply Hcl'. by right.
  - apply batchDistribute_Ok in Hb as (_ & _ & _ & st1 & Hloop & ->).
    apply batchLoop_pays in Hloop as (Hpay & _).
    intros h Hin Hn Hpos. destruct (Hpay h Hin Hn Hpos) as (Hacc & Hpc & Hev).
    split_and!; [exact Hacc|by rewrite check_paidCount|by apply check_events].
  - apply batchDistribute_Ok in Hb as (_ & _ & _ & st1 & Hloop & ->).
    apply batchLoop_pays in Hloop as (_ & _ & Htd & _).
    rewrite check_distribution, decide_True by done. simpl. exact Htd.
  - apply batchDistribute_Ok in Hb as (_ & _ & _ & st1 & Hloop & ->).
    apply batchLoop_pays in Hloop as (_ & _ & _ & Hbal).
    intros Hs. rewrite check_balance. by apply Hbal.
  - apply batchDistribute_Ok in Hb as (_ & _ & _ & st1 & Hloop & ->).
    apply batchLoop_Ok in Hloop as (_ & _ & _ & Hst & _ & Hcl' & _).
    destruct Hst as (_ & _ & _ & _ & _ & Ha & Hi & _).
    rewrite check_distribution, decide_True by done.
    unfold outstanding, owedTo. simpl. apply sumWhere_none.
    intros h Hpos. rewrite Hi.
    destruct (decide (h ∈ Distribution.investors (distribution st id))) as [Hin|Hnin].
    + rewrite Ha in Hpos.
      assert (Hc : hasClaimed st1 id h = true) by (apply Hcl'; by right).
      unfold hasClaimed in Hc. by rewrite Hc.
    + rewrite bool_decide_eq_false_2 by done. by rewrite andb_false_r.
Qed.

(** C2 (as amended).  Bounded rounding loss: every distribution allocates
    at most its net amount.  Each allocation written at creation is
    floor(netAmount * balance / shareDenominator), the denominator being the
    token's total supply at that moment; and when every share is held by a
    registered investor, the dust is strictly below the number of holders
    that received an allocation entry. *)
Theorem allocation_bound st :
  reachable st ->
  (forall id, allocated (distribution st id) <= netAmount (distribution st id)) /\
  (forall ctx w pid g st' token,
     sound w ->
     createDistribution ctx w st pid g = Ok st' ->
     tokenAt w (get (propertyToToken st) pid) = Some token ->
     let d := distribution st' (distributionCounter st) in
     Distribution.totalTokensAtDistribution d = FractionalToken.totalSupply token /\
     (forall h v, Distribution.investorDistributions d !! h = Some v ->
        v = netAmount d * FractionalToken.balanceOf token h
            / Distribution.totalTokensAtDistribution d) /\
     allocated d <= netAmount d /\
     (fullySubscribed token -> dust d < allocationEntries d)).
Proof.
  intros Hr. split; [apply (rent_reachable_Inv _ Hr)|].
  intros ctx w pid g st' token Hw Hc Htoken d.
  assert (HI' : Inv st').
  { eapply rent_exec_Inv; [exact Hw | by apply rent_reachable_Inv |].
    exact (Hc : exec ctx w st (call_createDistribution pid g) = Ok st'). }
  pose proof (inv_allocated _ HI' (distributionCounter st)) as Hle.
  destruct (inv_fresh _ (rent_reachable_Inv _ Hr) (distributionCounter st) (N.le_refl _))
    as (He & _ & _).
  apply createDistribution_Ok in Hc
    as (token' & allocs & bal & Hp & Hg & Hfee & Htoken' & Hallocs & ->).
  rewrite Htoken in Htoken'. injection Htoken' as <-.
  rewrite He in Hallocs. subst d. revert Hle.
  rewrite distribution_emit, distribution_set_balance, distribution_set_eq.
  unfold dust, allocationEntries, allocated, netAmount. simpl. intros Hle.
  destruct (allocate_bounds token _ _ _
              (FractionalTokenFacts.token_reachable_Inv _ _ (Hw _ _ Htoken)) Hallocs)
    as (_ & _ & Hdust).
  split_and!; [reflexivity | | exact Hle | by intros Hfull; apply Hdust].
  intros h v Hv. by apply (allocate_entries _ _ _ _ Hallocs) in Hv as (_ & _ & _ & ->).
Qed.


Lemma send_ledger_blind ctx st m to amount :
  send ctx (set_totalRentCollected st m) to amount
  = st' ← send ctx st to amount ; Ok (set_totalRentCollected st' m).
Proof.
  unfold send. simpl.
  destruct (amount <=? balance st); simpl; [|reflexivity].
  destruct (accepts ctx to); simpl; [|reflexivity].
  by destruct (to =? self st).
Qed.

Ltac blind_send m :=
  match goal with
  | |- _ = ?rhs =>
      match rhs with
      | context [send ?ctx ?X ?to ?a] =>
          change (send ctx _ to a) with (send ctx (set_totalRentCollected X m) to a) at 1;
          rewrite (send_ledger_blind ctx X m to a);
          destruct (send ctx X to a)
      end
  end.

Ltac blind m :=
  simpl;
  first
    [ reflexivity
    | match goal with
      | |- context [if ?c then _ else _] => destruct c
      end; blind m
    | blind_send m; blind m ].

(** [createDistribution] neither reads nor writes the per-property rent
    ledger. *)
Lemma createDistribution_ledger_blind ctx w st pid g m :
  createDistribution ctx w (set_totalRentCollected st m) pid g
  = st' ← createDistribution ctx w st pid g ; Ok (set_totalRentCollected st' m).
Proof.
  unfold createDistribution, whenNotPaused, distribution. simpl.
  repeat match goal with
  | |- context [mbind _ ?c] =>
      lazymatch c with
      | context [mbind] => fail
      | context [send] => fail
      | _ => destruct c; simpl; try reflexivity
      end
  end.
  all: blind m.
Qed.

Import Scenario.

Lemma world_sound : sound world.
Proof.
  intros a token H. unfold world in H. simpl in H.
  destruct (a =? tokenAddress); [injection H as <-|discriminate].
  by apply FractionalTokenFacts.tokenSold_reachable.
Qed.

Lemma worldPartlySold_sound : sound worldPartlySold.
Proof.
  intros a token H. unfold worldPartlySold in H. simpl in H.
  destruct (a =? tokenAddress); [injection H as <-|discriminate].
  by apply FractionalTokenFacts.tokenAlice_reachable.
Qed.

Lemma worldTwo_sound : sound worldTwo.
Proof.
  intros a token H. unfold worldTwo in H. simpl in H.
  destruct (a =? tokenAddress); [injection H as <-|].
  - by apply FractionalTokenFacts.tokenSold_reachable.
  - destruct (a =? tokenAddress2); [injection H as <-|discriminate].
    apply FractionalTokenFacts.tokenOther_reachable.
Qed.

Lemma rentRegistered_reachable : reachable rentRegistered.
Proof.
  eapply (reachable_step (asUser operator) world rentDeployed
            (call_registerFractionalToken 7 tokenAddress)).
  - apply reachable_init.
  - apply world_sound.
  - vm_compute. reflexivity.
Qed.

Lemma rentDeposited_reachable : reachable rentDeposited.
Proof.
  eapply (reachable_step (asUser manager) world rentRegistered
            (call_depositRent 1000 7)).
  - apply rentRegistered_reachable.
  - apply world_sound.
  - vm_compute. reflexivity.
Qed.

Lemma rentCreated_reachable : reachable rentCreated.
Proof.
  eapply (reachable_step (asUser manager) world rentDeposited
            (call_createDistribution 7 1000)).
  - apply rentDeposited_reachable.
  - apply world_sound.
  - vm_compute. reflexivity.
Qed.

Lemma rentAliceClaimed_reachable : reachable rentAliceClaimed.
Proof.
  eapply (reachable_step (asUser alice) world rentCreated
            (call_claimDistribution 0)).
  - apply rentCreated_reachable.
  - apply world_sound.
  - vm_compute. reflexivity.
Qed.

Lemma rentTwoDeposited_reachable : reachable rentTwoDeposited.
Proof.
  eapply (reachable_step (asUser manager) worldTwo rentTwoRegistered
            (call_depositRent 1000 7)).
  - eapply (reachable_step (asUser operator) worldTwo rentRegistered
              (call_registerFractionalToken 8 tokenAddress2)).
    + apply rentRegistered_reachable.
    + apply worldTwo_sound.
    + vm_compute. reflexivity.
  - apply worldTwo_sound.
  - vm_compute. reflexivity.
Qed.

(** C4.  Scenario A, end to end: 1000 shares, alice 600, bob 400, none
    unsold; 1000 distributed at 250 and 500 basis points gives fees 25 and
    50, net 925, denominator 1000, allocations 555 and 370, dust 0; after
    both claims 925 is distributed and the distribution is completed. *)
Theorem scenario_A :
  FractionalToken.Conserved tokenSold /\
  FractionalToken.TokenInfo.totalSupply (FractionalToken.tokenInfo tokenSold) = 1000 /\
  FractionalToken.TokenInfo.availableSupply (FractionalToken.tokenInfo tokenSold) = 0 /\
  FractionalToken.balanceOf tokenSold alice = 600 /\
  FractionalToken.balanceOf tokenSold bob = 400 /\
  platformFeePercentage rentDeposited = 250 /\
  managementFeePercentage rentDeposited = 500 /\
  exec (asUser manager) world rentDeposited (call_createDistribution 7 1000)
    = Ok rentCreated /\
  (let d := distribution rentCreated 0 in
   Distribution.totalRentCollected d = 1000 /\
   Distribution.platformFee d = 25 /\
   Distribution.propertyOwnerFee d = 50 /\
   netAmount d = 925 /\
   last (events rentCreated) = Some (DistributionCreated 0 7 925 2) /\
   Distribution.totalTokensAtDistribution d = 1000 /\
   allocationOf rentCreated 0 alice = 555 /\
   allocationOf rentCreated 0 bob = 370 /\
   dust d = 0 /\
   Distribution.isCompleted d = false) /\
  exec (asUser alice) world rentCreated (call_claimDistribution 0)
    = Ok rentAliceClaimed /\
  isCompleted rentAliceClaimed 0 = false /\
  exec (asUser bob) world rentAliceClaimed (call_claimDistribution 0)
    = Ok rentCompleted /\
  Distribution.totalDistributed (distribution rentCompleted 0) = 925 /\
  isCompleted rentCompleted 0 = true.
Proof. vm_compute. split_and!; reflexivity. Qed.

(** C10.  [createDistribution] checks the amount against the contract's
    whole ether balance only: it neither reads nor writes
    [totalRentCollected], so its outcome is the same whatever that ledger
    holds.  In a reachable state the owner of property 8, for which no rent
    was ever deposited, distributes the 1000 deposited for property 7. *)
Theorem createDistribution_ignores_rent_ledger :
  (forall ctx w st pid g m,
     createDistribution ctx w (set_totalRentCollected st m) pid g
     = st' ← createDistribution ctx w st pid g ; Ok (set_totalRentCollected st' m)) /\
  (forall ctx w st pid g st',
     createDistribution ctx w st pid g = Ok st' ->
     g <= balance st /\ totalRentCollected st' = totalRentCollected st) /\
  (reachable rentTwoDeposited /\ sound worldTwo /\
   get (totalRentCollected rentTwoDeposited) 7 = 1000 /\
   get (totalRentCollected rentTwoDeposited) 8 = 0 /\
   balance rentTwoDeposited = 1000 /\
   exec (asUser manager2) worldTwo rentTwoDeposited (call_createDistribution 8 1000)
     = Ok rentOverdrawn /\
   Distribution.totalRentCollected (distribution rentOverdrawn 0) = 1000 /\
   balance rentOverdrawn = 925).
Proof.
  split_and!.
  - apply createDistribution_ledger_blind.
  - intros ctx w st pid g st' H.
    apply createDistribution_Ok in H as (? & ? & ? & _ & Hg & _ & _ & _ & ->).
    split; [lia | reflexivity].
  - apply rentTwoDeposited_reachable.
  - apply worldTwo_sound.
  - vm_compute. reflexivity.
  - vm_compute. reflexivity.
  - vm_compute. reflexivity.
  - vm_compute. reflexivity.
  - vm_compute. reflexivity.
  - vm_compute. reflexivity.
Qed.


Lemma tokenSold_fullySubscribed : fullySubscribed tokenSold.
Proof.
  split; [reflexivity|]. intros a Hpos.
  unfold FractionalToken.balanceOf, get in Hpos.
  destruct (FractionalToken._balances tokenSold !! a) as [v|] eqn:Ha;
    [|simpl in Hpos; lia].
  simpl in Hpos. apply elem_of_map_to_list in Ha. vm_compute in Ha.
  repeat (apply elem_of_cons in Ha as [Ha|Ha]); try (inversion Ha; fail);
    injection Ha as -> ->; try lia; vm_compute.
  - apply elem_of_cons. right. apply elem_of_cons. by left.
  - apply elem_of_cons. by left.
Qed.

Lemma allocation_bound_witness :
  reachable rentDeposited /\ sound world /\
  createDistribution (asUser manager) world rentDeposited 7 1000 = Ok rentCreated /\
  tokenAt world (get (propertyToToken rentDeposited) 7) = Some tokenSold /\
  fullySubscribed tokenSold /\
  allocated (distribution rentCreated 0) <= netAmount (distribution rentCreated 0) /\
  dust (distribution rentCreated 0) < allocationEntries (distribution rentCreated 0).
Proof.
  assert (Hc : createDistribution (asUser manager) world rentDeposited 7 1000
               = Ok rentCreated) by (vm_compute; reflexivity).
  assert (Ht : tokenAt world (get (propertyToToken rentDeposited) 7) = Some tokenSold)
    by reflexivity.
  destruct (proj2 (allocation_bound rentDeposited rentDeposited_reachable)
              (asUser manager) world 7 1000 rentCreated tokenSold world_sound Hc Ht)
    as (_ & _ & Hle & Hdust).
  split_and!;
    [ exact rentDeposited_reachable | exact world_sound | exact Hc | exact Ht
    | exact tokenSold_fullySubscribed | exact Hle
    | exact (Hdust tokenSold_fullySubscribed) ].
Defined.

(** C2 as stated fails.  With 400 of 1000 shares unsold the only holder gets
    555 of 925, and the dust of 370 is not below the one holder with a
    positive allocation.  And with every share sold, one unit distributed
    floors to 0 for both holders: the dust is 1 and no holder has a positive
    allocation. *)
Lemma allocation_bound_counterexample :
  reachable rentDeposited /\ sound worldPartlySold /\ sound world /\
  exec (asUser manager) worldPartlySold rentDeposited (call_createDistribution 7 1000)
    = Ok rentPartlySold /\
  exec (asUser manager) world rentDeposited (call_createDistribution 7 1)
    = Ok rentTiny /\
  (let d := distribution rentPartlySold 0 in
   netAmount d = 925 /\ allocated d = 555 /\ nonzeroAllocations d = 1 /\
   ~ (dust d < nonzeroAllocations d)) /\
  (let d := distribution rentTiny 0 in
   netAmount d = 1 /\ allocated d = 0 /\ nonzeroAllocations d = 0 /\
   ~ (dust d < nonzeroAllocations d)).
Proof.
  split; [apply rentDeposited_reachable|]. split; [apply worldPartlySold_sound|].
  split; [apply world_sound|].
  split; [vm_compute; reflexivity|]. split; [vm_compute; reflexivity|]. simpl.
  split_and!; try reflexivity; vm_compute; discriminate.
Qed.

Lemma rentCreated_steps : steps rentCreated rentCompleted.
Proof.
  eapply (steps_step (asUser bob) world rentCreated rentAliceClaimed
            (call_claimDistribution 0)).
  - eapply (steps_step (asUser alice) world rentCreated rentCreated
              (call_claimDistribution 0)); [apply steps_refl|].
    vm_compute. reflexivity.
  - vm_compute. reflexivity.
Qed.

Lemma fee_exactness_witness :
  createDistribution (asUser manager) world rentDeposited 7 1000 = Ok rentCreated /\
  steps rentCreated rentCompleted /\
  Distribution.platformFee (distribution rentCreated 0)
  + Distribution.propertyOwnerFee (distribution rentCreated 0)
  + netAmount (distribution rentCreated 0) = 1000 /\
  netAmount (distribution rentCompleted 0) = netAmount (distribution rentCreated 0).
Proof.
  assert (Hc : createDistribution (asUser manager) world rentDeposited 7 1000
               = Ok rentCreated) by (vm_compute; reflexivity).
  destruct (fee_exactness (asUser manager) world rentDeposited 7 1000 rentCreated
              rentCompleted Hc rentCreated_steps)
    as (_ & _ & _ & _ & Hsum & _ & _ & _ & Hnet).
  split; [exact Hc|]. split; [exact rentCreated_steps|].
  split; [exact Hsum | exact Hnet].
Defined.

Lemma completion_witness :
  reachable rentAliceClaimed /\
  (forall ctx w c st',
     sound w ->
     c = call_claimDistribution 0 \/ c = call_batchDistribute 0 ->
     exec ctx w rentAliceClaimed c = Ok st' ->
     (isCompleted st' 0 = true <->
      forall h, 0 < allocationOf st' 0 h -> hasClaimed st' 0 h = true)).
Proof.
  split; [exact rentAliceClaimed_reachable|].
  exact (proj1 (proj2 (completion_monotone_and_exact rentAliceClaimed 0
                         rentAliceClaimed_reachable))).
Defined.

Lemma no_double_payout_witness :
  reachable rentAliceClaimed /\ hasClaimed rentAliceClaimed 0 alice = true /\
  paidCount rentAliceClaimed 0 alice <= 1 /\
  claimDistribution (asUser alice) rentAliceClaimed 0 = Revert AlreadyClaimed.
Proof.
  destruct (no_double_payout rentAliceClaimed 0 alice rentAliceClaimed_reachable)
    as (Hle & Hcl).
  destruct (Hcl eq_refl) as (Hclaim & _).
  split; [exact rentAliceClaimed_reachable|]. split; [reflexivity|].
  split; [exact Hle|]. exact (proj1 (Hclaim (asUser alice) eq_refl)).
Defined.

(** C6 as stated fails: once both holders have claimed, the distribution is
    completed and a second claim is turned away as [AlreadyCompleted], not
    [AlreadyClaimed]. *)
Lemma no_double_payout_counterexample :
  reachable rentAliceClaimed /\
  exec (asUser bob) world rentAliceClaimed (call_claimDistribution 0)
    = Ok rentCompleted /\
  hasClaimed rentCompleted 0 alice = true /\
  claimDistribution (asUser alice) rentCompleted 0 = Revert AlreadyCompleted /\
  claimDistribution (asUser alice) rentCompleted 0 <> Revert AlreadyClaimed.
Proof.
  split; [apply rentAliceClaimed_reachable|].
  split; [vm_compute; reflexivity|]. split; [reflexivity|].
  split; [reflexivity|]. vm_compute. discriminate.
Qed.



Lemma batchDistribute_witness :
  batchDistribute (asUser operator) rentCreated 0 = Ok rentBatched /\
  (self rentCreated ∉ Distribution.investors (distribution rentCreated 0)) /\
  outstanding (distribution rentCreated 0) = 925 /\
  balance rentCreated = 925 /\
  isCompleted rentBatched 0 = true /\
  balance rentBatched + outstanding (distribution rentCreated 0)
    = balance rentCreated /\
  Distribution.totalDistributed (distribution rentBatched 0)
    = Distribution.totalDistributed (distribution rentCreated 0)
      + outstanding (distribution rentCreated 0).
Proof.
  assert (Hb : batchDistribute (asUser operator) rentCreated 0 = Ok rentBatched)
    by (vm_compute; reflexivity).
  assert (Hs : self rentCreated ∉ Distribution.investors (distribution rentCreated 0)).
  { assert (Hl : Distribution.investors (distribution rentCreated 0) = [alice; bob])
      by (vm_compute; reflexivity).
    rewrite Hl. intros Hin.
    apply elem_of_cons in Hin as [Hin|Hin]; [discriminate|].
    apply elem_of_cons in Hin as [Hin|Hin]; [discriminate|].
    by apply elem_of_nil in Hin. }
  destruct (batchDistribute_settles_whole_list (asUser operator) rentCreated 0
              rentBatched Hb) as (_ & _ & Hc & _ & Htd & Hbal & _).
  split_and!; [exact Hb|exact Hs|vm_compute; reflexivity|vm_compute; reflexivity
              |exact Hc|exact (Hbal Hs)|exact Htd].
Defined.

(** C8 as stated fails: one call pays the whole investor list, 555 to
    [alice] and 370 to [bob] out of a balance of 925, and differs from the
    bounded slice of one investor. *)
Lemma batchDistribute_counterexample :
  Distribution.investors (distribution rentCreated 0) = [alice; bob] /\
  batchDistribute (asUser operator) rentCreated 0 = Ok rentBatched /\
  paidCount rentCreated 0 alice = 0 /\ paidCount rentCreated 0 bob = 0 /\
  paidCount rentBatched 0 alice = 1 /\ paidCount rentBatched 0 bob = 1 /\
  balance rentCreated = 925 /\ balance rentBatched = 0 /\
  RentDistributed 0 alice 555 ∈ events rentBatched /\
  RentDistributed 0 bob 370 ∈ events rentBatched /\
  batchDistribute (asUser operator) rentCreated 0
  <> spec_batchDistribute (asUser operator) rentCreated 0 0 1.
Proof.
  assert (He : events rentBatched
               = [RentDeposited 7 1000 manager; DistributionCreated 0 7 925 2;
                  RentDistributed 0 alice 555; RentDistributed 0 bob 370;
                  DistributionCompleted 0 925]) by (vm_compute; reflexivity).
  split; [reflexivity|]. split; [vm_compute; reflexivity|].
  rewrite He. split_and!; try reflexivity.
  - do 2 (apply elem_of_cons; right). apply elem_of_cons. by left.
  - do 3 (apply elem_of_cons; right). apply elem_of_cons. by left.
  - vm_compute. discriminate.
Qed.

End RentDistributionFacts.

(** ** FractionalToken: accounting, registry and configuration *)
Module FractionalTokenAccounting.
Import FractionalToken FractionalTokenFacts FractionalTokenAudit.

Lemma token_send_exact ctx st to amount st' :
  send ctx st to amount = Ok st' ->
  amount <= balance st /\ accepts ctx to = true /\
  st' = (if to =? self st then st else set_balance st (balance st - amount)).
Proof.
  unfold send. intros H.
  apply bind_Ok in H as (? & Hb & H). apply require_Ok, N.leb_le in Hb.
  apply bind_Ok in H as (? & Ha & H). apply require_Ok in Ha.
  injection H as <-. auto.
Qed.

Lemma updateAvailableTokens_Ok sender nft id n nft' :
  PropertyNFT.updateAvailableTokens sender nft id n = Ok nft' ->
  sender = PropertyNFT._owner nft /\ PropertyNFT._exists nft id = true /\
  PropertyNFT.availableTokens (PropertyNFT.property nft' id) = n /\
  PropertyNFT.propertyOwner (PropertyNFT.property nft' id)
    = PropertyNFT.propertyOwner (PropertyNFT.property nft id) /\
  PropertyNFT.kycVerified nft' = PropertyNFT.kycVerified nft /\
  PropertyNFT._owner nft' = PropertyNFT._owner nft /\
  (forall id', id' <> id -> PropertyNFT.property nft' id' = PropertyNFT.property nft id').
Proof.
  unfold PropertyNFT.updateAvailableTokens. intros H.
  apply bind_Ok in H as (? & Ho & H). apply require_Ok, N.eqb_eq in Ho.
  apply bind_Ok in H as (? & He & H). apply require_Ok in He.
  injection H as <-. unfold PropertyNFT.property. simpl.
  rewrite lookup_insert_eq. simpl. split_and!; auto.
  intros id' Hne. by rewrite lookup_insert_ne.
Qed.

Lemma purchaseTokens_effect ctx nft st value n nft' st' :
  msg_sender ctx <> self st ->
  purchaseTokens ctx nft st value n = Ok (nft', st') ->
  let buyer := msg_sender ctx in
  let price := TokenInfo.pricePerToken (tokenInfo st) in
  0 < n /\ n * price <= value /\
  balanceOf st' buyer = balanceOf st buyer + n /\
  balanceOf st' (self st) + n = balanceOf st (self st) /\
  (forall a, a <> buyer -> a <> self st -> balanceOf st' a = balanceOf st a) /\
  TokenInfo.availableSupply (tokenInfo st') + n
    = TokenInfo.availableSupply (tokenInfo st) /\
  totalInvested st' = totalInvested st + n * price /\
  balance st' = balance st + n * price /\
  getInvestmentHistory st' buyer
    = getInvestmentHistory st buyer
      ++ [mkInvestment buyer n (block_timestamp ctx) price] /\
  getb (isInvestor st') buyer = true /\
  PropertyNFT.availableTokens (PropertyNFT.property nft' (propertyId st))
    = TokenInfo.availableSupply (tokenInfo st').
Proof.
  intros Hsender H buyer price. unfold purchaseTokens in H.
  apply bind_Ok in H as (? & _ & H).
  apply bind_Ok in H as (? & _ & H).
  apply bind_Ok in H as (? & _ & H).
  apply bind_Ok in H as (? & Hn & H). apply require_Ok, N.ltb_lt in Hn.
  apply bind_Ok in H as (? & Hav & H). apply require_Ok, N.leb_le in Hav.
  apply bind_Ok in H as (cost & Hcost & H). apply mul_Ok in Hcost as [-> _].
  apply bind_Ok in H as (? & Hpay & H). apply require_Ok, N.leb_le in Hpay.
  apply bind_Ok in H as (avail & Havail & H). apply sub_Ok in Havail as [-> _].
  apply bind_Ok in H as (st1 & Ht & H).
  apply _transfer_Ok in Ht as (b & -> & _ & _ & _ & _ & Hget).
  apply bind_Ok in H as (inv & Hinv & H). apply add_Ok in Hinv as [-> _].
  apply bind_Ok in H as (nft1 & Hnft & H).
  apply updateAvailableTokens_Ok in Hnft as (_ & _ & Hsync & _).
  apply bind_Ok in H as (st2 & Hrefund & H). injection H as <- <-.
  simpl in *.
  assert (Hbal : forall a,
            get b a + (if decide (a = self st) then n else 0)
            = get (_balances st) a + (if decide (a = msg_sender ctx) then n else 0))
    by exact Hget.
  pose proof (Hbal buyer) as Hb1. pose proof (Hbal (self st)) as Hb2.
  subst buyer. rewrite decide_False, decide_True in Hb1 by done.
  rewrite decide_True, decide_False in Hb2 by done.
  destruct (getb (isInvestor st) (msg_sender ctx)) eqn:Hi; simpl in *;
    (destruct (N.ltb_spec (n * TokenInfo.pricePerToken (tokenInfo st)) value) as [Hlt|Hge];
     [ apply bind_Ok in Hrefund as (refund & Hr & Hrefund);
       apply sub_Ok in Hr as [-> _];
       apply token_send_exact in Hrefund as (_ & _ & ->); simpl;
       rewrite (proj2 (N.eqb_neq _ _) Hsender); simpl
     | injection Hrefund as <-; simpl ]);
    unfold balanceOf, getInvestmentHistory in *; simpl in *;
    rewrite ?lookup_insert_eq, ?getb_insert_eq; simpl.
  all: split_and!; try done; try lia.
  all: try (intros a Ha1 Ha2; specialize (Hbal a);
            rewrite !decide_False in Hbal by done; lia).
Qed.

Lemma sellTokens_effect ctx nft st n nft' st' :
  msg_sender ctx <> self st ->
  sellTokens ctx nft st n = Ok (nft', st') ->
  let seller := msg_sender ctx in
  let price := TokenInfo.pricePerToken (tokenInfo st) in
  0 < n /\ accepts ctx seller = true /\
  balanceOf st' seller + n = balanceOf st seller /\
  balanceOf st' (self st) = balanceOf st (self st) + n /\
  (forall a, a <> seller -> a <> self st -> balanceOf st' a = balanceOf st a) /\
  TokenInfo.availableSupply (tokenInfo st')
    = TokenInfo.availableSupply (tokenInfo st) + n /\
  balance st' + n * price = balance st /\
  totalInvested st' = totalInvested st /\
  investors st' = investors st /\
  investments st' = investments st /\
  TokenInfo.pricePerToken (tokenInfo st') = price /\
  PropertyNFT.availableTokens (PropertyNFT.property nft' (propertyId st))
    = TokenInfo.availableSupply (tokenInfo st').
Proof.
  intros Hsender H seller price. unfold sellTokens in H.
  apply bind_Ok in H as (? & _ & H).
  apply bind_Ok in H as (? & _ & H).
  apply bind_Ok in H as (? & Hn & H). apply require_Ok, N.ltb_lt in Hn.
  apply bind_Ok in H as (? & Hbal & H). apply require_Ok, N.leb_le in Hbal.
  apply bind_Ok in H as (cost & Hcost & H). apply mul_Ok in Hcost as [-> _].
  apply bind_Ok in H as (? & Hliq & H). apply require_Ok, N.leb_le in Hliq.
  apply bind_Ok in H as (st1 & Ht & H).
  apply _transfer_Ok in Ht as (b & -> & _ & _ & _ & _ & Hget).
  apply bind_Ok in H as (avail & Havail & H). apply add_Ok in Havail as [-> _].
  apply bind_Ok in H as (st2 & Hpay & H).
  apply token_send_exact in Hpay as (_ & Hacc & ->).
  apply bind_Ok in H as (nft1 & Hnft & H). injection H as <- <-.
  simpl in *. rewrite (proj2 (N.eqb_neq _ _) Hsender) in *. simpl in *.
  apply updateAvailableTokens_Ok in Hnft as (_ & _ & Hsync & _).
  pose proof (Hget seller) as Hb1. pose proof (Hget (self st)) as Hb2.
  subst seller. rewrite decide_True, decide_False in Hb1 by done.
  rewrite decide_False, decide_True in Hb2 by done.
  unfold balanceOf in *. simpl.
  split_and!; try done; try lia.
  intros a Ha1 Ha2. specialize (Hget a). rewrite !decide_False in Hget by done. lia.
Qed.

Lemma purchaseTokens_price ctx nft st value n nft' st' :
  purchaseTokens ctx nft st value n = Ok (nft', st') ->
  TokenInfo.pricePerToken (tokenInfo st') = TokenInfo.pricePerToken (tokenInfo st) /\
  self st' = self st /\ propertyId st' = propertyId st.
Proof.
  intros H. unfold purchaseTokens in H.
  destruct (getb (isInvestor st) (msg_sender ctx)) eqn:Hinv.
  all: token_norm; subst; simpl in *; rewrite ?Hinv in *; auto.
Qed.

(** X1.  What a successful purchase does: the buyer pays for [n] shares at the
    current price and gets any excess back, [n] shares move from the contract
    to the buyer and out of the available supply, nobody else's balance
    changes, the purchase is put on record and the registry's count of
    available tokens follows. *)
Theorem purchase_accounting ctx nft st value n nft' st' :
  msg_sender ctx <> self st ->
  purchaseTokens ctx nft st value n = Ok (nft', st') ->
  let buyer := msg_sender ctx in
  let price := TokenInfo.pricePerToken (tokenInfo st) in
  0 < n /\ n * price <= value /\
  balanceOf st' buyer = balanceOf st buyer + n /\
  balanceOf st' (self st) + n = balanceOf st (self st) /\
  (forall a, a <> buyer -> a <> self st -> balanceOf st' a = balanceOf st a) /\
  TokenInfo.availableSupply (tokenInfo st') + n
    = TokenInfo.availableSupply (tokenInfo st) /\
  totalInvested st' = totalInvested st + n * price /\
  balance st' = balance st + n * price /\
  getInvestmentHistory st' buyer
    = getInvestmentHistory st buyer
      ++ [mkInvestment buyer n (block_timestamp ctx) price] /\
  getb (isInvestor st') buyer = true /\
  PropertyNFT.availableTokens (PropertyNFT.property nft' (propertyId st))
    = TokenInfo.availableSupply (tokenInfo st').
Proof. apply purchaseTokens_effect. Qed.

(** X2.  What a successful sale does: [n] shares move from the seller back to
    the contract and into the available supply, the seller is paid [n] times
    the current price out of the contract's ether, and neither the purchase
    records, the investor list, [totalInvested] nor the price change. *)
Theorem sale_accounting ctx nft st n nft' st' :
  msg_sender ctx <> self st ->
  sellTokens ctx nft st n = Ok (nft', st') ->
  let seller := msg_sender ctx in
  let price := TokenInfo.pricePerToken (tokenInfo st) in
  0 < n /\ accepts ctx seller = true /\
  balanceOf st' seller + n = balanceOf st seller /\
  balanceOf st' (self st) = balanceOf st (self st) + n /\
  (forall a, a <> seller -> a <> self st -> balanceOf st' a = balanceOf st a) /\
  TokenInfo.availableSupply (tokenInfo st')
    = TokenInfo.availableSupply (tokenInfo st) + n /\
  balance st' + n * price = balance st /\
  totalInvested st' = totalInvested st /\
  investors st' = investors st /\
  investments st' = investments st /\
  TokenInfo.pricePerToken (tokenInfo st') = price /\
  PropertyNFT.availableTokens (PropertyNFT.property nft' (propertyId st))
    = TokenInfo.availableSupply (tokenInfo st').
Proof. apply sellTokens_effect. Qed.

(** X3.  Buying [n] shares and selling the same [n] back at once is a round
    trip for the token: every share balance, the available supply and the
    contract's ether are what they were.  The registry's count of available
    tokens ends equal to the token's available supply from before the
    purchase; so it too is back to its prior value when registry and token
    agreed before, and is overwritten with the token's figure when they did
    not. *)
Theorem purchase_then_sale_round_trip ctx nft st value n nft1 st1 nft2 st2 :
  msg_sender ctx <> self st ->
  purchaseTokens ctx nft st value n = Ok (nft1, st1) ->
  sellTokens ctx nft1 st1 n = Ok (nft2, st2) ->
  (forall a, balanceOf st2 a = balanceOf st a) /\
  TokenInfo.availableSupply (tokenInfo st2) = TokenInfo.availableSupply (tokenInfo st) /\
  balance st2 = balance st /\
  PropertyNFT.availableTokens (PropertyNFT.property nft2 (propertyId st))
    = TokenInfo.availableSupply (tokenInfo st) /\
  (PropertyNFT.availableTokens (PropertyNFT.property nft (propertyId st))
     = TokenInfo.availableSupply (tokenInfo st) ->
   PropertyNFT.availableTokens (PropertyNFT.property nft2 (propertyId st))
   = PropertyNFT.availableTokens (PropertyNFT.property nft (propertyId st))).
Proof.
  intros Hsender Hbuy Hsell.
  destruct (purchaseTokens_price _ _ _ _ _ _ _ Hbuy) as (Hprice & Hself & Hpid).
  apply purchaseTokens_effect in Hbuy
    as (_ & _ & Hb & Hs & Ho & Hav & _ & Hbal & _); [|assumption].
  apply sellTokens_effect in Hsell
    as (_ & _ & Hb' & Hs' & Ho' & Hav' & Hbal' & _ & _ & _ & _ & Hsync);
    [|by rewrite Hself].
  rewrite Hself, Hprice, Hpid in *.
  split_and!; try lia.
  intros a. destruct (decide (a = msg_sender ctx)) as [->|H1]; [lia|].
  destruct (decide (a = self st)) as [->|H2]; [lia|].
  rewrite Ho', Ho by done. done.
Qed.

(** X4.  In every reachable state [getOwnershipPercentage] returns the
    holder's balance in basis points of the total supply, rounded down: never
    more than 10000, and 0 for an address that holds nothing. *)
Theorem ownership_percentage_bounded st a p :
  reachable (fun _ _ => True) st ->
  getOwnershipPercentage st a = Ok p ->
  p = balanceOf st a * 10000 / TokenInfo.totalSupply (tokenInfo st) /\
  p <= 10000 /\
  (balanceOf st a = 0 -> p = 0).
Proof.
  intros Hr H. pose proof (token_reachable_Inv _ _ Hr) as [_ Hsum Htot _ _ _ _].
  pose proof (get_le_sumMap (_balances st) a) as Hle.
  rewrite Hsum, <- Htot in Hle. fold (balanceOf st a) in Hle.
  unfold getOwnershipPercentage in H.
  destruct (N.eqb_spec (balanceOf st a) 0) as [Hz|Hnz]; simpl in H.
  - injection H as <-. rewrite Hz. simpl. split_and!; [done|lia|done].
  - destruct (N.eqb_spec (TokenInfo.totalSupply (tokenInfo st)) 0) as [Hz'|Hnz'];
      simpl in H; [lia|].
    apply bind_Ok in H as (scaled & Hs & H). apply mul_Ok in Hs as [-> _].
    apply div_Ok in H as [-> _]. split_and!; [done| |lia].
    apply N.Div0.div_le_upper_bound. lia.
Qed.

(** X5.  The ERC20 supply never moves after deployment: the balances always
    add up to it, [tokenInfo.totalSupply] equals it, the contract holds at
    least the shares it offers for sale, nobody holds more than the supply,
    and no transaction changes it. *)
Theorem token_supply_invariant st :
  reachable (fun _ _ => True) st ->
  sumMap (_balances st) = totalSupply st /\
  TokenInfo.totalSupply (tokenInfo st) = totalSupply st /\
  holderShares st + balanceOf st (self st) = totalSupply st /\
  TokenInfo.availableSupply (tokenInfo st) <= balanceOf st (self st) /\
  (forall a, balanceOf st a <= totalSupply st) /\
  forall ctx nft c nft' st',
    exec ctx nft st c = Ok (nft', st') -> totalSupply st' = totalSupply st.
Proof.
  intros Hr. pose proof (token_reachable_Inv _ _ Hr) as [_ Hsum Htot Hav _ _ _].
  unfold totalSupply. split_and!; try done.
  - by rewrite holderShares_eq.
  - intros a. rewrite <- Hsum. apply get_le_sumMap.
  - intros ctx nft c nft' st' H.
    destruct c; simpl in H;
      unfold purchaseTokens, sellTokens, updatePrice, setTokenStatus,
        withdrawBalance, emergencyWithdraw, transfer, transferFrom, approve,
        increaseAllowance, decreaseAllowance, pause, unpause, transferOwnership,
        renounceOwnership, receive, keep, _spendAllowance in H.
    1: destruct (getb (isInvestor st) (msg_sender ctx)) eqn:Hinv.
    all: token_norm; subst; simpl in *; rewrite ?Hinv in *; reflexivity.
Qed.

(** X6.  [updatePrice] cannot succeed: it requires its caller to be the
    property owner and then calls [PropertyNFT.updateProperty], which requires
    its caller, now the token contract, to be the property owner as well. So
    the share price is fixed at deployment. *)
Theorem updatePrice_never_succeeds ctx nft st :
  msg_sender ctx <> self st ->
  (forall newPrice, exists e, updatePrice ctx nft st newPrice = Revert e) /\
  (forall c nft' st',
     exec ctx nft st c = Ok (nft', st') ->
     TokenInfo.pricePerToken (tokenInfo st') = TokenInfo.pricePerToken (tokenInfo st)).
Proof.
  intros Hsender.
  assert (Hup : forall newPrice, exists e, updatePrice ctx nft st newPrice = Revert e).
  { intros newPrice.
    destruct (updatePrice ctx nft st newPrice) as [[nft' st']|e] eqn:H; [exfalso|eauto].
    unfold updatePrice, onlyPropertyOwner in H.
    apply bind_Ok in H as (? & Ho & H).
    apply bind_Ok in Ho as (property & Hp & Ho).
    apply require_Ok, N.eqb_eq in Ho.
    apply bind_Ok in H as (? & _ & H).
    apply bind_Ok in H as (property' & Hp' & H).
    apply bind_Ok in H as (nft1 & Hu & H).
    unfold PropertyNFT.getProperty in Hp.
    apply bind_Ok in Hp as (? & _ & Hp). injection Hp as <-.
    unfold PropertyNFT.updateProperty in Hu.
    apply bind_Ok in Hu as (? & Hown & _). apply require_Ok, N.eqb_eq in Hown.
    simpl in Hown. congruence. }
  split; [exact Hup|]. intros c nft' st' H.
  destruct c; simpl in H;
    try (destruct (Hup newPrice) as [e He]; congruence);
    unfold purchaseTokens, sellTokens, setTokenStatus,
      withdrawBalance, emergencyWithdraw, transfer, transferFrom, approve,
      increaseAllowance, decreaseAllowance, pause, unpause, transferOwnership,
      renounceOwnership, receive, keep, _spendAllowance in H.
  1: destruct (getb (isInvestor st) (msg_sender ctx)) eqn:Hinv.
  all: token_norm; subst; simpl in *; rewrite ?Hinv in *; reflexivity.
Qed.

(** X7.  Purchases and sales end with a call to
    [PropertyNFT.updateAvailableTokens], which only the registry's owner may
    make: unless the token contract itself owns the PropertyNFT, every
    [purchaseTokens] and every [sellTokens] reverts. *)
Theorem trading_needs_registry_ownership ctx nft st :
  PropertyNFT._owner nft <> self st ->
  (forall value n, exists e, purchaseTokens ctx nft st value n = Revert e) /\
  (forall n, exists e, sellTokens ctx nft st n = Revert e).
Proof.
  intros Hown. split.
  - intros value n.
    destruct (purchaseTokens ctx nft st value n) as [[nft' st']|e] eqn:H;
      [exfalso|eauto].
    unfold purchaseTokens in H.
    destruct (getb (isInvestor st) (msg_sender ctx)) eqn:Hinv.
    all: token_norm; subst; simpl in *; rewrite ?Hinv in *; simpl in *.
    all: repeat match goal with
         | H : PropertyNFT.updateAvailableTokens _ _ _ _ = Ok _ |- _ =>
             apply updateAvailableTokens_Ok in H as (Ho & _)
         end; simpl in *; congruence.
  - intros n.
    destruct (sellTokens ctx nft st n) as [[nft' st']|e] eqn:H; [exfalso|eauto].
    unfold sellTokens in H.
    token_norm; subst; simpl in *.
    all: repeat match goal with
         | H : PropertyNFT.updateAvailableTokens _ _ _ _ = Ok _ |- _ =>
             apply updateAvailableTokens_Ok in H as (Ho & _)
         end; simpl in *; congruence.
Qed.

Lemma purchaseTokens_registry ctx nft st value n nft' st' :
  purchaseTokens ctx nft st value n = Ok (nft', st') ->
  let s := msg_sender ctx in
  0 < n /\
  investments st'
  = <[s := getInvestmentHistory st s
           ++ [mkInvestment s n (block_timestamp ctx)
                 (TokenInfo.pricePerToken (tokenInfo st))]]> (investments st) /\
  ((getb (isInvestor st) s = true /\ investors st' = investors st /\
    isInvestor st' = isInvestor st)
   \/ (getb (isInvestor st) s = false /\ investors st' = investors st ++ [s] /\
       isInvestor st' = <[s := true]> (isInvestor st))).
Proof.
  intros H. unfold purchaseTokens in H.
  destruct (getb (isInvestor st) (msg_sender ctx)) eqn:Hinv.
  all: token_norm; subst; simpl in *; rewrite ?Hinv in *; simpl in *.
  all: unfold getInvestmentHistory; split_and!; auto.
Qed.

Lemma exec_registry_other ctx nft st c nft' st' :
  exec ctx nft st c = Ok (nft', st') ->
  (forall value n, c <> call_purchaseTokens value n) ->
  investors st' = investors st /\ isInvestor st' = isInvestor st /\
  investments st' = investments st.
Proof.
  intros H Hc.
  destruct c; simpl in H; try (by destruct (Hc value tokenAmount));
    unfold sellTokens, updatePrice, setTokenStatus,
      withdrawBalance, emergencyWithdraw, transfer, transferFrom, approve,
      increaseAllowance, decreaseAllowance, pause, unpause, transferOwnership,
      renounceOwnership, receive, keep, _spendAllowance in H.
  all: token_norm; subst; simpl in *; auto.
Qed.

Lemma exec_registry ctx nft st c nft' st' :
  exec ctx nft st c = Ok (nft', st') ->
  (investors st' = investors st /\ isInvestor st' = isInvestor st /\
   investments st' = investments st)
  \/ exists value n, c = call_purchaseTokens value n.
Proof.
  intros H. destruct c; try (left; eapply exec_registry_other; [exact H|discriminate]).
  right. eauto.
Qed.

Lemma exec_HistoryOk ctx nft st c nft' st' :
  HistoryOk st -> exec ctx nft st c = Ok (nft', st') -> HistoryOk st'.
Proof.
  intros [Hne Hrec] H.
  destruct (exec_registry _ _ _ _ _ _ H) as [(Hl & Hf & Hi)|(value & n & ->)].
  - unfold HistoryOk, getInvestmentHistory in *. rewrite Hf, Hi. auto.
  - simpl in H. apply purchaseTokens_registry in H as (Hn & Hi & Hreg).
    unfold HistoryOk, getInvestmentHistory in *. rewrite Hi.
    assert (Hf : forall a, getb (isInvestor st') a = true <->
                   a = msg_sender ctx \/ getb (isInvestor st) a = true).
    { intros a. destruct Hreg as [(Ht & _ & ->)|(_ & _ & ->)].
      - split; [auto|]. intros [->|?]; auto.
      - destruct (decide (msg_sender ctx = a)) as [<-|Hd].
        + rewrite getb_insert_eq. tauto.
        + rewrite getb_insert_ne by done. split; [auto|]. intros [?|?]; congruence. }
    split.
    + intros a. rewrite Hf. destruct (decide (msg_sender ctx = a)) as [<-|Hd].
      * rewrite lookup_insert_eq. simpl. split; [|auto].
        intros _ Hnil. by apply app_nil in Hnil as [_ ?].
      * rewrite lookup_insert_ne by done. rewrite <- Hne. split; [|auto].
        intros [?|?]; [congruence|done].
    + intros a r. destruct (decide (msg_sender ctx = a)) as [<-|Hd].
      * rewrite lookup_insert_eq. simpl. intros Hin.
        apply elem_of_app in Hin as [Hin|Hin]; [by apply Hrec|].
        apply list_elem_of_singleton in Hin as ->. simpl. auto.
      * rewrite lookup_insert_ne by done. apply Hrec.
Qed.

Lemma constructor_HistoryOk ctx this pid supply price st :
  constructor ctx this pid supply price = Ok st -> HistoryOk st.
Proof.
  unfold constructor, _mint. intros H. ok_inv H. injection H as <-.
  split; unfold getInvestmentHistory; simpl.
  - intros a. unfold getb. rewrite !lookup_empty. simpl. split; [discriminate|done].
  - intros a r. rewrite lookup_empty. simpl. intros Hin. inversion Hin.
Qed.

(** X8.  The investor registry is a set in insertion order: the list has no
    duplicates, agrees with the [isInvestor] flags, and lists exactly the
    addresses with a purchase on record; every record carries its purchaser
    and a positive amount. *)
Theorem investor_registry_invariant st :
  reachable (fun _ _ => True) st ->
  NoDup (getInvestors st) /\
  getInvestorCount st = N.of_nat (length (getInvestors st)) /\
  (forall a, getb (isInvestor st) a = true <-> a ∈ getInvestors st) /\
  (forall a, a ∈ getInvestors st <-> getInvestmentHistory st a <> []) /\
  (forall a r, r ∈ getInvestmentHistory st a -> investor r = a /\ 0 < amount r).
Proof.
  intros Hr. pose proof (token_reachable_Inv _ _ Hr) as [_ _ _ _ _ Hnd Hreg].
  assert (Hh : HistoryOk st).
  { clear Hnd Hreg.
    induction Hr as [ctx this pid supply price st Hc|ctx nft st c nft' st' _ IH _ _ He].
    - eapply constructor_HistoryOk, Hc.
    - eapply exec_HistoryOk; eassumption. }
  destruct Hh as [Hne Hrec]. unfold getInvestors.
  split_and!; try done. intros a. by rewrite <- Hreg, Hne.
Qed.

(** X9.  The purchase records only grow: no transaction removes an investor
    from the list or an entry from a purchase history, not even the sale of
    all shares, and [totalInvested] never decreases. *)
Theorem investor_registry_append_only ctx nft st c nft' st' :
  exec ctx nft st c = Ok (nft', st') ->
  getInvestors st `prefix_of` getInvestors st' /\
  (forall a, getInvestmentHistory st a `prefix_of` getInvestmentHistory st' a) /\
  totalInvested st <= totalInvested st'.
Proof.
  intros H. unfold getInvestors.
  assert (Hti : totalInvested st <= totalInvested st').
  { destruct c; simpl in H;
      unfold purchaseTokens, sellTokens, updatePrice, setTokenStatus,
        withdrawBalance, emergencyWithdraw, transfer, transferFrom, approve,
        increaseAllowance, decreaseAllowance, pause, unpause, transferOwnership,
        renounceOwnership, receive, keep, _spendAllowance in H.
    1: destruct (getb (isInvestor st) (msg_sender ctx)) eqn:Hinv.
    all: token_norm; subst; simpl in *; rewrite ?Hinv in *; simpl; lia. }
  destruct (exec_registry _ _ _ _ _ _ H) as [(Hl & Hf & Hi)|(value & n & ->)].
  - unfold getInvestmentHistory. rewrite Hl, Hi. split_and!; done.
  - simpl in H. apply purchaseTokens_registry in H as (Hn & Hi & Hreg).
    split_and!; [| |done].
    + destruct Hreg as [(_ & -> & _)|(_ & -> & _)]; [done|]. by apply prefix_app_r.
    + intros a. unfold getInvestmentHistory at 2. rewrite Hi.
      destruct (decide (msg_sender ctx = a)) as [<-|Hd].
      * rewrite lookup_insert_eq. simpl. by apply prefix_app_r.
      * rewrite lookup_insert_ne by done. done.
Qed.

(** X10.  [withdrawBalance] hands the property owner all the ether of the
    contract and leaves shares and terms alone; as long as the price is
    positive, every later [sellTokens] reverts until ether comes back. *)
Theorem withdrawal_empties_liquidity ctx nft st st' :
  msg_sender ctx <> self st ->
  withdrawBalance ctx nft st = Ok st' ->
  0 < balance st /\ balance st' = 0 /\
  (forall a, balanceOf st' a = balanceOf st a) /\
  tokenInfo st' = tokenInfo st /\
  forall ctx' nft' n,
    0 < TokenInfo.pricePerToken (tokenInfo st) ->
    exists e, sellTokens ctx' nft' st' n = Revert e.
Proof.
  intros Hsender H. unfold withdrawBalance in H.
  apply bind_Ok in H as (? & _ & H).
  apply bind_Ok in H as (? & Hpos & H). apply require_Ok, N.ltb_lt in Hpos.
  apply token_send_exact in H as (_ & _ & ->).
  rewrite (proj2 (N.eqb_neq _ _) Hsender). simpl.
  split_and!; try done; [lia|].
  intros ctx' nft' n Hprice.
  destruct (sellTokens ctx' nft' _ n) as [[nft2 st2]|e] eqn:Hs; [exfalso|eauto].
  unfold sellTokens in Hs.
  apply bind_Ok in Hs as (? & _ & Hs).
  apply bind_Ok in Hs as (? & _ & Hs).
  apply bind_Ok in Hs as (? & Hn & Hs). apply require_Ok, N.ltb_lt in Hn.
  apply bind_Ok in Hs as (? & _ & Hs).
  apply bind_Ok in Hs as (cost & Hcost & Hs). apply mul_Ok in Hcost as [-> _].
  apply bind_Ok in Hs as (? & Hliq & _). apply require_Ok, N.leb_le in Hliq.
  simpl in *. nia.
Qed.

Import Scenario Cases.

Lemma purchase_accounting_witness :
  msg_sender (asUser alice) <> self tokenDeployed /\
  purchaseTokens (asUser alice) nft tokenDeployed 600 600 = Ok (nftAlice, tokenAlice) /\
  balanceOf tokenAlice alice = balanceOf tokenDeployed alice + 600 /\
  balanceOf tokenAlice (self tokenDeployed) + 600
    = balanceOf tokenDeployed (self tokenDeployed).
Proof.
  assert (Hs : msg_sender (asUser alice) <> self tokenDeployed) by discriminate.
  assert (Hp : purchaseTokens (asUser alice) nft tokenDeployed 600 600
               = Ok (nftAlice, tokenAlice)) by (vm_compute; reflexivity).
  destruct (purchase_accounting (asUser alice) nft tokenDeployed 600 600
              nftAlice tokenAlice Hs Hp) as (_ & _ & Hb & Ht & _).
  split_and!; [exact Hs|exact Hp|exact Hb|exact Ht].
Defined.

Lemma sale_accounting_witness :
  msg_sender (asUser alice) <> self tokenAlice /\
  sellTokens (asUser alice) nftAlice tokenAlice 600 = Ok (nftReturned, tokenReturned) /\
  balanceOf tokenReturned alice + 600 = balanceOf tokenAlice alice /\
  investors tokenReturned = investors tokenAlice.
Proof.
  assert (Hs : msg_sender (asUser alice) <> self tokenAlice) by discriminate.
  assert (Hp : sellTokens (asUser alice) nftAlice tokenAlice 600
               = Ok (nftReturned, tokenReturned)) by (vm_compute; reflexivity).
  destruct (sale_accounting (asUser alice) nftAlice tokenAlice 600
              nftReturned tokenReturned Hs Hp)
    as (_ & _ & Hb & _ & _ & _ & _ & _ & Hi & _).
  split_and!; [exact Hs|exact Hp|exact Hb|exact Hi].
Defined.

Lemma purchase_then_sale_round_trip_witness :
  msg_sender (asUser alice) <> self tokenDeployed /\
  purchaseTokens (asUser alice) nft tokenDeployed 600 600 = Ok (nftAlice, tokenAlice) /\
  sellTokens (asUser alice) nftAlice tokenAlice 600 = Ok (nftReturned, tokenReturned) /\
  (forall a, balanceOf tokenReturned a = balanceOf tokenDeployed a) /\
  balance tokenReturned = balance tokenDeployed /\
  PropertyNFT.availableTokens (PropertyNFT.property nft (propertyId tokenDeployed))
    = TokenInfo.availableSupply (tokenInfo tokenDeployed) /\
  PropertyNFT.availableTokens (PropertyNFT.property nftReturned (propertyId tokenDeployed))
    = PropertyNFT.availableTokens (PropertyNFT.property nft (propertyId tokenDeployed)).
Proof.
  assert (Hs : msg_sender (asUser alice) <> self tokenDeployed) by discriminate.
  assert (Hp : purchaseTokens (asUser alice) nft tokenDeployed 600 600
               = Ok (nftAlice, tokenAlice)) by (vm_compute; reflexivity).
  assert (Hq : sellTokens (asUser alice) nftAlice tokenAlice 600
               = Ok (nftReturned, tokenReturned)) by (vm_compute; reflexivity).
  destruct (purchase_then_sale_round_trip (asUser alice) nft tokenDeployed 600 600
              nftAlice tokenAlice nftReturned tokenReturned Hs Hp Hq)
    as (Hb & _ & He & _ & Hreg).
  assert (Hstep : PropertyNFT.availableTokens
                    (PropertyNFT.property nft (propertyId tokenDeployed))
                  = TokenInfo.availableSupply (tokenInfo tokenDeployed))
    by reflexivity.
  split_and!; [exact Hs|exact Hp|exact Hq|exact Hb|exact He|exact Hstep
              |exact (Hreg Hstep)].
Defined.

Lemma ownership_percentage_bounded_witness :
  reachable (fun _ _ => True) tokenSold /\
  getOwnershipPercentage tokenSold alice = Ok 6000 /\
  6000 <= 10000.
Proof.
  assert (Hr : reachable (fun _ _ => True) tokenSold)
    by (apply tokenSold_reachable; exact I).
  assert (Hp : getOwnershipPercentage tokenSold alice = Ok 6000)
    by (vm_compute; reflexivity).
  destruct (ownership_percentage_bounded tokenSold alice 6000 Hr Hp) as (_ & Hle & _).
  split_and!; [exact Hr|exact Hp|exact Hle].
Defined.

Lemma token_supply_invariant_witness :
  reachable (fun _ _ => True) tokenSold /\
  sumMap (_balances tokenSold) = totalSupply tokenSold.
Proof.
  assert (Hr : reachable (fun _ _ => True) tokenSold)
    by (apply tokenSold_reachable; exact I).
  split; [exact Hr|exact (proj1 (token_supply_invariant tokenSold Hr))].
Defined.

Lemma updatePrice_never_succeeds_witness :
  msg_sender (asUser manager) <> self tokenDeployed /\
  exists e, updatePrice (asUser manager) nft tokenDeployed 2 = Revert e.
Proof.
  assert (Hs : msg_sender (asUser manager) <> self tokenDeployed) by discriminate.
  split; [exact Hs|].
  exact (proj1 (updatePrice_never_succeeds (asUser manager) nft tokenDeployed Hs) 2).
Defined.

Lemma trading_needs_registry_ownership_witness :
  PropertyNFT._owner nftManaged <> self tokenDeployed /\
  exists e, purchaseTokens (asUser alice) nftManaged tokenDeployed 600 600 = Revert e.
Proof.
  assert (Ho : PropertyNFT._owner nftManaged <> self tokenDeployed) by discriminate.
  split; [exact Ho|].
  exact (proj1 (trading_needs_registry_ownership (asUser alice) nftManaged
                  tokenDeployed Ho) 600 600).
Defined.

Lemma investor_registry_invariant_witness :
  reachable (fun _ _ => True) tokenSold /\ NoDup (getInvestors tokenSold).
Proof.
  assert (Hr : reachable (fun _ _ => True) tokenSold)
    by (apply tokenSold_reachable; exact I).
  split; [exact Hr|exact (proj1 (investor_registry_invariant tokenSold Hr))].
Defined.

Lemma investor_registry_append_only_witness :
  exec (asUser alice) nftAlice tokenAlice (call_sellTokens 600)
    = Ok (nftReturned, tokenReturned) /\
  getInvestors tokenAlice `prefix_of` getInvestors tokenReturned.
Proof.
  assert (He : exec (asUser alice) nftAlice tokenAlice (call_sellTokens 600)
               = Ok (nftReturned, tokenReturned)) by (vm_compute; reflexivity).
  split; [exact He|].
  exact (proj1 (investor_registry_append_only (asUser alice) nftAlice tokenAlice
                  (call_sellTokens 600) nftReturned tokenReturned He)).
Defined.

Lemma withdrawal_empties_liquidity_witness :
  msg_sender (asUser manager) <> self tokenAlice /\
  withdrawBalance (asUser manager) nft tokenAlice = Ok tokenDrained /\
  balance tokenDrained = 0 /\
  exists e, sellTokens (asUser alice) nft tokenDrained 100 = Revert e.
Proof.
  assert (Hs : msg_sender (asUser manager) <> self tokenAlice) by discriminate.
  assert (Hw : withdrawBalance (asUser manager) nft tokenAlice = Ok tokenDrained)
    by (vm_compute; reflexivity).
  destruct (withdrawal_empties_liquidity (asUser manager) nft tokenAlice
              tokenDrained Hs Hw) as (_ & Hz & _ & _ & Hsell).
  split_and!; [exact Hs|exact Hw|exact Hz|].
  apply Hsell. vm_compute. reflexivity.
Defined.

End FractionalTokenAccounting.

(** ** RentDistribution: ledger, fees and payouts *)
Module RentDistributionAccounting.
Import RentDistribution RentDistributionFacts RentDistributionAudit.

Lemma claimedSum_insert_fresh c (m : gmap N N) k v :
  m !! k = None ->
  claimedSum c (<[k := v]> m) = (if getb c k then v else 0) + claimedSum c m.
Proof.
  intros Hk. unfold claimedSum.
  rewrite (map_fold_insert_L (fun h v acc => if getb c h then v + acc else acc));
    [|intros; repeat case_match; lia|exact Hk].
  destruct (getb c k); lia.
Qed.

Lemma claimedSum_empty (m : gmap N N) : claimedSum ∅ m = 0.
Proof.
  induction m as [|k v m Hk _ IH] using map_first_key_ind; [reflexivity|].
  rewrite claimedSum_insert_fresh by done. rewrite IH. reflexivity.
Qed.

Lemma claimedSum_le c (m : gmap N N) : claimedSum c m <= sumMap m.
Proof.
  induction m as [|k v m Hk _ IH] using map_first_key_ind; [reflexivity|].
  rewrite claimedSum_insert_fresh, sumMap_insert_fresh by done.
  destruct (getb c k); lia.
Qed.

Lemma claimedSum_claim c (m : gmap N N) h :
  getb c h = false ->
  claimedSum (<[h := true]> c) m = claimedSum c m + get m h.
Proof.
  intros Hc.
  induction m as [|k v m Hk _ IH] using map_first_key_ind; [reflexivity|].
  rewrite !claimedSum_insert_fresh, IH by done.
  destruct (decide (k = h)) as [->|Hne].
  - rewrite getb_insert_eq, Hc, get_insert_eq. unfold get. rewrite Hk. simpl. lia.
  - rewrite getb_insert_ne, get_insert_ne by done. lia.
Qed.

Lemma createdIds_snoc log e :
  createdIds (log ++ [e])
  = createdIds log ++ match e with DistributionCreated id _ _ _ => [id] | _ => [] end.
Proof.
  induction log as [|e' log IH]; simpl.
  - by destruct e.
  - destruct e'; simpl; by rewrite IH.
Qed.

Lemma depositedFor_snoc pid log e :
  depositedFor pid (log ++ [e])
  = depositedFor pid log
    + match e with
      | RentDeposited p amount _ => if p =? pid then amount else 0
      | _ => 0
      end.
Proof.
  induction log as [|e' log IH]; simpl.
  - destruct e; lia.
  - destruct e'; simpl; rewrite IH; lia.
Qed.

Lemma indices_succ n : indices (n + 1) = indices n ++ [n].
Proof.
  unfold indices. replace (N.to_nat (n + 1)) with (S (N.to_nat n)) by lia.
  rewrite seq_S, fmap_app. simpl. by rewrite N2Nat.id.
Qed.

Lemma sameSlots_refl st : sameSlots st st.
Proof. split_and!; done. Qed.

Lemma sameSlots_Slots st st' : sameSlots st st' -> Slots st -> Slots st'.
Proof.
  intros (Hc & Hp & Hm & Hd) [Hfresh Htotal Hrates Hfees].
  constructor.
  - intros id Hid. destruct (Hd id) as (Hst & -> & ->).
    destruct (Hfresh id) as (He & ? & ?); [lia|].
    split_and!; [eapply sameTerms_trans; eassumption|done..].
  - intros id. destruct (Hd id) as (Hst & Hcl & ->). rewrite Htotal.
    unfold claimedTotal. rewrite Hcl.
    destruct Hst as (_ & _ & _ & _ & _ & -> & _). done.
  - by rewrite Hp, Hm.
  - intros id. destruct (Hd id) as ((_ & _ & -> & _ & _ & _ & _ & -> & ->) & _).
    apply Hfees.
Qed.

Lemma sameJournal_Journal st st' : sameJournal st st' -> Journal st -> Journal st'.
Proof.
  intros (Hc & Hr & Hi & Hd) [Hids Hrent].
  constructor; [by rewrite Hi, Hc|]. intros pid. by rewrite Hr, Hd.
Qed.

Lemma check_sameSlots st id : sameSlots st (_checkDistributionCompletion st id).
Proof.
  split_and!.
  - apply check_counter.
  - unfold _checkDistributionCompletion. by destruct (_ && _).
  - unfold _checkDistributionCompletion. by destruct (_ && _).
  - intros i. rewrite check_distribution. case_decide; subst; simpl;
      split_and!; auto using sameTerms_refl, sameTerms_set_isCompleted.
Qed.

Lemma check_sameJournal st id : sameJournal st (_checkDistributionCompletion st id).
Proof.
  unfold _checkDistributionCompletion, sameJournal.
  destruct (_ && _); simpl; [|done].
  split_and!; try done.
  - by rewrite createdIds_snoc, app_nil_r.
  - intros pid. rewrite depositedFor_snoc. lia.
Qed.

Lemma paid_sameJournal st id h bal : sameJournal st (paid st id h bal).
Proof.
  unfold paid, sameJournal. simpl. split_and!; try done.
  - by rewrite createdIds_snoc, app_nil_r.
  - intros pid. rewrite depositedFor_snoc. lia.
Qed.

Lemma sameJournal_trans st1 st2 st3 :
  sameJournal st1 st2 -> sameJournal st2 st3 -> sameJournal st1 st3.
Proof.
  intros (? & ? & ? & Hd1) (? & ? & ? & Hd2).
  split_and!; try congruence; intros pid; by rewrite Hd2, Hd1.
Qed.

Lemma paid_Slots st id h bal :
  hasClaimed st id h = false -> 0 < allocationOf st id h ->
  Slots st -> Slots (paid st id h bal).
Proof.
  intros Hnot Hpos [Hfresh Htotal Hrates Hfees].
  unfold hasClaimed, allocationOf in *.
  constructor.
  - intros i Hi. rewrite paid_distribution.
    destruct (decide (i = id)) as [->|Hne]; [|by apply Hfresh].
    destruct (Hfresh id Hi) as ((_ & _ & _ & _ & _ & He & _) & _).
    simpl in He. rewrite He in Hpos. unfold get in Hpos.
    rewrite lookup_empty in Hpos. simpl in Hpos. lia.
  - intros i. rewrite paid_distribution.
    destruct (decide (i = id)) as [->|Hne]; [|apply Htotal].
    unfold claimedTotal, allocationOf. simpl.
    rewrite claimedSum_claim by done. rewrite Htotal. done.
  - exact Hrates.
  - intros i. rewrite paid_distribution.
    destruct (decide (i = id)) as [->|Hne]; simpl; apply Hfees.
Qed.

Lemma batchLoop_audit ctx id l : forall st st',
  batchLoop ctx id l st = Ok st' ->
  (Slots st -> Slots st') /\ sameJournal st st' /\ balance st' <= balance st.
Proof.
  induction l as [|a l IH]; intros st st' H; simpl in H.
  - injection H as <-. split_and!; [done| |lia].
    split_and!; done.
  - destruct (getb (Distribution.claimed (distribution st id)) a) eqn:Hcl; simpl in H;
      [|destruct (0 <? get (Distribution.investorDistributions (distribution st id)) a)
          eqn:Hpos]; [by apply IH| |by apply IH].
    apply bind_Ok in H as (td & Htd & H). apply add_Ok in Htd as [-> _].
    apply bind_Ok in H as (st1 & Hs & H).
    unfold send in Hs.
    apply bind_Ok in Hs as (? & Hb & Hs). apply require_Ok, N.leb_le in Hb.
    apply bind_Ok in Hs as (? & _ & Hs). injection Hs as <-.
    apply N.ltb_lt in Hpos. simpl in Hb.
    set (bal := if a =? self st then balance st
                else balance st - get (Distribution.investorDistributions
                                         (distribution st id)) a).
    assert (Heq : batchLoop ctx id l (paid st id a bal) = Ok st').
    { rewrite <- H. unfold paid, bal. f_equal. simpl.
      destruct (a =? self st); [|reflexivity].
      unfold set_distribution, set_distributions, emit, set_balance. by destruct st. }
    destruct (IH _ _ Heq) as (HS & HJ & Hbal).
    split_and!.
    + intros HSt. apply HS. by apply paid_Slots.
    + eapply sameJournal_trans; [apply paid_sameJournal|exact HJ].
    + unfold paid in Hbal. simpl in Hbal. unfold bal in Hbal.
      destruct (a =? self st); lia.
Qed.

Lemma fee_floor_bound g rate cap k :
  rate <= cap -> k * cap = 10000 -> k * (g * rate / 10000) <= g.
Proof.
  intros Hrate Hk.
  assert (H1 : g * rate / 10000 <= g * cap / 10000)
    by (apply N.Div0.div_le_mono; nia).
  assert (H2 : k * (g * cap / 10000) <= g).
  { replace (g * cap) with (g * cap * 1) by lia.
    pose proof (N.Div0.mul_div_le (g * cap) 10000) as H3.
    assert (H4 : g * cap / 10000 * 10000 <= g * cap) by lia.
    assert (H5 : cap * (k * (g * cap / 10000)) <= cap * g) by nia.
    destruct (N.eq_dec cap 0) as [->|Hc]; [lia|].
    rewrite N.mul_1_r. nia. }
  nia.
Qed.

Lemma exec_Slots ctx w st c st' :
  Slots st -> exec ctx w st c = Ok st' -> Slots st'.
Proof.
  intros HS H.
  destruct c; simpl in H;
    try (apply (sameSlots_Slots st); [|assumption];
         unfold registerFractionalToken, depositRent, emergencyWithdraw,
           pause, unpause, transferOwnership, renounceOwnership, receive in H;
         rent_norm; subst; split_and!; done).
  - apply createDistribution_Ok in H
      as (token & allocs & bal & Hp & Hg & Hfee & Htoken & Hallocs & ->).
    destruct HS as [Hfresh Htotal Hrates Hfees].
    destruct (Hfresh (distributionCounter st) (N.le_refl _)) as (_ & Hcl & Htd).
    constructor.
    + intros id Hid. simpl in Hid.
      rewrite distribution_emit, distribution_set_balance, distribution_set_ne by lia.
      apply Hfresh. lia.
    + intros id. rewrite distribution_emit, distribution_set_balance.
      destruct (decide (distributionCounter st = id)) as [<-|Hne].
      * rewrite distribution_set_eq. unfold claimedTotal. simpl.
        by rewrite Hcl, Htd, claimedSum_empty.
      * rewrite distribution_set_ne by done. apply Htotal.
    + exact Hrates.
    + intros id. rewrite distribution_emit, distribution_set_balance.
      destruct (decide (distributionCounter st = id)) as [<-|Hne].
      * rewrite distribution_set_eq. simpl. destruct Hrates as [Hr1 Hr2]. split.
        -- by apply (fee_floor_bound _ _ 1000 10).
        -- by apply (fee_floor_bound _ _ 2000 5).
      * rewrite distribution_set_ne by done. apply Hfees.
  - apply claimDistribution_Ok in H as (_ & _ & Hcl & Hpos & bal & ->).
    eapply sameSlots_Slots; [apply check_sameSlots|]. by apply paid_Slots.
  - apply batchDistribute_Ok in H as (_ & _ & _ & st1 & Hloop & ->).
    eapply sameSlots_Slots; [apply check_sameSlots|].
    by apply (batchLoop_audit _ _ _ _ _ Hloop).
  - unfold updateFees in H. rent_norm. subst.
    destruct HS as [Hfresh Htotal Hrates Hfees].
    constructor; try done. simpl. split; by apply N.leb_le.
Qed.

Lemma exec_Journal ctx w st c st' :
  Journal st -> exec ctx w st c = Ok st' -> Journal st'.
Proof.
  intros HJ H.
  destruct c; simpl in H;
    try (apply (sameJournal_Journal st); [|assumption];
         unfold registerFractionalToken, updateFees, emergencyWithdraw,
           pause, unpause, transferOwnership, renounceOwnership, receive in H;
         rent_norm; subst; split_and!; simpl;
         first [ done
               | by rewrite createdIds_snoc, app_nil_r
               | intros pid; rewrite depositedFor_snoc; simpl; lia ]).
  - unfold depositRent in H. rent_norm. subst. destruct HJ as [Hids Hrent].
    constructor; simpl.
    + by rewrite createdIds_snoc, app_nil_r.
    + intros pid. rewrite depositedFor_snoc. simpl.
      destruct (N.eqb_spec propertyId pid) as [->|Hne].
      * rewrite get_insert_eq, <- Hrent. done.
      * rewrite get_insert_ne, <- Hrent by done. lia.
  - apply createDistribution_Ok in H
      as (token & allocs & bal & Hp & Hg & Hfee & Htoken & Hallocs & ->).
    destruct HJ as [Hids Hrent]. constructor; simpl.
    + by rewrite createdIds_snoc, Hids, indices_succ.
    + intros pid. rewrite depositedFor_snoc. rewrite Hrent. lia.
  - apply claimDistribution_Ok in H as (_ & _ & Hcl & Hpos & bal & ->).
    eapply sameJournal_Journal; [|exact HJ].
    eapply sameJournal_trans; [apply paid_sameJournal|apply check_sameJournal].
  - apply batchDistribute_Ok in H as (_ & _ & _ & st1 & Hloop & ->).
    eapply sameJournal_Journal; [|exact HJ].
    eapply sameJournal_trans; [|apply check_sameJournal].
    by apply (batchLoop_audit _ _ _ _ _ Hloop).
Qed.

Lemma reachable_Slots st : reachable st -> Slots st.
Proof.
  induction 1 as [ctx this|ctx w st c st' _ IH _ He]; [|by eapply exec_Slots].
  constructor; simpl; done.
Qed.

Lemma reachable_Journal st : reachable st -> Journal st.
Proof.
  induction 1 as [ctx this|ctx w st c st' _ IH _ He]; [|by eapply exec_Journal].
  constructor; simpl; done.
Qed.

Lemma set_balance_same st : set_balance st (balance st) = st.
Proof. by destruct st. Qed.

Lemma claimDistribution_exact ctx st id st' :
  claimDistribution ctx st id = Ok st' ->
  let h := msg_sender ctx in
  let a := allocationOf st id h in
  a <= balance st /\ accepts ctx h = true /\
  st' = _checkDistributionCompletion
          (paid st id h (if h =? self st then balance st else balance st - a)) id.
Proof.
  intros H h a. unfold claimDistribution in H.
  apply bind_Ok in H as (? & _ & H).
  apply bind_Ok in H as (? & _ & H).
  apply bind_Ok in H as (? & _ & H).
  apply bind_Ok in H as (? & _ & H).
  apply bind_Ok in H as (td & Htd & H). apply add_Ok in Htd as [-> _].
  apply bind_Ok in H as (st1 & Hs & H).
  apply rent_send_exact in Hs as (Hle & Hacc & ->). injection H as <-.
  simpl in *. split_and!; [exact Hle|exact Hacc|].
  f_equal. unfold paid. fold h. unfold a, allocationOf. f_equal.
  destruct (h =? self st); [|reflexivity].
  by rewrite <- (set_balance_same (set_distribution _ _ _)) at 1.
Qed.

Lemma batchLoop_accepts ctx id l : forall st st',
  batchLoop ctx id l st = Ok st' ->
  forall h, h ∈ l -> hasClaimed st id h = false -> 0 < allocationOf st id h ->
    accepts ctx h = true /\ allocationOf st id h <= balance st.
Proof.
  induction l as [|a l IH]; intros st st' H h Hin Hcl Hpos.
  - inversion Hin.
  - simpl in H.
    destruct (getb (Distribution.claimed (distribution st id)) a) eqn:Hca; simpl in H.
    { apply elem_of_cons in Hin as [->|Hin];
        [unfold hasClaimed in Hcl; congruence|by eapply IH]. }
    destruct (0 <? get (Distribution.investorDistributions (distribution st id)) a)
      eqn:Hpa.
    2:{ apply elem_of_cons in Hin as [->|Hin]; [|by eapply IH].
        apply N.ltb_ge in Hpa. unfold allocationOf in Hpos. lia. }
    apply bind_Ok in H as (td & Htd & H). apply add_Ok in Htd as [-> _].
    apply bind_Ok in H as (st1 & Hs & H).
    apply rent_send_exact in Hs as (Hle & Hacc & ->). simpl in Hle.
    destruct (decide (h = a)) as [->|Hne]; [by split|].
    apply elem_of_cons in Hin as [?|Hin]; [done|].
    eapply IH in H as [Hacc' Hle']; [|exact Hin| |].
    + split; [exact Hacc'|]. revert Hle'. unfold allocationOf.
      rewrite distribution_emit.
      destruct (a =? _); rewrite ?distribution_set_balance, distribution_set_eq;
        simpl; lia.
    + unfold hasClaimed in *. rewrite distribution_emit.
      destruct (a =? _); rewrite ?distribution_set_balance, distribution_set_eq;
        simpl; by rewrite getb_insert_ne.
    + unfold allocationOf in *. rewrite distribution_emit.
      destruct (a =? _); by rewrite ?distribution_set_balance, distribution_set_eq.
Qed.

Lemma exec_completed_frozen ctx w st c st' id :
  exec ctx w st c = Ok st' -> id < distributionCounter st ->
  isCompleted st id = true ->
  distribution st' id = distribution st id /\
  distributionCounter st <= distributionCounter st'.
Proof.
  intros H Hid Hdone.
  destruct c; simpl in H;
    try (unfold registerFractionalToken, depositRent, updateFees, emergencyWithdraw,
           pause, unpause, transferOwnership, renounceOwnership, receive in H;
         rent_norm; subst; split; [reflexivity|simpl; lia]).
  - apply createDistribution_Ok in H
      as (token & allocs & bal & _ & _ & _ & _ & _ & ->).
    rewrite distribution_emit, distribution_set_balance, distribution_set_ne by lia.
    split; [reflexivity|simpl; lia].
  - apply claimDistribution_Ok in H as (_ & Hopen & _ & _ & bal & ->).
    rewrite check_counter. split; [|simpl; lia].
    rewrite check_distribution. case_decide; [congruence|].
    rewrite paid_distribution. case_decide; congruence.
  - apply batchDistribute_Ok in H as (_ & _ & Hopen & st1 & Hloop & ->).
    apply batchLoop_Ok in Hloop as (Hc & _ & Hother & _).
    rewrite check_counter, Hc. split; [|lia].
    rewrite check_distribution. case_decide; [congruence|].
    apply Hother. congruence.
Qed.

(** X11.  Whatever has been paid out of a distribution is what its claimed
    holders were allocated, and that stays within the net amount and the gross
    rent of the distribution. *)
Theorem payouts_within_allocation st id :
  reachable st ->
  let d := distribution st id in
  Distribution.totalDistributed d = claimedTotal d /\
  claimedTotal d <= allocated d /\
  allocated d <= netAmount d /\
  netAmount d <= Distribution.totalRentCollected d.
Proof.
  intros Hr d.
  pose proof (reachable_Slots _ Hr) as [_ Htotal _ _].
  pose proof (rent_reachable_Inv _ Hr) as [_ _ Halloc _].
  split_and!.
  - apply Htotal.
  - apply claimedSum_le.
  - apply Halloc.
  - unfold netAmount. lia.
Qed.

(** X12.  The fee rates never leave their caps of 10% and 20%, so the fees of
    every distribution are at most a tenth and a fifth of its gross rent and
    the holders' net amount is at least 70% of it. *)
Theorem fee_caps st :
  reachable st ->
  platformFeePercentage st <= 1000 /\ managementFeePercentage st <= 2000 /\
  forall id,
    let d := distribution st id in
    10 * Distribution.platformFee d <= Distribution.totalRentCollected d /\
    5 * Distribution.propertyOwnerFee d <= Distribution.totalRentCollected d /\
    7 * Distribution.totalRentCollected d <= 10 * netAmount d.
Proof.
  intros Hr. pose proof (reachable_Slots _ Hr) as [_ _ [Hp Hm] Hfees].
  split_and!; [exact Hp|exact Hm|].
  intros id d. destruct (Hfees id) as [H1 H2]. fold d in H1, H2.
  unfold netAmount. split_and!; lia.
Qed.

(** X13.  Distribution ids are handed out in sequence: the ids announced by
    [DistributionCreated] are exactly 0, 1, ..., distributionCounter - 1, in
    that order, and the slots from the counter on hold no distribution. *)
Theorem distribution_ids_sequential st :
  reachable st ->
  createdIds (events st) = indices (distributionCounter st) /\
  N.of_nat (length (createdIds (events st))) = distributionCounter st /\
  forall id, distributionCounter st <= id ->
    getDistributionInvestors st id = [] /\
    forall h, getInvestorDistribution st id h = (0, false).
Proof.
  intros Hr. pose proof (reachable_Journal _ Hr) as [Hids _].
  pose proof (reachable_Slots _ Hr) as [Hfresh _ _ _].
  split_and!.
  - exact Hids.
  - rewrite Hids. unfold indices. rewrite length_fmap, length_seq. lia.
  - intros id Hid.
    destruct (Hfresh id Hid) as ((_ & _ & _ & _ & _ & Ha & Hi & _) & Hc & _).
    unfold getDistributionInvestors, getInvestorDistribution.
    rewrite Hi, Ha, Hc. split; [reflexivity|]. intros h. reflexivity.
Qed.

(** X14.  The per-property rent ledger is the sum of the deposits announced
    for that property: nothing else writes it. *)
Theorem rent_ledger_matches_deposits st propertyId :
  reachable st ->
  get (totalRentCollected st) propertyId = depositedFor propertyId (events st).
Proof. intros Hr. by destruct (reachable_Journal _ Hr) as [_ Hrent]. Qed.

(** X15.  Neither payout entry point checks that the distribution exists. On
    an id not yet handed out a claim reverts for lack of an allocation, while
    the owner's batch succeeds, pays nobody and marks the empty slot
    completed. *)
Theorem uncreated_distribution ctx st id :
  reachable st -> distributionCounter st <= id ->
  claimDistribution ctx st id
    = Revert (if _paused st then Paused
              else if isCompleted st id then AlreadyCompleted else NoAllocation) /\
  (_owner st = msg_sender ctx -> _paused st = false -> isCompleted st id = false ->
   batchDistribute ctx st id
   = Ok (emit (set_distribution st id
                 (Distribution.set_isCompleted (distribution st id) true))
           (DistributionCompleted id 0))).
Proof.
  intros Hr Hid. pose proof (reachable_Slots _ Hr) as [Hfresh _ _ _].
  destruct (Hfresh id Hid) as ((_ & _ & _ & _ & _ & Ha & Hi & _) & Hc & Htd).
  simpl in Ha, Hi. split.
  - unfold claimDistribution, whenNotPaused, isCompleted.
    destruct (_paused st); [reflexivity|]. simpl.
    destruct (Distribution.isCompleted (distribution st id)); [reflexivity|]. simpl.
    rewrite Hc, Ha. reflexivity.
  - intros Ho Hp Hopen. unfold batchDistribute, onlyOwner, whenNotPaused.
    unfold isCompleted in Hopen.
    rewrite Ho, N.eqb_refl, Hp, Hopen, Hi. simpl.
    unfold _checkDistributionCompletion. rewrite Hi, Hopen, Htd. reflexivity.
Qed.

(** X16.  Once a distribution is completed its record never changes again: no
    later transaction pays out of it, reopens it or touches its terms. *)
Theorem completed_distribution_frozen st st' id :
  steps st st' -> id < distributionCounter st -> isCompleted st id = true ->
  distribution st' id = distribution st id.
Proof.
  intros Hsteps Hid Hdone.
  enough (distribution st' id = distribution st id /\
          distributionCounter st <= distributionCounter st') by tauto.
  induction Hsteps as [st|ctx w st st1 c st2 _ IH He]; [split; [done|lia]|].
  destruct (IH Hid Hdone) as [Heq Hle].
  destruct (exec_completed_frozen _ _ _ _ _ id He) as [Heq' Hle'].
  - lia.
  - unfold isCompleted. by rewrite Heq.
  - split; [congruence|lia].
Qed.

(** X17.  A batch settles everybody or nobody: one listed holder who is still
    owed an allocation and whose address refuses the transfer makes the whole
    call revert. *)
Theorem batch_blocked_by_one_recipient ctx st id h :
  h ∈ getDistributionInvestors st id ->
  hasClaimed st id h = false -> 0 < allocationOf st id h ->
  accepts ctx h = false \/ balance st < allocationOf st id h ->
  (exists e, batchDistribute ctx st id = Revert e) /\
  forall w, run ctx w st (call_batchDistribute id) = st.
Proof.
  intros Hin Hcl Hpos Hacc.
  assert (Hrev : exists e, batchDistribute ctx st id = Revert e).
  { destruct (batchDistribute ctx st id) as [st'|e] eqn:H; [exfalso|eauto].
    apply batchDistribute_Ok in H as (_ & _ & _ & st1 & Hloop & _).
    destruct (batchLoop_accepts _ _ _ _ _ Hloop h Hin Hcl Hpos) as [? ?].
    destruct Hacc; [congruence|lia]. }
  split; [exact Hrev|]. intros w. destruct Hrev as [e He].
  unfold run. simpl. by rewrite He.
Qed.

(** X18.  Only the addresses in the token's investor list are allocated rent:
    a holder who is not listed, such as one who received shares by transfer,
    gets nothing from a new distribution however many shares they hold. *)
Theorem unlisted_holder_gets_nothing ctx w st pid g st' token h :
  reachable st ->
  createDistribution ctx w st pid g = Ok st' ->
  tokenAt w (get (propertyToToken st) pid) = Some token ->
  h ∉ FractionalToken.getInvestors token \/ FractionalToken.balanceOf token h = 0 ->
  allocationOf st' (distributionCounter st) h = 0 /\
  forall ctx', msg_sender ctx' = h ->
    exists e, claimDistribution ctx' st' (distributionCounter st) = Revert e.
Proof.
  intros Hr H Htoken Hh.
  pose proof (rent_reachable_Inv _ Hr) as [Hfresh _ _ _].
  destruct (Hfresh _ (N.le_refl (distributionCounter st))) as (Hempty & _).
  apply createDistribution_Ok in H
    as (token' & allocs & bal & _ & _ & _ & Htoken' & Hallocs & ->).
  rewrite Htoken in Htoken'. injection Htoken' as <-. rewrite Hempty in Hallocs.
  assert (Hz : allocationOf
                 (emit (set_balance
                    (set_distribution (set_distributionCounter st (distributionCounter st + 1))
                       (distributionCounter st)
                       (Distribution.mk pid (get (propertyToToken st) pid) g
                          (block_timestamp ctx) (FractionalToken.totalSupply token)
                          false allocs
                          (Distribution.claimed (distribution st (distributionCounter st)))
                          (FractionalToken.getInvestors token)
                          (Distribution.totalDistributed
                             (distribution st (distributionCounter st)))
                          (g * platformFeePercentage st / 10000)
                          (g * managementFeePercentage st / 10000))) bal)
                    (DistributionCreated (distributionCounter st) pid
                       (g - g * platformFeePercentage st / 10000
                        - g * managementFeePercentage st / 10000)
                       (N.of_nat (length (FractionalToken.getInvestors token)))))
                 (distributionCounter st) h = 0).
  { unfold allocationOf.
    rewrite distribution_emit, distribution_set_balance, distribution_set_eq. simpl.
    unfold get. destruct (allocs !! h) as [v|] eqn:Hv; [|reflexivity].
    apply (allocate_entries _ _ _ _ Hallocs) in Hv as (Hin & Hbal & _).
    destruct Hh as [Hh|Hh]; [done|lia]. }
  split; [exact Hz|].
  intros ctx' Hs.
  destruct (claimDistribution ctx' _ _) as [st2|e] eqn:Hc; [exfalso|eauto].
  apply claimDistribution_Ok in Hc as (_ & _ & _ & Hpos & _).
  rewrite Hs, Hz in Hpos. lia.
Qed.

(** X19.  What a successful claim does: the caller's allocation leaves the
    contract's balance and enters totalDistributed, the caller is marked
    claimed and announced by [RentDistributed], and no other holder and no
    other distribution is touched. *)
Theorem claim_accounting ctx st id st' :
  msg_sender ctx <> self st ->
  claimDistribution ctx st id = Ok st' ->
  let h := msg_sender ctx in
  let a := allocationOf st id h in
  0 < a /\ accepts ctx h = true /\
  balance st' + a = balance st /\
  Distribution.totalDistributed (distribution st' id)
    = Distribution.totalDistributed (distribution st id) + a /\
  hasClaimed st id h = false /\ hasClaimed st' id h = true /\
  (forall h', h' <> h -> hasClaimed st' id h' = hasClaimed st id h') /\
  (forall h', allocationOf st' id h' = allocationOf st id h') /\
  (forall id', id' <> id -> distribution st' id' = distribution st id') /\
  RentDistributed id h a ∈ events st'.
Proof.
  intros Hsender H. cbv zeta.
  pose proof (claimDistribution_Ok _ _ _ _ H) as (_ & _ & Hcl & Hpos & _).
  apply claimDistribution_exact in H as (Hle & Hacc & ->).
  rewrite (proj2 (N.eqb_neq _ _) Hsender).
  rewrite check_balance. unfold hasClaimed, allocationOf in *.
  split_and!; try done.
  - unfold paid. simpl. lia.
  - rewrite check_distribution, decide_True by done.
    rewrite paid_distribution, decide_True by done. reflexivity.
  - rewrite check_distribution, decide_True by done.
    rewrite paid_distribution, decide_True by done. simpl.
    by rewrite getb_insert_eq.
  - intros h' Hne. rewrite check_distribution, decide_True by done.
    rewrite paid_distribution, decide_True by done. simpl.
    by rewrite getb_insert_ne.
  - intros h'. rewrite check_distribution, decide_True by done.
    rewrite paid_distribution, decide_True by done. reflexivity.
  - intros id' Hne. rewrite check_distribution, decide_False by done.
    rewrite paid_distribution, decide_False by done. reflexivity.
  - unfold _checkDistributionCompletion, paid.
    destruct (_ && _); simpl; rewrite ?elem_of_app, !list_elem_of_singleton; auto.
Qed.

(** X20.  The owner's emergency withdrawal takes the whole balance, allocated
    or not, and leaves every distribution as it was: holders keep their unpaid
    allocations on record, but no claim can be paid until ether comes back. *)
Theorem emergencyWithdraw_strands_claims ctx st st' :
  _owner st <> self st ->
  emergencyWithdraw ctx st = Ok st' ->
  msg_sender ctx = _owner st /\ 0 < balance st /\ balance st' = 0 /\
  distributions st' = distributions st /\
  (forall ctx' id, exists e, claimDistribution ctx' st' id = Revert e) /\
  (forall ctx' id h,
     h ∈ getDistributionInvestors st id ->
     hasClaimed st id h = false -> 0 < allocationOf st id h ->
     exists e, batchDistribute ctx' st' id = Revert e).
Proof.
  intros Hown H. unfold emergencyWithdraw in H.
  apply bind_Ok in H as (? & Ho & H). apply require_Ok, N.eqb_eq in Ho.
  apply bind_Ok in H as (? & Hpos & H). apply require_Ok, N.ltb_lt in Hpos.
  apply rent_send_exact in H as (_ & _ & ->).
  rewrite (proj2 (N.eqb_neq _ _) Hown). simpl.
  split_and!; try done; [lia| |].
  - intros ctx' id.
    destruct (claimDistribution ctx' _ id) as [st2|e] eqn:Hc; [exfalso|eauto].
    pose proof (claimDistribution_Ok _ _ _ _ Hc) as (_ & _ & _ & Ha & _).
    apply claimDistribution_exact in Hc as (Hle & _).
    unfold allocationOf in *. rewrite distribution_set_balance in *.
    simpl in Hle. lia.
  - intros ctx' id h Hin Hcl Ha.
    destruct (batchDistribute ctx' _ id) as [st2|e] eqn:Hb; [exfalso|eauto].
    apply batchDistribute_Ok in Hb as (_ & _ & _ & st1 & Hloop & _).
    destruct (batchLoop_accepts _ _ _ _ _ Hloop h Hin Hcl Ha) as [_ Hle].
    unfold allocationOf in Hle. rewrite distribution_set_balance in Hle.
    unfold allocationOf in Ha. simpl in Hle. lia.
Qed.

Import Scenario Cases.

Lemma payouts_within_allocation_witness :
  reachable rentAliceClaimed /\
  Distribution.totalDistributed (distribution rentAliceClaimed 0)
    = claimedTotal (distribution rentAliceClaimed 0) /\
  allocated (distribution rentAliceClaimed 0)
    <= netAmount (distribution rentAliceClaimed 0).
Proof.
  destruct (payouts_within_allocation rentAliceClaimed 0 rentAliceClaimed_reachable)
    as (H1 & _ & H3 & _).
  split_and!; [exact rentAliceClaimed_reachable|exact H1|exact H3].
Defined.

Lemma fee_caps_witness :
  reachable rentCreated /\
  platformFeePercentage rentCreated <= 1000 /\
  7 * Distribution.totalRentCollected (distribution rentCreated 0)
    <= 10 * netAmount (distribution rentCreated 0).
Proof.
  destruct (fee_caps rentCreated rentCreated_reachable) as (Hp & _ & Hd).
  split_and!; [exact rentCreated_reachable|exact Hp|exact (proj2 (proj2 (Hd 0)))].
Defined.

Lemma distribution_ids_sequential_witness :
  reachable rentCreated /\
  createdIds (events rentCreated) = indices (distributionCounter rentCreated).
Proof.
  split; [exact rentCreated_reachable|].
  exact (proj1 (distribution_ids_sequential rentCreated rentCreated_reachable)).
Defined.

Lemma rent_ledger_matches_deposits_witness :
  reachable rentDeposited /\
  get (totalRentCollected rentDeposited) 7 = depositedFor 7 (events rentDeposited).
Proof.
  split; [exact rentDeposited_reachable|].
  exact (rent_ledger_matches_deposits rentDeposited 7 rentDeposited_reachable).
Defined.

Lemma uncreated_distribution_witness :
  reachable rentCreated /\ distributionCounter rentCreated <= 5 /\
  claimDistribution (asUser alice) rentCreated 5 = Revert NoAllocation.
Proof.
  assert (Hid : distributionCounter rentCreated <= 5) by (vm_compute; discriminate).
  split_and!; [exact rentCreated_reachable|exact Hid|].
  exact (proj1 (uncreated_distribution (asUser alice) rentCreated 5
                  rentCreated_reachable Hid)).
Defined.

Lemma completed_distribution_frozen_witness :
  steps rentCompleted rentLater /\ 0 < distributionCounter rentCompleted /\
  isCompleted rentCompleted 0 = true /\
  distribution rentLater 0 = distribution rentCompleted 0.
Proof.
  assert (Hs : steps rentCompleted rentLater).
  { eapply (steps_step (asUser manager) world rentCompleted rentCompleted
              (call_depositRent 500 7)); [apply steps_refl|].
    vm_compute. reflexivity. }
  assert (Hid : 0 < distributionCounter rentCompleted) by (vm_compute; reflexivity).
  assert (Hc : isCompleted rentCompleted 0 = true) by (vm_compute; reflexivity).
  split_and!; [exact Hs|exact Hid|exact Hc|].
  exact (completed_distribution_frozen rentCompleted rentLater 0 Hs Hid Hc).
Defined.

Lemma batch_blocked_by_one_recipient_witness :
  bob ∈ getDistributionInvestors rentCreated 0 /\
  hasClaimed rentCreated 0 bob = false /\ 0 < allocationOf rentCreated 0 bob /\
  accepts bobRefuses bob = false /\
  exists e, batchDistribute bobRefuses rentCreated 0 = Revert e.
Proof.
  assert (Hin : bob ∈ getDistributionInvestors rentCreated 0).
  { assert (Hl : getDistributionInvestors rentCreated 0 = [alice; bob])
      by (vm_compute; reflexivity).
    rewrite Hl. apply elem_of_cons. right. apply elem_of_cons. by left. }
  assert (Hcl : hasClaimed rentCreated 0 bob = false) by (vm_compute; reflexivity).
  assert (Hpos : 0 < allocationOf rentCreated 0 bob) by (vm_compute; reflexivity).
  assert (Hacc : accepts bobRefuses bob = false) by reflexivity.
  split_and!; [exact Hin|exact Hcl|exact Hpos|exact Hacc|].
  exact (proj1 (batch_blocked_by_one_recipient bobRefuses rentCreated 0 bob
                  Hin Hcl Hpos (or_introl Hacc))).
Defined.

Lemma unlisted_holder_gets_nothing_witness :
  reachable rentDeposited /\
  createDistribution (asUser manager) worldGifted rentDeposited 7 1000 = Ok rentGifted /\
  tokenAt worldGifted (get (propertyToToken rentDeposited) 7) = Some tokenGifted /\
  (bob ∉ FractionalToken.getInvestors tokenGifted) /\
  FractionalToken.balanceOf tokenGifted bob = 100 /\
  allocationOf rentGifted (distributionCounter rentDeposited) bob = 0.
Proof.
  assert (Hc : createDistribution (asUser manager) worldGifted rentDeposited 7 1000
               = Ok rentGifted) by (vm_compute; reflexivity).
  assert (Ht : tokenAt worldGifted (get (propertyToToken rentDeposited) 7)
               = Some tokenGifted) by reflexivity.
  assert (Hn : bob ∉ FractionalToken.getInvestors tokenGifted).
  { assert (Hl : FractionalToken.getInvestors tokenGifted = [alice])
      by (vm_compute; reflexivity).
    rewrite Hl. intros Hin. apply elem_of_cons in Hin as [Hin|Hin];
      [discriminate|by apply elem_of_nil in Hin]. }
  split_and!; [exact rentDeposited_reachable|exact Hc|exact Ht|exact Hn
              |vm_compute; reflexivity|].
  exact (proj1 (unlisted_holder_gets_nothing (asUser manager) worldGifted
                  rentDeposited 7 1000 rentGifted tokenGifted bob
                  rentDeposited_reachable Hc Ht (or_introl Hn))).
Defined.

Lemma claim_accounting_witness :
  msg_sender (asUser alice) <> self rentCreated /\
  claimDistribution (asUser alice) rentCreated 0 = Ok rentAliceClaimed /\
  balance rentAliceClaimed + allocationOf rentCreated 0 (msg_sender (asUser alice))
    = balance rentCreated.
Proof.
  assert (Hs : msg_sender (asUser alice) <> self rentCreated) by discriminate.
  assert (Hc : claimDistribution (asUser alice) rentCreated 0 = Ok rentAliceClaimed)
    by (vm_compute; reflexivity).
  destruct (claim_accounting (asUser alice) rentCreated 0 rentAliceClaimed Hs Hc)
    as (_ & _ & Hb & _).
  split_and!; [exact Hs|exact Hc|exact Hb].
Defined.

Lemma emergencyWithdraw_strands_claims_witness :
  _owner rentCreated <> self rentCreated /\
  emergencyWithdraw (asUser operator) rentCreated = Ok rentDrained /\
  balance rentDrained = 0 /\
  exists e, claimDistribution (asUser alice) rentDrained 0 = Revert e.
Proof.
  assert (Ho : _owner rentCreated <> self rentCreated) by discriminate.
  assert (Hw : emergencyWithdraw (asUser operator) rentCreated = Ok rentDrained)
    by (vm_compute; reflexivity).
  destruct (emergencyWithdraw_strands_claims (asUser operator) rentCreated
              rentDrained Ho Hw) as (_ & _ & Hz & _ & Hcl & _).
  split_and!; [exact Ho|exact Hw|exact Hz|exact (Hcl (asUser alice) 0)].
Defined.

End RentDistributionAccounting.

(** ** PropertyNFT: the compliance gate seen from the token *)
Module PropertyNFTAdminFacts.
Import PropertyNFT PropertyNFTAdmin.

Lemma kycLoop_spec users verified : forall st,
  _owner (kycLoop users verified st) = _owner st /\
  _paused (kycLoop users verified st) = _paused st /\
  _owners (kycLoop users verified st) = _owners st /\
  properties (kycLoop users verified st) = properties st /\
  forall a, getb (kycVerified (kycLoop users verified st)) a
            = if decide (a ∈ users) then verified else getb (kycVerified st) a.
Proof.
  induction users as [|u users IH]; intros st; simpl.
  - split_and!; done.
  - destruct (IH (set_kycVerified st (<[u := verified]> (kycVerified st))))
      as (-> & -> & -> & -> & Hk).
    split_and!; try done. intros a. rewrite Hk. simpl.
    destruct (decide (a ∈ users)) as [Hin|Hnin].
    + rewrite decide_True; [done|]. by apply elem_of_cons; right.
    + destruct (decide (u = a)) as [->|Hne].
      * rewrite getb_insert_eq, decide_True; [done|]. by apply elem_of_cons; left.
      * rewrite getb_insert_ne by done. rewrite decide_False; [done|].
        intros [?|?]%elem_of_cons; congruence.
Qed.

Ltac both_sides :=
  simpl;
  repeat match goal with
  | |- ?l = ?r => first [ reflexivity | fail 1 ]
  | |- context [require ?c ?e] => destruct c eqn:?; simpl
  | |- context [mul ?a ?b] => destruct (mul a b) eqn:?; simpl
  | |- context [sub ?a ?b] => destruct (sub a b) eqn:?; simpl
  | |- context [add ?a ?b] => destruct (add a b) eqn:?; simpl
  | |- context [FractionalToken._transfer ?s ?a ?b ?c] =>
      destruct (FractionalToken._transfer s a b c) eqn:?; simpl
  | |- context [FractionalToken.send ?x ?s ?a ?b] =>
      destruct (FractionalToken.send x s a b) eqn:?; simpl
  | |- context [if ?c then _ else _] => destruct c eqn:?; simpl
  end.

Lemma sameGate_tokenOf_purchase ctx nft nft1 st value n :
  sameGate nft nft1 ->
  tokenOf (FractionalToken.purchaseTokens ctx nft1 st value n)
  = tokenOf (FractionalToken.purchaseTokens ctx nft st value n).
Proof.
  intros (Hk & Ho & Hex).
  unfold tokenOf, FractionalToken.purchaseTokens, FractionalToken.onlyKYCVerified,
    FractionalToken.onlyActiveToken, FractionalToken.whenNotPaused,
    updateAvailableTokens, _exists.
  rewrite Hk, Ho, Hex. both_sides.
Qed.

Lemma sameGate_tokenOf_sell ctx nft nft1 st n :
  sameGate nft nft1 ->
  tokenOf (FractionalToken.sellTokens ctx nft1 st n)
  = tokenOf (FractionalToken.sellTokens ctx nft st n).
Proof.
  intros (Hk & Ho & Hex).
  unfold tokenOf, FractionalToken.sellTokens, FractionalToken.onlyKYCVerified,
    FractionalToken.whenNotPaused, updateAvailableTokens, _exists.
  rewrite Hk, Ho, Hex. both_sides.
Qed.

(** X21.  The active flag that [setPropertyStatus] writes in the registry is
    not what the token checks: whatever the property owner sets it to,
    purchases and sales of the property's shares go through or revert exactly
    as before, and leave the token in the same state. *)
Theorem property_status_not_read_by_token sender nft tokenId isActive nft1 :
  setPropertyStatus sender nft tokenId isActive = Ok nft1 ->
  PropertyNFT.isActive (property nft1 tokenId) = isActive /\
  (forall ctx st value n,
     tokenOf (FractionalToken.purchaseTokens ctx nft1 st value n)
     = tokenOf (FractionalToken.purchaseTokens ctx nft st value n)) /\
  (forall ctx st n,
     tokenOf (FractionalToken.sellTokens ctx nft1 st n)
     = tokenOf (FractionalToken.sellTokens ctx nft st n)).
Proof.
  intros H. unfold setPropertyStatus in H.
  apply bind_Ok in H as (? & _ & H). apply bind_Ok in H as (? & _ & H).
  injection H as <-.
  assert (Hgate : sameGate nft
            (set_properties nft
               (<[tokenId := mkPropertyInfo (totalValue (property nft tokenId))
                    (totalTokens (property nft tokenId))
                    (availableTokens (property nft tokenId))
                    (tokenPrice (property nft tokenId))
                    (propertyOwner (property nft tokenId)) isActive
                    (createdAt (property nft tokenId))]> (properties nft))))
    by (split_and!; reflexivity).
  split_and!.
  - unfold property. simpl. by rewrite lookup_insert_eq.
  - intros. by apply sameGate_tokenOf_purchase.
  - intros. by apply sameGate_tokenOf_sell.
Qed.

(** X22.  Revoking an address's KYC status locks the shares it holds: it can
    no longer buy, sell or transfer, and nobody can transfer shares to it;
    every other address passes the gate as before. *)
Theorem kyc_revocation_locks_holder sender nft user nft' :
  setKYCStatus sender nft user false = Ok nft' ->
  sender = _owner nft /\
  (forall a, a <> user ->
     getb (kycVerified nft') a = getb (kycVerified nft) a) /\
  (forall ctx st, msg_sender ctx = user ->
     (forall value n,
        FractionalToken.purchaseTokens ctx nft' st value n = Revert KYCRequired) /\
     (forall n, FractionalToken.sellTokens ctx nft' st n = Revert KYCRequired) /\
     (forall to amount,
        FractionalToken.transfer ctx nft' st to amount = Revert KYCRequired) /\
     (forall from to amount,
        FractionalToken.transferFrom ctx nft' st from to amount
        = Revert KYCRequired)) /\
  (forall ctx st amount,
     exists e, FractionalToken.transfer ctx nft' st user amount = Revert e) /\
  (forall ctx st from amount,
     exists e, FractionalToken.transferFrom ctx nft' st from user amount = Revert e).
Proof.
  intros H. unfold setKYCStatus in H.
  apply bind_Ok in H as (? & Ho & H). apply require_Ok, N.eqb_eq in Ho.
  injection H as <-. simpl.
  split_and!; [done| | | |].
  - intros a Ha. by rewrite getb_insert_ne.
  - intros ctx st <-.
    unfold FractionalToken.purchaseTokens, FractionalToken.sellTokens,
      FractionalToken.transfer, FractionalToken.transferFrom,
      FractionalToken.onlyKYCVerified.
    simpl. rewrite getb_insert_eq. split_and!; reflexivity.
  - intros ctx st amount.
    unfold FractionalToken.transfer, FractionalToken.onlyKYCVerified. simpl.
    rewrite getb_insert_eq.
    destruct (getb _ (msg_sender ctx)); simpl; eauto.
  - intros ctx st from amount.
    unfold FractionalToken.transferFrom, FractionalToken.onlyKYCVerified. simpl.
    rewrite getb_insert_eq.
    destruct (getb _ (msg_sender ctx)); simpl; eauto.
Qed.

Import Scenario Cases.

Lemma property_status_not_read_by_token_witness :
  setPropertyStatus manager nft 7 false = Ok nftInactive /\
  PropertyNFT.isActive (property nftInactive 7) = false /\
  tokenOf (FractionalToken.purchaseTokens (asUser alice) nftInactive tokenDeployed 600 600)
  = Ok tokenAlice.
Proof.
  assert (Hs : setPropertyStatus manager nft 7 false = Ok nftInactive)
    by (vm_compute; reflexivity).
  destruct (property_status_not_read_by_token manager nft 7 false nftInactive Hs)
    as (Hf & Hbuy & _).
  split_and!; [exact Hs|exact Hf|].
  rewrite Hbuy. vm_compute. reflexivity.
Defined.

Lemma kyc_revocation_locks_holder_witness :
  setKYCStatus tokenAddress nft alice false = Ok nftRevoked /\
  FractionalToken.balanceOf tokenAlice alice = 600 /\
  FractionalToken.sellTokens (asUser alice) nftRevoked tokenAlice 100
  = Revert KYCRequired.
Proof.
  assert (Hs : setKYCStatus tokenAddress nft alice false = Ok nftRevoked)
    by (vm_compute; reflexivity).
  destruct (kyc_revocation_locks_holder tokenAddress nft alice nftRevoked Hs)
    as (_ & _ & Hlock & _).
  split_and!; [exact Hs|vm_compute; reflexivity|].
  exact (proj1 (proj2 (Hlock (asUser alice) tokenAlice eq_refl)) 100).
Defined.

End PropertyNFTAdminFacts.

(** ** PropertyNFT: what a transfer of the NFT carries with it *)
Module PropertyNFTTransferFacts.
Import PropertyNFT PropertyNFTAdmin PropertyNFTTransfer.

Lemma transferFrom_inr approved sender st from to tokenId st' :
  transferFrom approved sender st from to tokenId = inr st' ->
  getb (kycVerified st) sender = true /\ getb (kycVerified st) to = true /\
  _exists st tokenId = true /\ ownerOf st tokenId = from /\ to <> 0 /\
  (sender = from \/ approved sender tokenId = true) /\
  st' = set__owners st (<[tokenId := to]> (_owners st)).
Proof.
  unfold transferFrom. intros H.
  destruct (getb (kycVerified st) sender); [|discriminate].
  destruct (getb (kycVerified st) to); [|discriminate].
  destruct (_exists st tokenId); [|discriminate]. simpl in H.
  destruct (N.eqb_spec sender (ownerOf st tokenId)) as [Hs|Hs]; simpl in H;
    [|destruct (approved sender tokenId) eqn:Ha; [|discriminate]]; simpl in H.
  all: destruct (N.eqb_spec (ownerOf st tokenId) from) as [Ho|Ho]; [|discriminate].
  all: simpl in H; destruct (N.eqb_spec to 0); [discriminate|].
  all: injection H as <-; split_and!; auto; left; congruence.
Qed.

Lemma getProperty_set__owners st tokenId to id :
  _exists st tokenId = true -> to <> 0 ->
  getProperty (set__owners st (<[tokenId := to]> (_owners st))) id = getProperty st id.
Proof.
  intros He Hto. unfold getProperty, _exists, property in *. simpl.
  destruct (decide (tokenId = id)) as [<-|Hne].
  - rewrite get_insert_eq, He. by destruct (N.eqb_spec to 0).
  - by rewrite get_insert_ne.
Qed.

(** X29.  Transferring the NFT moves the ERC721 ownership and nothing else: the
    [propertyOwner] recorded at minting stays, and it is that field, not the
    holder of the NFT, that [onlyPropertyOwner] of FractionalToken and of
    RentDistribution compares the caller with.  So withdrawing the token's
    balance, switching the token on and off, depositing rent and creating
    distributions, with the management fee they pay, stay with the original
    property owner. *)
Theorem property_rights_stay_with_the_minter approved sender st from to tokenId st' :
  transferFrom approved sender st from to tokenId = inr st' ->
  ownerOf st tokenId = from /\ ownerOf st' tokenId = to /\
  properties st' = properties st /\
  propertyOwner (property st' tokenId) = propertyOwner (property st tokenId) /\
  (forall id, getProperty st' id = getProperty st id) /\
  (forall ctx token,
     FractionalToken.onlyPropertyOwner ctx st' token
     = FractionalToken.onlyPropertyOwner ctx st token /\
     FractionalToken.withdrawBalance ctx st' token
     = FractionalToken.withdrawBalance ctx st token /\
     FractionalToken.setTokenStatus ctx st' token
     = FractionalToken.setTokenStatus ctx st token) /\
  (forall ctx tokens rent value propertyId rentAmount,
     RentDistribution.depositRent ctx (RentDistribution.mkWorld st' tokens)
       rent value propertyId
     = RentDistribution.depositRent ctx (RentDistribution.mkWorld st tokens)
         rent value propertyId /\
     RentDistribution.createDistribution ctx (RentDistribution.mkWorld st' tokens)
       rent propertyId rentAmount
     = RentDistribution.createDistribution ctx (RentDistribution.mkWorld st tokens)
         rent propertyId rentAmount).
Proof.
  intros H. apply transferFrom_inr in H as (_ & _ & He & Ho & Hto & _ & ->).
  assert (Hg : forall id,
            getProperty (set__owners st (<[tokenId := to]> (_owners st))) id
            = getProperty st id)
    by (intros id; by apply getProperty_set__owners).
  split_and!; try done.
  - unfold ownerOf. simpl. by rewrite get_insert_eq.
  - intros ctx token.
    unfold FractionalToken.withdrawBalance, FractionalToken.setTokenStatus,
      FractionalToken.onlyPropertyOwner.
    by rewrite Hg.
  - intros ctx tokens rent value propertyId rentAmount.
    unfold RentDistribution.depositRent, RentDistribution.createDistribution,
      RentDistribution.onlyPropertyOwner. simpl.
    by rewrite Hg.
Qed.

Import Scenario Cases.

Lemma property_rights_stay_with_the_minter_witness :
  transferFrom (fun _ _ => false) manager nftOwnerVerified manager alice 7
    = inr nftMoved /\
  ownerOf nftMoved 7 = alice /\
  propertyOwner (property nftMoved 7) = manager /\
  FractionalToken.withdrawBalance (asUser alice) nftMoved tokenAlice
    = Revert NotPropertyOwner.
Proof.
  assert (Ht : transferFrom (fun _ _ => false) manager nftOwnerVerified manager alice 7
               = inr nftMoved) by (vm_compute; reflexivity).
  destruct (property_rights_stay_with_the_minter (fun _ _ => false) manager
              nftOwnerVerified manager alice 7 nftMoved Ht)
    as (_ & Ho & _ & Hp & _ & Hft & _).
  split_and!; [exact Ht|exact Ho|exact Hp|].
  rewrite (proj1 (proj2 (Hft (asUser alice) tokenAlice))). vm_compute. reflexivity.
Defined.

End PropertyNFTTransferFacts.

(** ** PropertyManager *)
Module PropertyManagerFacts.
Import PropertyManager.

Lemma take_insert_S {A} (l : list A) (k : nat) (v : A) :
  (k < length l)%nat -> take (S k) (<[k := v]> l) = take k l ++ [v].
Proof.
  intros Hk. rewrite (take_S_r _ _ v) by by apply list_lookup_insert_eq.
  by rewrite take_insert_ge.
Qed.

Lemma store_Done {A} (a : list A) (k : nat) (v : A) :
  (k < length a)%nat -> store a (N.of_nat k) v = Done (<[k := v]> a).
Proof.
  intros Hk. unfold store.
  destruct (N.ltb_spec (N.of_nat k) (N.of_nat (length a))); [|lia].
  by rewrite Nat2N.id.
Qed.

Lemma add_fits a b : a + b <= MAX_UINT256 -> add a b = Ok (a + b).
Proof. intros H. unfold add. by destruct (N.leb_spec (a + b) MAX_UINT256); [|lia]. Qed.

Lemma pageLoop_Done st offset m : forall k propertyIds fractionalTokens,
  length propertyIds = (k + m)%nat -> length fractionalTokens = (k + m)%nat ->
  offset + N.of_nat (k + m) <= MAX_UINT256 + 1 ->
  pageLoop st offset (N.of_nat <$> seq k m) propertyIds fractionalTokens
  = Done (take k propertyIds
            ++ ((fun i => offset + i) <$> (N.of_nat <$> seq k m)),
          take k fractionalTokens
            ++ ((fun i => get (propertyToFractionalToken st) (offset + i))
                  <$> (N.of_nat <$> seq k m))).
Proof.
  induction m as [|m IH]; intros k ids toks Hi Ht Hmax; simpl.
  - rewrite !app_nil_r, !take_ge by lia. reflexivity.
  - rewrite add_fits by lia. simpl.
    rewrite store_Done by lia. simpl. rewrite store_Done by lia. simpl.
    rewrite IH by (rewrite ?length_insert; lia).
    rewrite !take_insert_S by lia. by rewrite <- !app_assoc.
Qed.

Lemma length_indices n : length (indices n) = N.to_nat n.
Proof. unfold indices. by rewrite length_fmap, length_seq. Qed.

Lemma elem_of_indices n i : i ∈ indices n <-> i < n.
Proof.
  unfold indices. rewrite list_elem_of_fmap. split.
  - intros (k & -> & Hk). apply elem_of_seq in Hk. lia.
  - intros Hi. exists (N.to_nat i). split; [by rewrite N2Nat.id|].
    apply elem_of_seq. lia.
Qed.

Lemma indices_add a c :
  indices (a + c) = indices a ++ ((fun i => a + i) <$> indices c).
Proof.
  unfold indices. replace (N.to_nat (a + c)) with (N.to_nat a + N.to_nat c)%nat by lia.
  rewrite seq_app, fmap_app. f_equal. simpl.
  replace (seq (N.to_nat a) (N.to_nat c))
    with (Nat.add (N.to_nat a) <$> seq 0 (N.to_nat c))
    by (rewrite fmap_add_seq; f_equal; lia).
  rewrite <- !list_fmap_compose. apply list_fmap_ext. intros _ k _. simpl.
  lia.
Qed.

Lemma page_add st offset a c :
  page st offset (a + c)
  = ((page st offset a).1 ++ (page st (offset + a) c).1,
     (page st offset a).2 ++ (page st (offset + a) c).2).
Proof.
  unfold page. simpl. rewrite indices_add, !fmap_app, <- !list_fmap_compose.
  f_equal; f_equal; apply list_fmap_ext; intros _ k _; simpl;
    first [lia | f_equal; lia].
Qed.

Lemma getProperties_shape st offset limit :
  getProperties st offset limit
  = (if totalProperties st <=? offset then Failed OffsetOutOfBounds
     else if MAX_UINT256 <? offset + limit then Failed (Reverted PanicOverflow)
     else Done (page st offset (N.min limit (totalProperties st - offset)))).
Proof.
  unfold getProperties.
  destruct (N.leb_spec (totalProperties st) offset) as [Hge|Hlt].
  { by destruct (N.ltb_spec offset (totalProperties st)); [lia|]. }
  destruct (N.ltb_spec offset (totalProperties st)); [simpl|lia].
  unfold add.
  destruct (N.ltb_spec MAX_UINT256 (offset + limit)) as [Hov|Hfit].
  { by destruct (N.leb_spec (offset + limit) MAX_UINT256); [lia|]. }
  destruct (N.leb_spec (offset + limit) MAX_UINT256); [simpl|lia].
  set (end_ := if totalProperties st <? offset + limit
               then totalProperties st else offset + limit).
  assert (Hend : end_ = offset + N.min limit (totalProperties st - offset)).
  { unfold end_. destruct (N.ltb_spec (totalProperties st) (offset + limit)); lia. }
  unfold sub. destruct (N.leb_spec offset end_); [simpl|lia].
  replace (end_ - offset) with (N.min limit (totalProperties st - offset)) by lia.
  remember (N.min limit (totalProperties st - offset)) as n eqn:Hn.
  unfold indices.
  rewrite (pageLoop_Done st offset (N.to_nat n) 0).
  2,3: rewrite length_replicate; lia.
  2: lia.
  unfold page, indices. simpl. do 2 f_equal.
  by rewrite <- (list_fmap_compose (fun i => offset + i)).
Qed.

(** X23.  [getProperties] in closed form: it reverts when the offset is not
    below the number of properties or when offset + limit overflows, and
    otherwise returns the consecutive ids from the offset on, cut at the
    number of properties, each with its registered token. *)
Theorem getProperties_page st offset limit :
  getProperties st offset limit
  = (if totalProperties st <=? offset then Failed OffsetOutOfBounds
     else if MAX_UINT256 <? offset + limit then Failed (Reverted PanicOverflow)
     else Done (page st offset (N.min limit (totalProperties st - offset)))) /\
  forall propertyIds fractionalTokens,
    getProperties st offset limit = Done (propertyIds, fractionalTokens) ->
    length propertyIds = length fractionalTokens /\
    N.of_nat (length propertyIds) = N.min limit (totalProperties st - offset) /\
    (forall k id, propertyIds !! k = Some id ->
       id = offset + N.of_nat k /\ id < totalProperties st /\
       fractionalTokens !! k = Some (get (propertyToFractionalToken st) id)).
Proof.
  pose proof (getProperties_shape st offset limit) as Hform.
  split; [exact Hform|].
  intros ids toks H. rewrite Hform in H.
  destruct (totalProperties st <=? offset) eqn:Hoff; [discriminate|].
  destruct (MAX_UINT256 <? offset + limit); [discriminate|].
  apply N.leb_gt in Hoff.
  injection H as <- <-. unfold page.
  set (n := N.min limit (totalProperties st - offset)).
  rewrite !length_fmap, length_indices. split_and!; [done|lia|].
  intros k id Hk. rewrite list_lookup_fmap in Hk.
  destruct (indices n !! k) as [i|] eqn:Hi; [|discriminate].
  injection Hk as <-.
  assert (Hin : i ∈ indices n) by (eapply list_elem_of_lookup_2, Hi).
  apply elem_of_indices in Hin.
  unfold indices in Hi. rewrite list_lookup_fmap in Hi.
  destruct (seq 0 (N.to_nat n) !! k) as [j|] eqn:Hj; [|discriminate].
  injection Hi as <-. apply lookup_seq in Hj as [-> _]. simpl.
  split_and!; [done|lia|].
  rewrite !list_lookup_fmap.
  unfold indices. rewrite list_lookup_fmap.
  rewrite (lookup_seq_lt 0 (N.to_nat n) k) by lia. reflexivity.
Qed.

(** X24.  Walking the list page by page loses nothing: a page of [a] entries
    followed by the page of [b] entries that starts where it ended is the page
    of [a + b] entries. *)
Theorem getProperties_pages_concatenate st offset a b ids1 tokens1 ids2 tokens2 :
  getProperties st offset a = Done (ids1, tokens1) ->
  getProperties st (offset + a) b = Done (ids2, tokens2) ->
  getProperties st offset (a + b) = Done (ids1 ++ ids2, tokens1 ++ tokens2).
Proof.
  intros H1 H2.
  pose proof (getProperties_shape st offset a) as F1.
  pose proof (getProperties_shape st (offset + a) b) as F2.
  pose proof (getProperties_shape st offset (a + b)) as F3.
  rewrite H1 in F1. rewrite H2 in F2. rewrite F3. clear F3 H1 H2.
  destruct (N.leb_spec (totalProperties st) offset); [discriminate|].
  destruct (N.leb_spec (totalProperties st) (offset + a)); [discriminate|].
  destruct (N.ltb_spec MAX_UINT256 (offset + a)); [discriminate|].
  destruct (N.ltb_spec MAX_UINT256 (offset + a + b)); [discriminate|].
  destruct (N.ltb_spec MAX_UINT256 (offset + (a + b))); [lia|].
  replace (N.min (a + b) (totalProperties st - offset))
    with (a + N.min b (totalProperties st - (offset + a))) by lia.
  replace (N.min a (totalProperties st - offset)) with a in F1 by lia.
  assert (E1 : page st offset a = (ids1, tokens1)) by congruence.
  assert (E2 : page st (offset + a) (N.min b (totalProperties st - (offset + a)))
               = (ids2, tokens2)) by congruence.
  by rewrite page_add, E1, E2.
Qed.

Lemma bind_Done {A B} (r : outcome A) (k : A -> outcome B) (b : B) :
  (r ≫= k) = Done b -> exists a, r = Done a /\ k a = Done b.
Proof. destruct r as [a|e]; simpl; [eauto | discriminate]. Qed.

Lemma demand_Done (c : bool) (r : Reason) (u : unit) :
  demand c r = Done u -> c = true.
Proof. destruct c; simpl; [reflexivity | discriminate]. Qed.

Lemma lift_Done {A} (r : result A) (a : A) : lift r = Done a -> r = Ok a.
Proof. destruct r; simpl; congruence. Qed.

Lemma purchaseTokens_gate ctx nft st value n nft' st' :
  FractionalToken.purchaseTokens ctx nft st value n = Ok (nft', st') ->
  getb (PropertyNFT.kycVerified nft) (msg_sender ctx) = true /\
  PropertyNFT._owner nft = FractionalToken.self st.
Proof.
  intros H. unfold FractionalToken.purchaseTokens in H.
  apply bind_Ok in H as (? & Hk & H). apply require_Ok in Hk.
  split; [exact Hk|].
  destruct (getb (FractionalToken.isInvestor st) (msg_sender ctx)) eqn:Hinv.
  all: FractionalTokenFacts.token_norm; subst; simpl in *; rewrite ?Hinv in *; simpl in *.
  all: repeat match goal with
       | H : PropertyNFT.updateAvailableTokens _ _ _ _ = Ok _ |- _ =>
           apply FractionalTokenAccounting.updateAvailableTokens_Ok in H as (Ho & _)
       end; simpl in *; congruence.
Qed.

(** X25.  In the deployment of scripts/deploy.js, where PropertyManager
    owns the PropertyNFT, [investInProperty] cannot succeed: the purchase it
    forwards to the token ends with [PropertyNFT.updateAvailableTokens],
    which only the registry's owner may call, and inside the purchase the
    caller of the registry is the token, not PropertyManager.  Whatever the
    caller, the property, the amount and the payment, the call fails. *)
Theorem invest_through_manager_fails ctx w st value propertyId n :
  PropertyNFT._owner (propertyNFT w) = self st ->
  (forall token,
     tokenAt w (get (propertyToFractionalToken st) propertyId) = Some token ->
     FractionalToken.self token <> self st) ->
  exists r, investInProperty ctx w st value propertyId n = Failed r.
Proof.
  intros Hown Htoken.
  destruct (investInProperty ctx w st value propertyId n) as [[st' w']|r] eqn:H;
    [exfalso|eauto].
  unfold investInProperty in H.
  apply bind_Done in H as (? & _ & H).
  apply bind_Done in H as (? & _ & H).
  apply bind_Done in H as (? & _ & H).
  apply bind_Done in H as (? & _ & H).
  apply bind_Done in H as (? & _ & H).
  apply bind_Done in H as (token & Ht & H).
  unfold fractionalTokenAt in Ht. simpl in Ht.
  destruct (tokenAt w (get (propertyToFractionalToken st) propertyId))
    as [token0|] eqn:Hat; [|discriminate].
  injection Ht as ->.
  apply bind_Done in H as ([nft' token'] & Hbuy & _). apply lift_Done in Hbuy.
  apply purchaseTokens_gate in Hbuy as [_ Hreg].
  apply (Htoken token eq_refl). congruence.
Qed.

Lemma emergencyPause_Done ctx w st st' w' :
  emergencyPause ctx w st = Done (st', w') <->
  _owner st = msg_sender ctx /\ _paused st = false /\
  PropertyNFT._owner (propertyNFT w) = self st /\
  PropertyNFT._paused (propertyNFT w) = false /\
  RentDistribution._owner (rentDistribution w) = self st /\
  RentDistribution._paused (rentDistribution w) = false /\
  st' = set__paused st true /\
  w' = mkWorld (PropertyNFTAdmin.set__paused (propertyNFT w) true)
         (RentDistribution.set__paused (rentDistribution w) true) (tokenAt w).
Proof.
  unfold emergencyPause, onlyOwner, whenNotPaused, PropertyNFTAdmin.pause,
    RentDistribution.pause, RentDistribution.onlyOwner,
    RentDistribution.whenNotPaused.
  simpl. split.
  - intros H.
    destruct (N.eqb_spec (_owner st) (msg_sender ctx)); [|discriminate].
    destruct (_paused st); [discriminate|]. simpl in H.
    destruct (N.eqb_spec (self st) (PropertyNFT._owner (propertyNFT w)));
      [|discriminate].
    destruct (PropertyNFT._paused (propertyNFT w)); [discriminate|]. simpl in H.
    destruct (N.eqb_spec (RentDistribution._owner (rentDistribution w)) (self st));
      [|discriminate].
    destruct (RentDistribution._paused (rentDistribution w)); [discriminate|].
    simpl in H. injection H as <- <-. split_and!; done.
  - intros (-> & -> & Hn & -> & -> & -> & -> & ->). rewrite Hn, !N.eqb_refl.
    reflexivity.
Qed.

(** X26.  The emergency switch moves PropertyManager, PropertyNFT and
    RentDistribution together or not at all: [emergencyPause] succeeds exactly
    when its caller owns the manager, the manager owns the other two, and all
    three are running; [emergencyUnpause] then undoes it. Pausing the manager
    alone therefore disables the emergency switch, and unpausing it alone
    after an emergency leaves the other two paused. *)
Theorem emergency_pause_lockstep ctx w st :
  (forall st' w',
     emergencyPause ctx w st = Done (st', w') <->
     _owner st = msg_sender ctx /\ _paused st = false /\
     PropertyNFT._owner (propertyNFT w) = self st /\
     PropertyNFT._paused (propertyNFT w) = false /\
     RentDistribution._owner (rentDistribution w) = self st /\
     RentDistribution._paused (rentDistribution w) = false /\
     st' = set__paused st true /\
     w' = mkWorld (PropertyNFTAdmin.set__paused (propertyNFT w) true)
            (RentDistribution.set__paused (rentDistribution w) true) (tokenAt w)) /\
  (forall st' w',
     emergencyPause ctx w st = Done (st', w') ->
     emergencyUnpause ctx w' st' = Done (st, w) /\
     forall st'', unpause ctx st' = Done st'' ->
       emergencyUnpause ctx w' st'' = Failed (Reverted NotPaused) /\
       PropertyNFT._paused (propertyNFT w') = true /\
       RentDistribution._paused (rentDistribution w') = true) /\
  (forall st', pause ctx st = Done st' ->
     emergencyPause ctx w st' = Failed (Reverted Paused)).
Proof.
  split_and!.
  - intros st' w'. apply emergencyPause_Done.
  - intros st' w' H.
    apply emergencyPause_Done in H as (Ho & Hp & Hn & Hnp & Hr & Hrp & -> & ->).
    split.
    + unfold emergencyUnpause, onlyOwner, whenPaused, PropertyNFTAdmin.unpause,
        RentDistribution.unpause, RentDistribution.onlyOwner,
        RentDistribution.whenPaused.
      simpl. rewrite Ho, Hn, Hr, !N.eqb_refl. simpl.
      destruct st, w as [nft rent tokens], nft, rent. simpl in *. by subst.
    + intros st'' H. unfold unpause, onlyOwner, whenPaused in H. simpl in H.
      rewrite Ho, N.eqb_refl in H. simpl in H. injection H as <-.
      unfold emergencyUnpause, onlyOwner, whenPaused. simpl.
      by rewrite Ho, N.eqb_refl.
  - intros st' H. unfold pause, onlyOwner, whenNotPaused in H.
    destruct (N.eqb_spec (_owner st) (msg_sender ctx)) as [Ho|]; [|discriminate].
    destruct (_paused st); [discriminate|]. simpl in H. injection H as <-.
    unfold emergencyPause, onlyOwner, whenNotPaused. simpl.
    by rewrite Ho, N.eqb_refl.
Qed.

Lemma countLoop_Done w st investor counter : forall count count',
  countLoop w st investor counter count = Done count' ->
  count' = count + N.of_nat (length (List.filter (holds w st investor) counter)).
Proof.
  induction counter as [|i rest IH]; intros count count' H; simpl in H.
  - injection H as <-. simpl. lia.
  - simpl. unfold holds at 1.
    destruct (get (propertyToFractionalToken st) i =? 0); simpl in *.
    { rewrite (IH _ _ H). lia. }
    unfold fractionalTokenAt in H.
    destruct (tokenAt w (get (propertyToFractionalToken st) i)) as [token|];
      simpl in H; [|discriminate].
    destruct (0 <? FractionalToken.balanceOf token investor).
    + apply bind_Done in H as (c & Hc & H).
      apply lift_Done, add_Ok in Hc as [-> _].
      rewrite (IH _ _ H). simpl. lia.
    + rewrite (IH _ _ H). lia.
Qed.

Lemma fillLoop_Done w st investor counter :
  forall k propertyIds tokenBalances ownershipPercentages r,
  length propertyIds
    = (k + length (List.filter (holds w st investor) counter))%nat ->
  length tokenBalances
    = (k + length (List.filter (holds w st investor) counter))%nat ->
  length ownershipPercentages
    = (k + length (List.filter (holds w st investor) counter))%nat ->
  fillLoop w st investor counter (N.of_nat k)
    propertyIds tokenBalances ownershipPercentages = Done r ->
  r = (take k propertyIds ++ List.filter (holds w st investor) counter,
       take k tokenBalances
         ++ (balanceAt w st investor <$> List.filter (holds w st investor) counter),
       take k ownershipPercentages
         ++ (percentageAt w st investor
               <$> List.filter (holds w st investor) counter)).
Proof.
  induction counter as [|i rest IH]; intros k ids bals pcts r Hi Hb Hp H;
    simpl in *.
  - injection H as <-. rewrite !app_nil_r, !take_ge by lia. reflexivity.
  - unfold fractionalTokenAt in H.
    destruct (holds w st investor i) eqn:Hh; unfold holds in Hh;
      destruct (get (propertyToFractionalToken st) i =? 0) eqn:Ha;
      simpl in Hh, H; try discriminate; try (by apply IH);
      destruct (tokenAt w (get (propertyToFractionalToken st) i))
        as [token|] eqn:Ht;
      simpl in Hh, H; try discriminate; rewrite Hh in H; try (by apply IH).
    simpl in *.
    rewrite !store_Done in H by lia. simpl in H.
    apply bind_Done in H as (p & Hpct & H). apply lift_Done in Hpct.
    rewrite store_Done in H by lia. simpl in H.
    apply bind_Done in H as (index & Hindex & H).
    apply lift_Done, add_Ok in Hindex as [-> _].
    replace (N.of_nat k + 1) with (N.of_nat (S k)) in H by lia.
    apply IH in H; rewrite ?length_insert; try lia.
    rewrite H, !take_insert_S by lia.
    assert (Hbal : balanceAt w st investor i
                   = FractionalToken.balanceOf token investor)
      by (unfold balanceAt; by rewrite Ht).
    assert (Hpc : percentageAt w st investor i = p)
      by (unfold percentageAt; by rewrite Ht, Hpct).
    rewrite Hbal, Hpc. by rewrite <- !app_assoc.
Qed.

Lemma countLoop_succeeds w st investor counter : forall count,
  (forall i, i ∈ counter -> answerable w st investor i) ->
  count + N.of_nat (length counter) <= MAX_UINT256 ->
  countLoop w st investor counter count
  = Done (count + N.of_nat (length (List.filter (holds w st investor) counter))).
Proof.
  induction counter as [|i rest IH]; intros count Hans Hfit; simpl.
  - f_equal. lia.
  - simpl in Hfit.
    assert (Hrest : forall j, j ∈ rest -> answerable w st investor j)
      by (intros j Hj; apply Hans, elem_of_cons; by right).
    pose proof (Hans i ltac:(apply elem_of_cons; by left)) as Hi.
    unfold answerable in Hi. unfold holds at 1. unfold fractionalTokenAt.
    destruct (N.eqb_spec (get (propertyToFractionalToken st) i) 0) as [Ha|Ha];
      simpl.
    { apply IH; [done|lia]. }
    destruct (Hi Ha) as (token & -> & _). simpl.
    destruct (0 <? FractionalToken.balanceOf token investor); simpl.
    + rewrite add_fits by lia. simpl. rewrite IH by (done || lia).
      f_equal. lia.
    + apply IH; [done|lia].
Qed.

Lemma percentage_fits token investor :
  FractionalToken.balanceOf token investor * 10000 <= MAX_UINT256 ->
  exists p, FractionalToken.getOwnershipPercentage token investor = Ok p.
Proof.
  intros Hfit. unfold FractionalToken.getOwnershipPercentage.
  destruct (_ || _) eqn:Hz; [eauto|].
  apply orb_false_iff in Hz as [_ Hs].
  unfold mul. destruct (N.leb_spec (FractionalToken.balanceOf token investor * 10000)
                          MAX_UINT256); [simpl|lia].
  unfold div. rewrite Hs. eauto.
Qed.

Lemma fillLoop_succeeds w st investor counter :
  forall k propertyIds tokenBalances ownershipPercentages,
  (forall i, i ∈ counter -> answerable w st investor i) ->
  length propertyIds
    = (k + length (List.filter (holds w st investor) counter))%nat ->
  length tokenBalances
    = (k + length (List.filter (holds w st investor) counter))%nat ->
  length ownershipPercentages
    = (k + length (List.filter (holds w st investor) counter))%nat ->
  N.of_nat (length propertyIds) <= MAX_UINT256 ->
  exists r,
    fillLoop w st investor counter (N.of_nat k)
      propertyIds tokenBalances ownershipPercentages = Done r.
Proof.
  induction counter as [|i rest IH]; intros k ids bals pcts Hans Hi Hb Hp Hfit;
    simpl in *; [eauto|].
  assert (Hrest : forall j, j ∈ rest -> answerable w st investor j)
    by (intros j Hj; apply Hans, elem_of_cons; by right).
  pose proof (Hans i ltac:(apply elem_of_cons; by left)) as Hai.
  unfold answerable in Hai. unfold fractionalTokenAt.
  destruct (holds w st investor i) eqn:Hh; unfold holds in Hh;
    destruct (N.eqb_spec (get (propertyToFractionalToken st) i) 0) as [Ha|Ha];
    simpl in Hh |- *; try discriminate; try (by apply IH);
    destruct (Hai Ha) as (token & Ht & Hpc); rewrite Ht in Hh |- *;
    simpl; rewrite Hh; try (by apply IH).
  simpl in *. rewrite !store_Done by lia. simpl.
  destruct (percentage_fits _ _ Hpc) as [p ->]. simpl.
  rewrite store_Done by lia. simpl.
  rewrite add_fits by lia. simpl.
  replace (N.of_nat k + 1) with (N.of_nat (S k)) by lia.
  apply IH; rewrite ?length_insert; try done; lia.
Qed.

(** X27.  The two passes of [getInvestorPortfolio] agree: the second pass
    writes exactly as many entries as the first pass counted, so no write
    falls outside the arrays and no slot is left blank. Whenever the query
    returns, it returns the properties the investor holds shares of, in
    increasing order, with the balances and the percentages; and it does
    return when every registered token is deployed and the percentages are
    computable. *)
Theorem portfolio_two_pass w st investor :
  (forall r, getInvestorPortfolio w st investor = Done r ->
     r = portfolio w st investor) /\
  (totalProperties st <= MAX_UINT256 ->
   (forall i, i < totalProperties st -> answerable w st investor i) ->
   getInvestorPortfolio w st investor = Done (portfolio w st investor)).
Proof.
  assert (Hret : forall r, getInvestorPortfolio w st investor = Done r ->
                   r = portfolio w st investor).
  { intros r H. unfold getInvestorPortfolio in H.
    apply bind_Done in H as (count & Hc & H).
    apply countLoop_Done in Hc. rewrite N.add_0_l in Hc. subst count.
    rewrite Nat2N.id in H.
    by apply (fillLoop_Done _ _ _ _ 0) in H; rewrite ?length_replicate. }
  split; [exact Hret|].
  intros Hfit Hans.
  assert (Hans' : forall i, i ∈ indices (totalProperties st) ->
                    answerable w st investor i)
    by (intros i Hi; by apply Hans, elem_of_indices).
  destruct (getInvestorPortfolio w st investor) as [r|e] eqn:H;
    [by rewrite (Hret r eq_refl)|exfalso].
  unfold getInvestorPortfolio in H.
  rewrite (countLoop_succeeds _ _ _ _ 0) in H;
    [|done|rewrite length_indices; lia].
  rewrite N.add_0_l in H. simpl in H. rewrite Nat2N.id in H.
  destruct (fillLoop_succeeds w st investor (indices (totalProperties st)) 0
              (replicate (length (List.filter (holds w st investor)
                                    (indices (totalProperties st)))) 0)
              (replicate (length (List.filter (holds w st investor)
                                    (indices (totalProperties st)))) 0)
              (replicate (length (List.filter (holds w st investor)
                                    (indices (totalProperties st)))) 0))
    as [r Hr]; rewrite ?length_replicate; try done.
  - pose proof (filter_length_le (holds w st investor)
                 (indices (totalProperties st))) as Hle.
    rewrite length_indices in Hle. lia.
  - change (N.of_nat 0) with 0 in Hr. rewrite Hr in H. discriminate.
Qed.

Lemma kycLoop_foldl sender verified users : forall nft,
  sender = PropertyNFT._owner nft ->
  foldl (fun r user => nft ← r ; PropertyNFTAdmin.setKYCStatus sender nft user verified)
    (Ok nft) users
  = Ok (PropertyNFTAdmin.kycLoop users verified nft).
Proof.
  induction users as [|u users IH]; intros nft Ho; simpl; [done|].
  subst sender. unfold PropertyNFTAdmin.setKYCStatus at 2.
  rewrite N.eqb_refl. simpl. by apply IH.
Qed.

(** X28.  The manager's [batchSetKYCStatus] needs the manager's owner as
    caller and the manager as owner of the PropertyNFT. It leaves exactly the
    listed addresses with the given status, touches nothing else, and is the
    same as one [setKYCStatus] per listed address, in order. *)
Theorem batchSetKYCStatus_marks_listed_users ctx w st users verified w' :
  batchSetKYCStatus ctx w st users verified = Done w' ->
  _owner st = msg_sender ctx /\
  PropertyNFT._owner (propertyNFT w) = self st /\
  (forall a,
     getb (PropertyNFT.kycVerified (propertyNFT w')) a
     = if decide (a ∈ users) then verified
       else getb (PropertyNFT.kycVerified (propertyNFT w)) a) /\
  PropertyNFT._owner (propertyNFT w') = PropertyNFT._owner (propertyNFT w) /\
  PropertyNFT._paused (propertyNFT w') = PropertyNFT._paused (propertyNFT w) /\
  PropertyNFT._owners (propertyNFT w') = PropertyNFT._owners (propertyNFT w) /\
  PropertyNFT.properties (propertyNFT w') = PropertyNFT.properties (propertyNFT w) /\
  rentDistribution w' = rentDistribution w /\ tokenAt w' = tokenAt w /\
  foldl (fun r user =>
           nft ← r ; PropertyNFTAdmin.setKYCStatus (self st) nft user verified)
    (Ok (propertyNFT w)) users
  = Ok (propertyNFT w').
Proof.
  intros H. unfold batchSetKYCStatus in H.
  apply bind_Done in H as (? & Ho & H). apply demand_Done, N.eqb_eq in Ho.
  apply bind_Done in H as (nft' & Hb & H). apply lift_Done in Hb.
  injection H as <-. unfold PropertyNFTAdmin.batchSetKYCStatus in Hb.
  apply bind_Ok in Hb as (? & Hn & Hb). apply require_Ok, N.eqb_eq in Hn.
  injection Hb as <-. simpl.
  destruct (PropertyNFTAdminFacts.kycLoop_spec users verified (propertyNFT w))
    as (H1 & H2 & H3 & H4 & H5).
  split_and!; try done. by apply kycLoop_foldl.
Qed.

Import Scenario Cases.

Lemma getProperties_pages_concatenate_witness :
  getProperties catalogue 0 2 = Done ([0; 1], [100; 101]) /\
  getProperties catalogue 2 5 = Done ([2], [102]) /\
  getProperties catalogue 0 7 = Done ([0; 1; 2], [100; 101; 102]).
Proof.
  assert (H1 : getProperties catalogue 0 2 = Done ([0; 1], [100; 101]))
    by (vm_compute; reflexivity).
  assert (H2 : getProperties catalogue (0 + 2) 5 = Done ([2], [102]))
    by (vm_compute; reflexivity).
  split_and!; [exact H1|exact H2|].
  exact (getProperties_pages_concatenate catalogue 0 2 5 _ _ _ _ H1 H2).
Defined.

Lemma invest_through_manager_fails_witness :
  PropertyNFT._owner (propertyNFT worldLive) = self platformLive /\
  tokenAt worldLive (get (propertyToFractionalToken platformLive) 0) = Some tokenLive /\
  FractionalToken.self tokenLive <> self platformLive /\
  investInProperty (asUser alice) worldLive platformLive 600 0 600
    = Failed (Reverted NotOwner) /\
  exists r, investInProperty (asUser alice) worldLive platformLive 600 0 600 = Failed r.
Proof.
  assert (Ho : PropertyNFT._owner (propertyNFT worldLive) = self platformLive)
    by reflexivity.
  assert (Hat : tokenAt worldLive (get (propertyToFractionalToken platformLive) 0)
                = Some tokenLive) by reflexivity.
  assert (Hs : FractionalToken.self tokenLive <> self platformLive) by discriminate.
  assert (Ht : forall token,
            tokenAt worldLive (get (propertyToFractionalToken platformLive) 0)
            = Some token ->
            FractionalToken.self token <> self platformLive).
  { intros token H. rewrite Hat in H. injection H as <-. exact Hs. }
  split_and!; [exact Ho|exact Hat|exact Hs|vm_compute; reflexivity|].
  exact (invest_through_manager_fails (asUser alice) worldLive platformLive 600 0 600
           Ho Ht).
Defined.

Lemma batchSetKYCStatus_marks_listed_users_witness :
  batchSetKYCStatus (asUser platformOwner) (platformWorld nftManaged) platform
    [carol; bob] true = Done worldVerified /\
  getb (PropertyNFT.kycVerified (propertyNFT (platformWorld nftManaged))) carol = false /\
  getb (PropertyNFT.kycVerified (propertyNFT worldVerified)) carol = true.
Proof.
  assert (Hb : batchSetKYCStatus (asUser platformOwner) (platformWorld nftManaged)
                 platform [carol; bob] true = Done worldVerified)
    by (vm_compute; reflexivity).
  destruct (batchSetKYCStatus_marks_listed_users (asUser platformOwner)
              (platformWorld nftManaged) platform [carol; bob] true worldVerified Hb)
    as (_ & _ & Hk & _).
  split_and!; [exact Hb|vm_compute; reflexivity|].
  rewrite Hk. rewrite decide_True; [reflexivity|]. apply elem_of_cons. by left.
Defined.

End PropertyManagerFacts.
